(** * Simple-RDBMS: parser, table validator, index manager and executor

    A shallow embedding of the JavaScript sources
      src/parser/SQLParser.js, src/storage/Table.js,
      src/storage/StorageEngine.js, src/index/IndexManager.js,
      src/executor/QueryExecutor.js and src/Database.js
    together with the properties the specification states about them.

    Conventions of the embedding
    - JavaScript strings are [string]s of 8-bit characters (ASCII text).
    - JavaScript numbers are kept abstract: the class [Runtime] lists the
      operations of the language runtime the sources call ([parseInt],
      [parseFloat], [Number], [String], [isNaN], comparison, JSON) and the
      few facts about them that the proofs use.  [DecRuntime] is a runtime
      of decimal numbers on which the definitions evaluate.
    - A JavaScript object used as a record of columns is an association
      list in property-enumeration order.
    - [throw] is the [Throw] outcome of a state-and-exception monad over the
      database state [DB].
    - The file system is the data directory.  The class [Runtime] says
      which file a name denotes there and whether it can be opened
      ([file_of]): [fs.writeFileSync] throws when it cannot, as on a name
      with a path separator that leads into a directory that does not
      exist, and [fs.existsSync] is false then.  The two files of a table
      are kept under the name of the table; reading, writing and removing
      the files of a table that exists do not fail. *)

From Stdlib Require Import String Ascii ZArith List Bool Lia DecimalString.
From stdpp Require Import base option list gmap strings.
Import ListNotations.
Local Open Scope string_scope.
Local Open Scope Z_scope.

(* ===================================================================== *)
(** ** Strings: the methods of [String.prototype] the sources use        *)
(* ===================================================================== *)

Definition is_space (c : ascii) : bool :=
  let n := nat_of_ascii c in
  ((9 <=? n)%nat && (n <=? 13)%nat) || (n =? 32)%nat.

Definition is_digit (c : ascii) : bool :=
  let n := nat_of_ascii c in (48 <=? n)%nat && (n <=? 57)%nat.

Definition is_upper (c : ascii) : bool :=
  let n := nat_of_ascii c in (65 <=? n)%nat && (n <=? 90)%nat.

Definition is_lower (c : ascii) : bool :=
  let n := nat_of_ascii c in (97 <=? n)%nat && (n <=? 122)%nat.

(** The class [\w] of regular expressions. *)
Definition is_word (c : ascii) : bool :=
  is_digit c || is_upper c || is_lower c || (nat_of_ascii c =? 95)%nat.

Definition upper_char (c : ascii) : ascii :=
  if is_lower c then ascii_of_nat (nat_of_ascii c - 32) else c.

Definition lower_char (c : ascii) : ascii :=
  if is_upper c then ascii_of_nat (nat_of_ascii c + 32) else c.

Fixpoint map_string (f : ascii -> ascii) (s : string) : string :=
  match s with
  | EmptyString => EmptyString
  | String c s' => String (f c) (map_string f s')
  end.

Definition toUpperCase : string -> string := map_string upper_char.
Definition toLowerCase : string -> string := map_string lower_char.

Fixpoint drop_string (n : nat) (s : string) : string :=
  match n, s with
  | O, _ => s
  | S n', String _ s' => drop_string n' s'
  | S _, EmptyString => EmptyString
  end.

Definition startsWith (s p : string) : bool := String.prefix p s.

Definition endsWith (s p : string) : bool :=
  (String.length p <=? String.length s)%nat &&
  String.eqb (drop_string (String.length s - String.length p) s) p.

(** [s.includes(p)] *)
Fixpoint includes (s p : string) : bool :=
  String.prefix p s ||
  match s with
  | EmptyString => false
  | String _ s' => includes s' p
  end.

(** [cut s p]: the text before and the text after the leftmost occurrence
    of [p] in [s]. *)
Fixpoint cut (s p : string) : option (string * string) :=
  if String.prefix p s then Some (EmptyString, drop_string (String.length p) s)
  else match s with
       | EmptyString => None
       | String c s' =>
           match cut s' p with
           | Some (b, a) => Some (String c b, a)
           | None => None
           end
       end.

(** [s.split(p)] for a non-empty separator [p]; [fuel] bounds the number of
    pieces. *)
Fixpoint split_fuel (fuel : nat) (s p : string) : list string :=
  match fuel with
  | O => [s]
  | S fuel' =>
      match cut s p with
      | Some (b, a) => b :: split_fuel fuel' a p
      | None => [s]
      end
  end.

Definition split (s p : string) : list string :=
  split_fuel (String.length s) s p.

Fixpoint trimStart (s : string) : string :=
  match s with
  | String c s' => if is_space c then trimStart s' else s
  | EmptyString => EmptyString
  end.

Fixpoint trimEnd (s : string) : string :=
  match s with
  | EmptyString => EmptyString
  | String c s' =>
      let t := trimEnd s' in
      if is_space c && String.eqb t EmptyString then EmptyString
      else String c t
  end.

Definition trim (s : string) : string := trimEnd (trimStart s).

(** [s.charAt(0)] *)
Definition charAt0 (s : string) : string :=
  match s with
  | String c _ => String c EmptyString
  | EmptyString => EmptyString
  end.

(** [s.slice(1, -1)] *)
Definition slice_1_m1 (s : string) : string :=
  String.substring 1 (String.length s - 2) s.

(** [a.join(sep)] on an array of strings. *)
Fixpoint join (sep : string) (l : list string) : string :=
  match l with
  | [] => EmptyString
  | [x] => x
  | x :: l' => x ++ sep ++ join sep l'
  end.

(** [s1 < s2] on strings: code units compared left to right. *)
Fixpoint string_ltb (s1 s2 : string) : bool :=
  match s1, s2 with
  | EmptyString, EmptyString => false
  | EmptyString, String _ _ => true
  | String _ _, EmptyString => false
  | String c1 t1, String c2 t2 =>
      if (nat_of_ascii c1 <? nat_of_ascii c2)%nat then true
      else if (nat_of_ascii c2 <? nat_of_ascii c1)%nat then false
      else string_ltb t1 t2
  end.

(** A string is truthy when it is not empty. *)
Definition truthy_string (s : string) : bool := negb (String.eqb s EmptyString).

(* ===================================================================== *)
(** ** The language runtime: numbers, and the files of the data directory *)
(* ===================================================================== *)

Class Runtime := {
  number : Type;
  (** [a === b] on numbers *)
  num_eqb : number -> number -> bool;
  (** [a < b] on numbers; [false] when an operand is [NaN] *)
  num_ltb : number -> number -> bool;
  num_isNaN : number -> bool;
  num_NaN : number;
  (** the numbers 0 and 1 (of [ToNumber(false)], [ToNumber(true)],
      [ToNumber(null)] and the literal [1]) *)
  num_zero : number;
  num_one : number;
  (** [Number.isInteger] *)
  num_isInteger : number -> bool;
  (** [Number(s)]: [ToNumber] of a string *)
  Number_of_string : string -> number;
  (** [String(n)]: [ToString] of a number *)
  String_of_number : number -> string;
  (** [parseInt(s, 10)] and [parseFloat(s)] of a string *)
  parseInt_string : string -> number;
  parseFloat_string : string -> number;
  (** [JSON.parse(JSON.stringify(n))]: [None] stands for [null], what a
      number that is not finite is written as *)
  num_json : number -> option number;

  (** The file system under the data directory.  [file_of name] is the
      file that [path.join(dataDir, name)] denotes when that file can be
      opened (to be created, written, read or removed), and [None] when it
      cannot: so for a name with a path separator that leads into a
      directory that does not exist.  [open_error name] is the message of
      the error that [fs.writeFileSync] throws then. *)
  file_of : string -> option string;
  open_error : string -> string;

  num_eqb_diag : forall n, num_eqb n n = negb (num_isNaN n);
  num_eqb_sym : forall a b, num_eqb a b = num_eqb b a;
  num_eqb_trans : forall a b c,
      num_eqb a b = true -> num_eqb b c = true -> num_eqb a c = true;
  num_json_eqb : forall n m, num_json n = Some m -> num_eqb m n = true;
  num_json_idem : forall n m, num_json n = Some m -> num_json m = Some m;
}.

(* ===================================================================== *)
(** ** Values, and the operators on them                                 *)
(* ===================================================================== *)

Section Values.
Context `{RT : Runtime}.

Inductive value :=
| VUndefined
| VNull
| VBool (b : bool)
| VNum (n : number)
| VStr (s : string).

(** [v === null || v === undefined] *)
Definition is_nullish (v : value) : bool :=
  match v with VUndefined | VNull => true | _ => false end.

(** [a === b] *)
Definition strictEq (a b : value) : bool :=
  match a, b with
  | VUndefined, VUndefined => true
  | VNull, VNull => true
  | VBool x, VBool y => Bool.eqb x y
  | VNum x, VNum y => num_eqb x y
  | VStr x, VStr y => String.eqb x y
  | _, _ => false
  end.

(** SameValueZero, the comparison of [Map] keys. *)
Definition sameValueZero (a b : value) : bool :=
  match a, b with
  | VNum x, VNum y => num_eqb x y || (num_isNaN x && num_isNaN y)
  | _, _ => strictEq a b
  end.

Definition bool_number (b : bool) : number := if b then num_one else num_zero.

(** [ToNumber] *)
Definition ToNumber (v : value) : number :=
  match v with
  | VUndefined => num_NaN
  | VNull => num_zero
  | VBool b => bool_number b
  | VNum n => n
  | VStr s => Number_of_string s
  end.

(** [String(v)] *)
Definition ToString (v : value) : string :=
  match v with
  | VUndefined => "undefined"
  | VNull => "null"
  | VBool true => "true"
  | VBool false => "false"
  | VNum n => String_of_number n
  | VStr s => s
  end.

(** [a == b]: equal types compare strictly, [null] and [undefined] are
    equal to each other and to nothing else, a boolean is compared as a
    number, and a number and a string are compared as numbers. *)
Definition looseEq (a b : value) : bool :=
  match a, b with
  | VUndefined, (VUndefined | VNull) => true
  | VNull, (VUndefined | VNull) => true
  | (VUndefined | VNull), _ => false
  | _, (VUndefined | VNull) => false
  | VStr x, VStr y => String.eqb x y
  | VBool x, VBool y => Bool.eqb x y
  | _, _ => num_eqb (ToNumber a) (ToNumber b)
  end.

(** [a < b] of two primitives: [None] is the result [undefined] of the
    abstract relational comparison (an operand is [NaN]). *)
Definition lessThan (a b : value) : option bool :=
  match a, b with
  | VStr x, VStr y => Some (string_ltb x y)
  | _, _ =>
      let x := ToNumber a in
      let y := ToNumber b in
      if num_isNaN x || num_isNaN y then None else Some (num_ltb x y)
  end.

Definition js_lt (a b : value) : bool :=
  match lessThan a b with Some r => r | None => false end.
Definition js_gt (a b : value) : bool := js_lt b a.
Definition js_le (a b : value) : bool :=
  match lessThan b a with Some r => negb r | None => false end.
Definition js_ge (a b : value) : bool :=
  match lessThan a b with Some r => negb r | None => false end.

(** [JSON.parse(JSON.stringify(v))] of a value held in an array or under
    a property: a number that is not finite becomes [null]. *)
Definition json_value (v : value) : value :=
  match v with
  | VNum n => match num_json n with Some m => VNum m | None => VNull end
  | VUndefined => VNull
  | _ => v
  end.

End Values.

(* ===================================================================== *)
(** ** Objects used as rows                                              *)
(* ===================================================================== *)

(** An array index is the canonical decimal form of an integer below
    2^32 - 1; properties with such names are enumerated first, in
    ascending order, the others follow in order of creation. *)
Fixpoint digits_value (acc : N) (s : string) : option N :=
  match s with
  | EmptyString => Some acc
  | String c s' =>
      if is_digit c
      then digits_value (acc * 10 + N.of_nat (nat_of_ascii c - 48))%N s'
      else None
  end.

Definition arrayIndex (k : string) : option N :=
  match k with
  | EmptyString => None
  | String c rest =>
      if (nat_of_ascii c =? 48)%nat && negb (String.eqb rest EmptyString)
      then None
      else if (10 <? String.length k)%nat then None
      else match digits_value 0%N k with
           | Some n => if (n <? 4294967295)%N then Some n else None
           | None => None
           end
  end.

Section Rows.
Context `{RT : Runtime}.

Definition Row := list (string * value).

(** [row[k]] *)
Fixpoint get (r : Row) (k : string) : value :=
  match r with
  | [] => VUndefined
  | (k', v) :: r' => if String.eqb k' k then v else get r' k
  end.

Fixpoint has (r : Row) (k : string) : bool :=
  match r with
  | [] => false
  | (k', _) :: r' => String.eqb k' k || has r' k
  end.

Fixpoint replace (r : Row) (k : string) (v : value) : Row :=
  match r with
  | [] => []
  | (k', v') :: r' =>
      if String.eqb k' k then (k, v) :: r' else (k', v') :: replace r' k v
  end.

Fixpoint insertIndex (i : N) (k : string) (v : value) (r : Row) : Row :=
  match r with
  | [] => [(k, v)]
  | (k', v') :: r' =>
      match arrayIndex k' with
      | Some j => if (j <? i)%N then (k', v') :: insertIndex i k v r'
                  else (k, v) :: r
      | None => (k, v) :: r
      end
  end.

(** [row[k] = v] *)
Definition set (r : Row) (k : string) (v : value) : Row :=
  if has r k then replace r k v
  else match arrayIndex k with
       | Some i => insertIndex i k v r
       | None => (r ++ [(k, v)])%list
       end.

(** [{ ...r, ...u }] *)
Definition spread (r u : Row) : Row :=
  fold_left (fun acc kv => set acc (fst kv) (snd kv)) u r.

(** [JSON.parse(JSON.stringify(row))]: a property holding [undefined] is
    not written. *)
Definition json_row (r : Row) : Row :=
  map (fun kv => (fst kv, json_value (snd kv)))
      (List.filter (fun kv => negb (strictEq (snd kv) VUndefined)) r).

End Rows.

(* ===================================================================== *)
(** ** Schema, index and database state                                  *)
(* ===================================================================== *)

Record Column := {
  name : string;
  type : string;
  constraints : list string;
}.

(** What the parser hands to [createTable]. *)
Record Schema := {
  schema_columns : list Column;
  schema_primaryKey : option string;
  schema_uniqueKeys : list string;
}.

(** The contents of [<table>.meta.json]; [primaryKey = None] is [null]. *)
Record Metadata := {
  tableName : string;
  columns : list Column;
  primaryKey : option string;
  uniqueKeys : list string;
  createdAt : string;
}.

(** The wall clock: [new Date().toISOString()] returns [reading tick] and
    time moves on. *)
Record Clock := {
  reading : nat -> string;
  tick : nat;
}.

(** The outcome of a call: a returned value or a thrown [Error] with its
    message. *)
Inductive outcome (A : Type) :=
| Ok (a : A)
| Throw (message : string).
Arguments Ok {A} a.
Arguments Throw {A} message.

Section State.
Context `{RT : Runtime}.

(** A [Map] from column values to row positions, in insertion order. *)
Definition Index := list (value * list nat).

(** The object [buildIndex] writes to [<table>_<column>.idx.json]. *)
Record IndexData := {
  idx_tableName : string;
  idx_columnName : string;
  idx_entries : list (value * list nat);
  idx_createdAt : string;
}.

(** The state the database object reaches:
    - [storage]: the tables of the data directory (a table exists when
      its data file and its metadata file do), by table name;
    - [indexFiles]: the index files of the data directory, by the file
      that their name denotes ([file_of]);
    - [indexes]: the in-memory cache of the index manager, by cache key;
    - [tables]: the cache of table objects of the database, by table name
      (a table object is determined by the metadata it was created with);
    - [clock]: the wall clock. *)
Record DB := {
  storage : gmap string (Metadata * list Row);
  indexFiles : gmap string IndexData;
  indexes : gmap string Index;
  tables : gmap string Metadata;
  clock : Clock;
}.

Definition with_storage (f : gmap string (Metadata * list Row) ->
                             gmap string (Metadata * list Row)) (d : DB) : DB :=
  {| storage := f (storage d); indexFiles := indexFiles d;
     indexes := indexes d; tables := tables d; clock := clock d |}.

Definition with_indexFiles (f : gmap string IndexData -> gmap string IndexData)
    (d : DB) : DB :=
  {| storage := storage d; indexFiles := f (indexFiles d);
     indexes := indexes d; tables := tables d; clock := clock d |}.

Definition with_indexes (f : gmap string Index -> gmap string Index)
    (d : DB) : DB :=
  {| storage := storage d; indexFiles := indexFiles d;
     indexes := f (indexes d); tables := tables d; clock := clock d |}.

Definition with_tables (f : gmap string Metadata -> gmap string Metadata)
    (d : DB) : DB :=
  {| storage := storage d; indexFiles := indexFiles d;
     indexes := indexes d; tables := f (tables d); clock := clock d |}.

Definition with_clock (c : Clock) (d : DB) : DB :=
  {| storage := storage d; indexFiles := indexFiles d;
     indexes := indexes d; tables := tables d; clock := c |}.

(** Statements that may throw and change the state. *)
Definition M (A : Type) : Type := DB -> outcome A * DB.

Definition ret {A} (a : A) : M A := fun d => (Ok a, d).
Definition throw {A} (msg : string) : M A := fun d => (Throw msg, d).
Definition bind {A B} (m : M A) (k : A -> M B) : M B :=
  fun d => match m d with
           | (Ok a, d') => k a d'
           | (Throw msg, d') => (Throw msg, d')
           end.
Definition gets {A} (f : DB -> A) : M A := fun d => (Ok (f d), d).
Definition modify (f : DB -> DB) : M unit := fun d => (Ok tt, f d).

End State.

Declare Scope js_scope.
Delimit Scope js_scope with js.
Notation "'let*' x ':=' m 'in' k" := (bind m (fun x => k))
  (at level 10, x name, m at level 99, k at level 200) : js_scope.
Notation "m ';;' k" := (bind m (fun _ => k))
  (at level 100, k at level 200, right associativity) : js_scope.
Local Open Scope js_scope.

Section Engine.
Context `{RT : Runtime}.

(** A pure computation that may throw, run inside [M]. *)
Definition lift {A} (o : outcome A) : M A := fun d => (o, d).

(** [new Date().toISOString()] *)
Definition now : M string :=
  fun d => (Ok (reading (clock d) (tick (clock d))),
            with_clock {| reading := reading (clock d);
                          tick := S (tick (clock d)) |} d).

(* ===================================================================== *)
(** ** src/storage/StorageEngine.js                                      *)
(* ===================================================================== *)

Definition tableExists (t : string) : M bool :=
  gets (fun d => match storage d !! t with Some _ => true | None => false end).

(** [fs.writeFileSync(path.join(dataDir, name), ...)] of a file that does
    not exist yet: it throws when the file cannot be opened. *)
Definition createFile (name : string) : M unit :=
  match file_of name with
  | Some _ => ret tt
  | None => throw (open_error name)
  end.

Definition storage_createTable (t : string) (schema : Schema) : M Metadata :=
  let* ex := tableExists t in
  if ex then throw ("Table '" ++ t ++ "' already exists")
  else
    let* date := now in
    let metadata :=
      {| tableName := t;
         columns := schema_columns schema;
         primaryKey := match schema_primaryKey schema with
                       | Some k => if truthy_string k then Some k else None
                       | None => None
                       end;
         uniqueKeys := schema_uniqueKeys schema;
         createdAt := date |} in
    createFile (t ++ ".meta.json") ;;
    createFile (t ++ ".json") ;;
    modify (with_storage (fun st => <[t := (metadata, [])]> st)) ;;
    ret metadata.

Definition getTableMetadata (t : string) : M Metadata :=
  let* found := gets (fun d => storage d !! t) in
  match found with
  | Some (metadata, _) => ret metadata
  | None => throw ("Table '" ++ t ++ "' does not exist")
  end.

Definition loadTableData (t : string) : M (list Row) :=
  let* found := gets (fun d => storage d !! t) in
  match found with
  | Some (_, rows) => ret rows
  | None => throw ("Table '" ++ t ++ "' does not exist")
  end.

Definition saveTableData (t : string) (rows : list Row) : M unit :=
  let* found := gets (fun d => storage d !! t) in
  match found with
  | Some (metadata, _) =>
      modify (with_storage (fun st => <[t := (metadata, map json_row rows)]> st))
  | None => throw ("Table '" ++ t ++ "' does not exist")
  end.

Definition insertRow (t : string) (row : Row) : M Row :=
  let* rows := loadTableData t in
  saveTableData t (rows ++ [row])%list ;;
  ret row.

Definition storage_dropTable (t : string) : M unit :=
  let* ex := tableExists t in
  if ex then modify (with_storage (fun st => delete t st))
  else throw ("Table '" ++ t ++ "' does not exist").

(* ===================================================================== *)
(** ** src/storage/Table.js                                              *)
(* ===================================================================== *)

Definition one_of (s : string) (l : list string) : bool :=
  existsb (String.eqb s) l.

Definition validateType (v : value) (ty : string) : bool :=
  let t := toUpperCase ty in
  if one_of t ["INTEGER"; "INT"] then num_isInteger (ToNumber v)
  else if one_of t ["TEXT"; "VARCHAR"] then
    match v with VStr _ => true | _ => false end
  else if one_of t ["BOOLEAN"; "BOOL"] then
    match v with VBool _ => true | _ => false end
    || strictEq v (VStr "true") || strictEq v (VStr "false")
  else if one_of t ["FLOAT"; "REAL"] then
    negb (num_isNaN (parseFloat_string (ToString v)))
  else true.

Definition coerceType (v : value) (ty : string) : value :=
  if is_nullish v then VNull
  else
    let t := toUpperCase ty in
    if one_of t ["INTEGER"; "INT"] then VNum (parseInt_string (ToString v))
    else if one_of t ["TEXT"; "VARCHAR"] then VStr (ToString v)
    else if one_of t ["BOOLEAN"; "BOOL"] then
      match v with
      | VBool _ => v
      | _ => VBool (strictEq v (VStr "true") || strictEq v (VStr "1")
                    || strictEq v (VNum num_one))
      end
    else if one_of t ["FLOAT"; "REAL"] then VNum (parseFloat_string (ToString v))
    else v.

Section Table.
Variable metadata : Metadata.
Variable table : string.

(** The messages [validateRow] collects for one column. *)
Definition column_errors (row : Row) (column : Column) : list string :=
  let v := get row (name column) in
  (if one_of "NOT_NULL" (constraints column) && is_nullish v
   then ["Column '" ++ name column ++ "' cannot be null"] else [])
  ++
  (if negb (is_nullish v) && negb (validateType v (type column))
   then ["Invalid type for column '" ++ name column ++ "'. Expected "
           ++ type column]
   else []).

Definition validateRow (row : Row) : outcome bool :=
  let errors := flat_map (column_errors row) (columns metadata) in
  if (0 <? length errors)%nat
  then Throw ("Validation failed: " ++ join ", " errors)
  else Ok true.

(** [existingRows.find((r) => r[column] === v)] *)
Definition find_equal (column : string) (v : value) (existing : list Row)
  : option Row :=
  find (fun r => strictEq (get r column) v) existing.

Definition validatePrimaryKey (row : Row) (existing : list Row) : outcome bool :=
  match primaryKey metadata with
  | None => Ok true
  | Some pkColumn =>
      if negb (truthy_string pkColumn) then Ok true
      else
        let pkValue := get row pkColumn in
        if is_nullish pkValue
        then Throw ("Primary key '" ++ pkColumn ++ "' cannot be null")
        else match find_equal pkColumn pkValue existing with
             | Some _ =>
                 Throw ("Duplicate primary key value: " ++ ToString pkValue)
             | None => Ok true
             end
  end.

Fixpoint validateUniqueKeys_loop (keys : list string) (row : Row)
    (existing : list Row) : outcome bool :=
  match keys with
  | [] => Ok true
  | uniqueKey :: keys' =>
      let v := get row uniqueKey in
      if negb (is_nullish v)
      then match find_equal uniqueKey v existing with
           | Some _ =>
               Throw ("Duplicate unique key value for '" ++ uniqueKey
                        ++ "': " ++ ToString v)
           | None => validateUniqueKeys_loop keys' row existing
           end
      else validateUniqueKeys_loop keys' row existing
  end.

Definition validateUniqueKeys (row : Row) (existing : list Row) : outcome bool :=
  validateUniqueKeys_loop (uniqueKeys metadata) row existing.

Definition prepareRow (row : Row) : Row :=
  fold_left
    (fun preparedRow column =>
       let v := get row (name column) in
       if negb (strictEq v VUndefined)
       then set preparedRow (name column) (coerceType v (type column))
       else set preparedRow (name column) VNull)
    (columns metadata) [].

Definition insert (row : Row) : M Row :=
  let preparedRow := prepareRow row in
  let* existingRows := loadTableData table in
  lift (validateRow preparedRow) ;;
  lift (validatePrimaryKey preparedRow existingRows) ;;
  lift (validateUniqueKeys preparedRow existingRows) ;;
  insertRow table preparedRow.

Definition getAll : M (list Row) := loadTableData table.

(** The callback of [rows.map] in [update], row by row, with the counter
    [updatedCount]; [condition = None] is the absent condition. *)
Fixpoint update_rows (updates : Row) (condition : option (Row -> outcome bool))
    (rows : list Row) (updatedCount : nat) : outcome (list Row * nat) :=
  match rows with
  | [] => Ok ([], updatedCount)
  | row :: rows' =>
      let continue (hit : bool) :=
        if hit
        then match update_rows updates condition rows' (S updatedCount) with
             | Ok (l, n) => Ok (spread row updates :: l, n)
             | Throw msg => Throw msg
             end
        else match update_rows updates condition rows' updatedCount with
             | Ok (l, n) => Ok (row :: l, n)
             | Throw msg => Throw msg
             end in
      match condition with
      | None => continue true
      | Some cond =>
          match cond row with
          | Ok hit => continue hit
          | Throw msg => Throw msg
          end
      end
  end.

Definition update (updates : Row) (condition : option (Row -> outcome bool))
  : M nat :=
  let* rows := loadTableData table in
  let* res := lift (update_rows updates condition rows 0) in
  saveTableData table (fst res) ;;
  ret (snd res).

(** [rows.filter((row) => !condition(row))] *)
Fixpoint delete_filter (condition : Row -> outcome bool) (rows : list Row)
  : outcome (list Row) :=
  match rows with
  | [] => Ok []
  | row :: rows' =>
      match condition row with
      | Throw msg => Throw msg
      | Ok hit =>
          match delete_filter condition rows' with
          | Throw msg => Throw msg
          | Ok l => Ok (if negb hit then row :: l else l)
          end
      end
  end.

Definition deleteRows (condition : Row -> outcome bool) : M nat :=
  let* rows := loadTableData table in
  let* newRows := lift (delete_filter condition rows) in
  let deletedCount := (length rows - length newRows)%nat in
  saveTableData table newRows ;;
  ret deletedCount.

End Table.
End Engine.

Section IndexManager.
Context `{RT : Runtime}.

(* ===================================================================== *)
(** ** src/index/IndexManager.js                                         *)
(* ===================================================================== *)

(** The file name of an index inside the data directory. *)
Definition getIndexPath (t c : string) : string := t ++ "_" ++ c ++ ".idx.json".

(** The index file of a column as [fs.existsSync] and [fs.readFileSync]
    find it. *)
Definition indexFile (t c : string) (d : DB) : option IndexData :=
  match file_of (getIndexPath t c) with
  | Some p => indexFiles d !! p
  | None => None
  end.

(** [fs.writeFileSync(getIndexPath(t, c), JSON.stringify(indexData))] *)
Definition writeIndexFile (t c : string) (indexData : IndexData) : M unit :=
  match file_of (getIndexPath t c) with
  | Some p => modify (with_indexFiles (fun fs => <[p := indexData]> fs))
  | None => throw (open_error (getIndexPath t c))
  end.

(** [if (fs.existsSync(indexPath)) fs.unlinkSync(indexPath)] *)
Definition removeIndexFile (t c : string) : M unit :=
  match file_of (getIndexPath t c) with
  | Some p => modify (with_indexFiles (fun fs => delete p fs))
  | None => ret tt
  end.

Definition cacheKey (t c : string) : string := t ++ "." ++ c.

(** [index.has(v)], [index.get(v)] and [index.set(v, ps)] of a [Map]. *)
Fixpoint map_has (index : Index) (v : value) : bool :=
  match index with
  | [] => false
  | (k, _) :: index' => sameValueZero k v || map_has index' v
  end.

Fixpoint map_get (index : Index) (v : value) : option (list nat) :=
  match index with
  | [] => None
  | (k, ps) :: index' => if sameValueZero k v then Some ps else map_get index' v
  end.

Fixpoint map_set (index : Index) (v : value) (ps : list nat) : Index :=
  match index with
  | [] => [(v, ps)]
  | (k, ps') :: index' =>
      if sameValueZero k v then (k, ps) :: index'
      else (k, ps') :: map_set index' v ps
  end.

(** [index.get(v).push(i)] *)
Fixpoint map_push (index : Index) (v : value) (i : nat) : Index :=
  match index with
  | [] => []
  | (k, ps) :: index' =>
      if sameValueZero k v then (k, ps ++ [i])%list :: index'
      else (k, ps) :: map_push index' v i
  end.

(** The callback of [rows.forEach] in [buildIndex]. *)
Definition index_row (c : string) (index : Index) (row : Row) (rowIndex : nat)
  : Index :=
  let v := get row c in
  if negb (is_nullish v)
  then map_push (if negb (map_has index v) then map_set index v [] else index)
                v rowIndex
  else index.

Fixpoint index_rows (c : string) (index : Index) (rows : list Row)
    (rowIndex : nat) : Index :=
  match rows with
  | [] => index
  | row :: rows' => index_rows c (index_row c index row rowIndex) rows' (S rowIndex)
  end.

(** The [Map] that [buildIndex] fills. *)
Definition hashIndex (c : string) (rows : list Row) : Index :=
  index_rows c [] rows 0.

(** [JSON.parse(JSON.stringify(Array.from(index.entries())))]: the entries
    as the index file holds them. *)
Definition json_entries (index : Index) : list (value * list nat) :=
  map (fun e => (json_value (fst e), snd e)) index.

Definition buildIndex (t c : string) (rows : list Row) : M Index :=
  let index := hashIndex c rows in
  let* date := now in
  let indexData :=
    {| idx_tableName := t;
       idx_columnName := c;
       idx_entries := json_entries index;
       idx_createdAt := date |} in
  writeIndexFile t c indexData ;;
  modify (with_indexes (fun ix => <[cacheKey t c := index]> ix)) ;;
  ret index.

(** [new Map(indexData.entries)] *)
Definition map_of_entries (entries : list (value * list nat)) : Index :=
  fold_left (fun m e => map_set m (fst e) (snd e)) entries [].

(** [None] is the result [null]. *)
Definition loadIndex (t c : string) : M (option Index) :=
  let* cached := gets (fun d => indexes d !! cacheKey t c) in
  match cached with
  | Some index => ret (Some index)
  | None =>
      let* file := gets (indexFile t c) in
      match file with
      | None => ret None
      | Some indexData =>
          let index := map_of_entries (idx_entries indexData) in
          modify (with_indexes (fun ix => <[cacheKey t c := index]> ix)) ;;
          ret (Some index)
      end
  end.

Definition lookup (t c : string) (v : value) : M (option (list nat)) :=
  let* index := loadIndex t c in
  match index with
  | None => ret None
  | Some index =>
      ret (Some (match map_get index v with Some ps => ps | None => [] end))
  end.

Definition hasIndex (t c : string) : M bool :=
  gets (fun d => match indexFile t c d with
                 | Some _ => true | None => false end).

Definition dropIndex (t c : string) : M unit :=
  removeIndexFile t c ;;
  modify (with_indexes (fun ix => delete (cacheKey t c) ix)).

Definition rebuildIndex (t c : string) (rows : list Row) : M Index :=
  dropIndex t c ;;
  buildIndex t c rows.

(** [for (const k of keys) f(k)] *)
Fixpoint for_each {A} (keys : list A) (f : A -> M unit) : M unit :=
  match keys with
  | [] => ret tt
  | k :: keys' => f k ;; for_each keys' f
  end.

(** [if (metadata.primaryKey) f(metadata.primaryKey)] *)
Definition when_primaryKey (metadata : Metadata) (f : string -> M unit) : M unit :=
  match primaryKey metadata with
  | Some pk => if truthy_string pk then f pk else ret tt
  | None => ret tt
  end.

Definition createDefaultIndexes (t : string) (metadata : Metadata)
    (rows : list Row) : M unit :=
  when_primaryKey metadata (fun pk => buildIndex t pk rows ;; ret tt) ;;
  for_each (uniqueKeys metadata) (fun uniqueKey =>
    buildIndex t uniqueKey rows ;; ret tt).

End IndexManager.

(* ===================================================================== *)
(** ** Regular expressions, as the sources use them                     *)
(* ===================================================================== *)

(** A pattern is a backtracking matcher: given the input, the groups
    captured so far and what must match after it, it returns the first
    way to match, trying alternatives in the order the language does
    (a greedy run its longest first, a lazy run its shortest first, an
    optional part present first). *)
Definition Captures := list (nat * string).
Definition Matched := option (string * Captures).
Definition Re := string -> Captures -> (string -> Captures -> Matched) -> Matched.

Fixpoint capture (caps : Captures) (n : nat) : option string :=
  match caps with
  | [] => None
  | (i, s) :: caps' => if (i =? n)%nat then Some s else capture caps' n
  end.

(** A literal under the flag [i]. *)
Fixpoint strip_literal (lit s : string) : option string :=
  match lit, s with
  | EmptyString, _ => Some s
  | String a lit', String b s' =>
      if Ascii.eqb (upper_char a) (upper_char b) then strip_literal lit' s'
      else None
  | String _ _, EmptyString => None
  end.

Definition re_lit (lit : string) : Re :=
  fun s caps k =>
    match strip_literal lit s with
    | Some rest => k rest caps
    | None => None
    end.

Definition re_seq (a b : Re) : Re :=
  fun s caps k => a s caps (fun s' caps' => b s' caps' k).

(** [(?:a)?] *)
Definition re_opt (a : Re) : Re :=
  fun s caps k =>
    match a s caps k with
    | Some r => Some r
    | None => k s caps
    end.

(** [a|b] *)
Definition re_alt (a b : Re) : Re :=
  fun s caps k =>
    match a s caps k with
    | Some r => Some r
    | None => b s caps k
    end.

(** [$] *)
Definition re_end : Re :=
  fun s caps k =>
    match s with
    | EmptyString => k s caps
    | String _ _ => None
    end.

Fixpoint run_greedy (p : ascii -> bool) (s matched : string)
    (k : string -> string -> Matched) : Matched :=
  match s with
  | String c s' =>
      if p c
      then match run_greedy p s' (matched ++ String c EmptyString) k with
           | Some r => Some r
           | None => k matched s
           end
      else k matched s
  | EmptyString => k matched s
  end.

Fixpoint run_lazy (p : ascii -> bool) (s matched : string)
    (k : string -> string -> Matched) : Matched :=
  match k matched s with
  | Some r => Some r
  | None =>
      match s with
      | String c s' =>
          if p c then run_lazy p s' (matched ++ String c EmptyString) k
          else None
      | EmptyString => None
      end
  end.

(** A run of characters of the class [p]: [p*] or, with [plus], [p+];
    lazy when [greedy] is [false]; captured as group [n] under
    [group = Some n]. *)
Definition re_run (p : ascii -> bool) (plus greedy : bool) (group : option nat)
  : Re :=
  fun s caps k =>
    let k' matched rest :=
      if plus && negb (truthy_string matched) then None
      else k rest match group with
                  | Some n => (n, matched) :: caps
                  | None => caps
                  end in
    if greedy then run_greedy p s EmptyString k'
    else run_lazy p s EmptyString k'.

(** [.] matches all but line ends. *)
Definition is_dot (c : ascii) : bool :=
  negb ((nat_of_ascii c =? 10)%nat || (nat_of_ascii c =? 13)%nat).

Definition spaces1 : Re := re_run is_space true true None.     (* \s+ *)
Definition spaces0 : Re := re_run is_space false true None.    (* \s* *)
Definition word (n : nat) : Re := re_run is_word true true (Some n). (* (\w+) *)

Declare Scope re_scope.
Delimit Scope re_scope with re.
Notation "a ⋅ b" := (re_seq a b) (at level 41, right associativity) : re_scope.

(** A match at the head of the input: the unmatched rest and the groups. *)
Definition match_here (r : Re) (s : string) : Matched :=
  r s [] (fun rest caps => Some (rest, caps)).

(** [s.match(r)]: the groups of the leftmost match. *)
Fixpoint re_match (r : Re) (s : string) : option Captures :=
  match match_here r s with
  | Some (_, caps) => Some caps
  | None =>
      match s with
      | String _ s' => re_match r s'
      | EmptyString => None
      end
  end.

(** The text before the leftmost match and the text after it. *)
Fixpoint re_cut (r : Re) (s : string) : option (string * string) :=
  match match_here r s with
  | Some (rest, _) => Some (EmptyString, rest)
  | None =>
      match s with
      | String c s' =>
          match re_cut r s' with
          | Some (b, a) => Some (String c b, a)
          | None => None
          end
      | EmptyString => None
      end
  end.

(** [s.split(r)] for a pattern that matches no empty text. *)
Fixpoint re_split_fuel (fuel : nat) (r : Re) (s : string) : list string :=
  match fuel with
  | O => [s]
  | S fuel' =>
      match re_cut r s with
      | Some (b, a) => b :: re_split_fuel fuel' r a
      | None => [s]
      end
  end.

Definition re_split (r : Re) (s : string) : list string :=
  re_split_fuel (String.length s) r s.

(** [s.replace(/\s+/g, " ")]: [in_run] holds inside a run of spaces. *)
Fixpoint collapse_from (in_run : bool) (s : string) : string :=
  match s with
  | EmptyString => EmptyString
  | String c s' =>
      if is_space c
      then if in_run then collapse_from true s'
           else String " "%char (collapse_from true s')
      else String c (collapse_from false s')
  end.

Definition collapse_spaces (s : string) : string := collapse_from false s.

(* ===================================================================== *)
(** ** The parsed query                                                  *)
(* ===================================================================== *)

Section AST.
Context `{RT : Runtime}.

(** A condition is [{ column, operator, value }] or
    [{ type: "AND" | "OR", conditions }]. *)
#[warnings="-register-all"]
Inductive Condition :=
| Simple (column operator : string) (v : value)
| And (conditions : list Condition)
| Or (conditions : list Condition).

Record Join := {
  join_tableName : string;
  join_tableAlias : option string;
  join_on : string;
}.

Inductive Query :=
| CREATE_TABLE (t : string) (schema : Schema)
| INSERT (t : string) (row : Row)
| SELECT (cols : list string) (t : string) (tableAlias : option string)
         (join : option Join) (cond : option Condition)
| UPDATE (t : string) (updates : Row) (cond : option Condition)
| DELETE (t : string) (cond : option Condition)
| DROP_TABLE (t : string).

(** The object a statement returns; an absent property is [None].  A row
    of [rows] is [None] when it is [undefined]. *)
Record Result := {
  success : bool;
  message : option string;
  rows : option (list (option Row));
  count : option nat;
  row : option Row;
  table : option Metadata;
  error : option string;
}.

Definition no_result : Result :=
  {| success := true; message := None; rows := None; count := None;
     row := None; table := None; error := None |}.

End AST.

Section Database.
Context `{RT : Runtime}.

(* ===================================================================== *)
(** ** src/Database.js: tables and their indexes                         *)
(* ===================================================================== *)

(** [createTable], [getTable]: the table object is given by its name and
    the metadata it was created with. *)
Definition createTable (t : string) (schema : Schema) : M Metadata :=
  let* metadata := storage_createTable t schema in
  modify (with_tables (fun ts => <[t := metadata]> ts)) ;;
  createDefaultIndexes t metadata [] ;;
  ret metadata.

Definition getTable (t : string) : M Metadata :=
  let* cached := gets (fun d => tables d !! t) in
  match cached with
  | Some metadata => ret metadata
  | None =>
      let* metadata := getTableMetadata t in
      modify (with_tables (fun ts => <[t := metadata]> ts)) ;;
      ret metadata
  end.

Definition dropTable (t : string) : M unit :=
  let* metadata := getTableMetadata t in
  when_primaryKey metadata (fun pk => dropIndex t pk) ;;
  for_each (uniqueKeys metadata) (fun uniqueKey => dropIndex t uniqueKey) ;;
  storage_dropTable t ;;
  modify (with_tables (fun ts => delete t ts)).

Definition rebuildIndexes (t : string) : M unit :=
  let* metadata := getTableMetadata t in
  let* rows := loadTableData t in
  when_primaryKey metadata (fun pk => rebuildIndex t pk rows ;; ret tt) ;;
  for_each (uniqueKeys metadata) (fun uniqueKey =>
    rebuildIndex t uniqueKey rows ;; ret tt).

(* ===================================================================== *)
(** ** src/executor/QueryExecutor.js                                     *)
(* ===================================================================== *)

Definition string_of_nat (n : nat) : string :=
  NilEmpty.string_of_uint (Nat.to_uint n).

(** [rows.filter(f)] for a callback that may throw. *)
Fixpoint filter_throw {A} (f : A -> outcome bool) (l : list A) : outcome (list A) :=
  match l with
  | [] => Ok []
  | x :: l' =>
      match f x with
      | Throw msg => Throw msg
      | Ok keep =>
          match filter_throw f l' with
          | Throw msg => Throw msg
          | Ok r => Ok (if keep then x :: r else r)
          end
      end
  end.

Definition compare (operator : string) (v compareValue : value) : outcome bool :=
  if String.eqb operator "=" then Ok (looseEq v compareValue)
  else if String.eqb operator "!=" then Ok (negb (looseEq v compareValue))
  else if String.eqb operator ">" then Ok (js_gt v compareValue)
  else if String.eqb operator "<" then Ok (js_lt v compareValue)
  else if String.eqb operator ">=" then Ok (js_ge v compareValue)
  else if String.eqb operator "<=" then Ok (js_le v compareValue)
  else Throw ("Unknown operator: " ++ operator).

Fixpoint evaluateCondition (row : Row) (condition : Condition) : outcome bool :=
  match condition with
  | And conditions =>
      (fix every (l : list Condition) : outcome bool :=
         match l with
         | [] => Ok true
         | c :: l' =>
             match evaluateCondition row c with
             | Ok true => every l'
             | Ok false => Ok false
             | Throw msg => Throw msg
             end
         end) conditions
  | Or conditions =>
      (fix some (l : list Condition) : outcome bool :=
         match l with
         | [] => Ok false
         | c :: l' =>
             match evaluateCondition row c with
             | Ok true => Ok true
             | Ok false => some l'
             | Throw msg => Throw msg
             end
         end) conditions
  | Simple column operator compareValue =>
      compare operator (get row column) compareValue
  end.

(** The full table scan of [filterRows]. *)
Definition scanRows (rows : list Row) (whereClause : Condition)
  : outcome (list (option Row)) :=
  match filter_throw (fun row => evaluateCondition row whereClause) rows with
  | Ok l => Ok (map Some l)
  | Throw msg => Throw msg
  end.

(** The rows at the positions an index lookup returned; [rows[idx]] is
    [undefined] out of range. *)
Definition rowsAt (rows : list Row) (indices : list nat) : list (option Row) :=
  map (fun idx => rows !! idx) indices.

Definition filterRows (rows : list Row) (whereClause : Condition) (t : string)
  : M (list (option Row)) :=
  match whereClause with
  | Simple column operator v =>
      if truthy_string column && String.eqb operator "="
      then
        let* indices := lookup t column v in
        match indices with
        | Some indices => ret (rowsAt rows indices)
        | None => lift (scanRows rows whereClause)
        end
      else lift (scanRows rows whereClause)
  | _ => lift (scanRows rows whereClause)
  end.

(** [query.columns[0] !== "*"] *)
Definition projects (cols : list string) : bool :=
  match cols with
  | c :: _ => negb (String.eqb c "*")
  | [] => true
  end.

(** The callback of [rows.map] in [executeSelect]; reading a column of an
    [undefined] row is a [TypeError]. *)
Definition project_row (cols : list string) (r : option Row) : outcome (option Row) :=
  match r with
  | Some r =>
      Ok (Some (fold_left (fun projected col => set projected col (get r col))
                          cols []))
  | None =>
      match cols with
      | [] => Ok (Some [])
      | col :: _ =>
          Throw ("Cannot read properties of undefined (reading '" ++ col ++ "')")
      end
  end.

Fixpoint map_throw {A B} (f : A -> outcome B) (l : list A) : outcome (list B) :=
  match l with
  | [] => Ok []
  | x :: l' =>
      match f x with
      | Throw msg => Throw msg
      | Ok y =>
          match map_throw f l' with
          | Throw msg => Throw msg
          | Ok r => Ok (y :: r)
          end
      end
  end.

(** [on.match(/(\w+)\.(\w+)\s*=\s*(\w+)\.(\w+)/)] *)
Definition onPattern : Re :=
  (word 1 ⋅ re_lit "." ⋅ word 2 ⋅ spaces0 ⋅ re_lit "=" ⋅ spaces0
   ⋅ word 3 ⋅ re_lit "." ⋅ word 4)%re.

Definition onMatch (on : string) : option (string * string * string * string) :=
  match re_match onPattern on with
  | Some caps =>
      match capture caps 1, capture caps 2, capture caps 3, capture caps 4 with
      | Some leftAlias, Some leftCol, Some rightAlias, Some rightCol =>
          Some (leftAlias, leftCol, rightAlias, rightCol)
      | _, _, _, _ => None
      end
  | None => None
  end.

(** [alias || name.charAt(0)] *)
Definition alias_or_initial (alias : option string) (t : string) : string :=
  match alias with
  | Some a => if truthy_string a then a else charAt0 t
  | None => charAt0 t
  end.

(** The merged row of a pair of joined rows. *)
Definition prefix_entries (t : string) (r : Row) (joined : Row) : Row :=
  fold_left (fun joined kv => set joined (t ++ "." ++ fst kv) (snd kv)) r joined.

Definition joinRow (leftName rightName : string) (leftRow rightRow : Row) : Row :=
  prefix_entries rightName rightRow (prefix_entries leftName leftRow []).

(** The nested loop of [executeJoin]. *)
Definition nestedLoop (leftName rightName leftJoinCol rightJoinCol : string)
    (leftRows rightRows : list Row) : list Row :=
  flat_map (fun leftRow =>
    flat_map (fun rightRow =>
      if strictEq (get leftRow leftJoinCol) (get rightRow rightJoinCol)
      then [joinRow leftName rightName leftRow rightRow]
      else []) rightRows) leftRows.

(** The callback of [joinedRows.map] in [executeJoin]. *)
Definition project_joined (cols : list string) (r : Row) : Row :=
  fold_left
    (fun projected col =>
       if includes col "."
       then set projected col (get r col)
       else match find (fun k => endsWith k ("." ++ col)) (map fst r) with
            | Some matchingKey =>
                if truthy_string matchingKey
                then set projected col (get r matchingKey)
                else projected
            | None => projected
            end)
    cols [].

Definition executeJoin (cols : list string) (t : string)
    (tableAlias : option string) (join : Join) : M Result :=
  let* leftTable := getTable t in
  let* rightTable := getTable (join_tableName join) in
  let* leftRows := getAll t in
  let* rightRows := getAll (join_tableName join) in
  match onMatch (join_on join) with
  | None => throw "Invalid JOIN ON clause"
  | Some (leftAlias, leftCol, rightAlias, rightCol) =>
      let leftJoinCol :=
        if String.eqb leftAlias (alias_or_initial tableAlias t)
        then leftCol else rightCol in
      let rightJoinCol :=
        if String.eqb rightAlias
             (alias_or_initial (join_tableAlias join) (join_tableName join))
        then rightCol else leftCol in
      let joinedRows :=
        nestedLoop t (join_tableName join) leftJoinCol rightJoinCol
                   leftRows rightRows in
      let result :=
        if projects cols then map (project_joined cols) joinedRows
        else joinedRows in
      ret {| success := true; message := None;
             rows := Some (map Some result); count := Some (length result);
             row := None; table := None; error := None |}
  end.

Definition executeCreateTable (t : string) (schema : Schema) : M Result :=
  let* tbl := createTable t schema in
  ret {| success := true;
         message := Some ("Table '" ++ t ++ "' created successfully");
         rows := None; count := None; row := None; table := Some tbl;
         error := None |}.

Definition executeInsert (t : string) (r : Row) : M Result :=
  let* tbl := getTable t in
  let* inserted := insert tbl t r in
  rebuildIndexes t ;;
  ret {| success := true;
         message := Some ("Row inserted into '" ++ t ++ "'");
         rows := None; count := None; row := Some inserted; table := None;
         error := None |}.

Definition executeSelect (cols : list string) (t : string)
    (tableAlias : option string) (join : option Join)
    (cond : option Condition) : M Result :=
  match join with
  | Some j => executeJoin cols t tableAlias j
  | None =>
      let* tbl := getTable t in
      let* all := getAll t in
      let* filtered :=
        match cond with
        | Some whereClause => filterRows all whereClause t
        | None => ret (map Some all)
        end in
      let* projected :=
        if projects cols then lift (map_throw (project_row cols) filtered)
        else ret filtered in
      ret {| success := true; message := None;
             rows := Some projected; count := Some (length projected);
             row := None; table := None; error := None |}
  end.

Definition executeUpdate (t : string) (updates : Row)
    (cond : option Condition) : M Result :=
  let* tbl := getTable t in
  let condition :=
    match cond with
    | Some whereClause => Some (fun r => evaluateCondition r whereClause)
    | None => None
    end in
  let* n := update t updates condition in
  rebuildIndexes t ;;
  ret {| success := true;
         message := Some ("Updated " ++ string_of_nat n ++ " row(s)");
         rows := None; count := Some n; row := None; table := None;
         error := None |}.

Definition executeDelete (t : string) (cond : option Condition) : M Result :=
  let* tbl := getTable t in
  let condition :=
    match cond with
    | Some whereClause => fun r => evaluateCondition r whereClause
    | None => fun _ => Ok true
    end in
  let* n := deleteRows t condition in
  rebuildIndexes t ;;
  ret {| success := true;
         message := Some ("Deleted " ++ string_of_nat n ++ " row(s)");
         rows := None; count := Some n; row := None; table := None;
         error := None |}.

Definition executeDropTable (t : string) : M Result :=
  dropTable t ;;
  ret {| success := true;
         message := Some ("Table '" ++ t ++ "' dropped successfully");
         rows := None; count := None; row := None; table := None;
         error := None |}.

Definition execute (parsedQuery : Query) : M Result :=
  match parsedQuery with
  | CREATE_TABLE t schema => executeCreateTable t schema
  | INSERT t r => executeInsert t r
  | SELECT cols t tableAlias join cond => executeSelect cols t tableAlias join cond
  | UPDATE t updates cond => executeUpdate t updates cond
  | DELETE t cond => executeDelete t cond
  | DROP_TABLE t => executeDropTable t
  end.

End Database.

(* ===================================================================== *)
(** ** src/parser/SQLParser.js                                           *)
(* ===================================================================== *)

Definition dquote : string := String (ascii_of_nat 34) EmptyString.

Section Parser.
Context `{RT : Runtime}.

Definition parseValue (val : string) : value :=
  let val := trim val in
  if (startsWith val "'" && endsWith val "'")
     || (startsWith val dquote && endsWith val dquote)
  then VStr (slice_1_m1 val)
  else if String.eqb (toLowerCase val) "true" then VBool true
  else if String.eqb (toLowerCase val) "false" then VBool false
  else if String.eqb (toLowerCase val) "null" then VNull
  else if negb (num_isNaN (Number_of_string val))
  then if includes val "." then VNum (parseFloat_string val)
       else VNum (parseInt_string val)
  else VStr val.

(** [parseValue] of an array element that may be missing: [val.trim()] of
    [undefined] is a [TypeError]. *)
Definition parseValue_at (val : option string) : outcome value :=
  match val with
  | Some val => Ok (parseValue val)
  | None => Throw "Cannot read properties of undefined (reading 'trim')"
  end.

Definition operators : list string := [">="; "<="; "!="; "="; ">"; "<"].

Fixpoint parseSimpleCondition_loop (ops : list string) (condStr : string)
  : outcome Condition :=
  match ops with
  | [] => Throw ("Invalid condition: " ++ condStr)
  | op :: ops' =>
      if includes condStr op
      then
        let parts := map trim (split condStr op) in
        match parseValue_at (nth_error parts 1) with
        | Ok v => Ok (Simple (nth 0 parts EmptyString) op v)
        | Throw msg => Throw msg
        end
      else parseSimpleCondition_loop ops' condStr
  end.

Definition parseSimpleCondition (condStr : string) : outcome Condition :=
  parseSimpleCondition_loop operators condStr.

(** [/\s+AND\s+/i] and [/\s+OR\s+/i] *)
Definition andPattern : Re := (spaces1 ⋅ re_lit "AND" ⋅ spaces1)%re.
Definition orPattern : Re := (spaces1 ⋅ re_lit "OR" ⋅ spaces1)%re.

Definition parseWhereClause (whereStr : string) : outcome Condition :=
  if includes (toUpperCase whereStr) " AND " then
    match map_throw (fun p => parseSimpleCondition (trim p))
                    (re_split andPattern whereStr) with
    | Ok conditions => Ok (And conditions)
    | Throw msg => Throw msg
    end
  else if includes (toUpperCase whereStr) " OR " then
    match map_throw (fun p => parseSimpleCondition (trim p))
                    (re_split orPattern whereStr) with
    | Ok conditions => Ok (Or conditions)
    | Throw msg => Throw msg
    end
  else parseSimpleCondition whereStr.

(** The loop of [parseValues]; [stringChar = None] is [null]. *)
Fixpoint parseValues_loop (s : string) (values : list value) (current : string)
    (inString : bool) (stringChar : option ascii) : list value :=
  match s with
  | EmptyString =>
      if truthy_string current then (values ++ [parseValue (trim current)])%list
      else values
  | String char s' =>
      let one := String char EmptyString in
      if (Ascii.eqb char "'"%char || Ascii.eqb char (ascii_of_nat 34))
         && negb inString
      then parseValues_loop s' values (current ++ one) true (Some char)
      else if match stringChar with
              | Some q => Ascii.eqb char q
              | None => false
              end && inString
      then parseValues_loop s' values (current ++ one) false stringChar
      else if Ascii.eqb char ","%char && negb inString
      then parseValues_loop s' (values ++ [parseValue (trim current)])%list
                            EmptyString inString stringChar
      else parseValues_loop s' values (current ++ one) inString stringChar
  end.

Definition parseValues (valuesStr : string) : list value :=
  parseValues_loop valuesStr [] EmptyString false None.

(** The loop of [splitByComma]. *)
Fixpoint splitByComma_loop (s : string) (parts : list string) (current : string)
    (depth : Z) : list string :=
  match s with
  | EmptyString =>
      if truthy_string current then (parts ++ [trim current])%list else parts
  | String char s' =>
      let depth := if Ascii.eqb char "("%char then depth + 1 else depth in
      let depth := if Ascii.eqb char ")"%char then depth - 1 else depth in
      if Ascii.eqb char ","%char && (depth =? 0)
      then splitByComma_loop s' (parts ++ [trim current])%list EmptyString depth
      else splitByComma_loop s' parts (current ++ String char EmptyString) depth
  end.

Definition splitByComma (str : string) : list string :=
  splitByComma_loop str [] EmptyString 0.

(** [/CREATE TABLE\s+(\w+)\s*\(G\)/i], where the group [G] is a greedy run
    of any characters. *)
Definition createTablePattern : Re :=
  (re_lit "CREATE TABLE" ⋅ spaces1 ⋅ word 1 ⋅ spaces0 ⋅ re_lit "("
   ⋅ re_run is_dot false true (Some 2%nat) ⋅ re_lit ")")%re.

(** The body of the loop over the column definitions. *)
Definition parseColumn (acc : list Column * option string * list string)
    (colDef : string) : list Column * option string * list string :=
  let '(cols, primaryKey, uniqueKeys) := acc in
  let parts := re_split spaces1 (trim colDef) in
  let columnName := nth 0 parts EmptyString in
  let columnType :=
    match nth_error parts 1 with
    | Some ty => if truthy_string ty then ty else "TEXT"
    | None => "TEXT"
    end in
  let upperDef := toUpperCase colDef in
  let isPk := includes upperDef "PRIMARY KEY" in
  let isUnique := includes upperDef "UNIQUE" in
  let constraints :=
    ((if isPk then ["PRIMARY_KEY"; "NOT_NULL"] else [])
     ++ (if isUnique then ["UNIQUE"] else [])
     ++ (if includes upperDef "NOT NULL" then ["NOT_NULL"] else []))%list in
  ((cols ++ [{| name := columnName; type := columnType;
                constraints := constraints |}])%list,
   (if isPk then Some columnName else primaryKey),
   (if isUnique then (uniqueKeys ++ [columnName])%list else uniqueKeys)).

Definition parseCreateTable (sql : string) : outcome Query :=
  match re_match createTablePattern sql with
  | None => Throw "Invalid CREATE TABLE syntax"
  | Some caps =>
      match capture caps 1, capture caps 2 with
      | Some t, Some columnsStr =>
          let '(cols, primaryKey, uniqueKeys) :=
            fold_left parseColumn (splitByComma columnsStr) ([], None, []) in
          Ok (CREATE_TABLE t {| schema_columns := cols;
                                schema_primaryKey := primaryKey;
                                schema_uniqueKeys := uniqueKeys |})
      | _, _ => Throw "Invalid CREATE TABLE syntax"
      end
  end.

(** [/INSERT INTO\s+(\w+)\s*\((.*?)\)\s*VALUES\s*\((.*?)\)/i] *)
Definition insertPattern : Re :=
  (re_lit "INSERT INTO" ⋅ spaces1 ⋅ word 1 ⋅ spaces0 ⋅ re_lit "("
   ⋅ re_run is_dot false false (Some 2%nat) ⋅ re_lit ")" ⋅ spaces0
   ⋅ re_lit "VALUES" ⋅ spaces0 ⋅ re_lit "("
   ⋅ re_run is_dot false false (Some 3%nat) ⋅ re_lit ")")%re.

(** [columns.forEach((col, idx) => { row[col] = values[idx]; })] *)
Fixpoint pair_columns (cols : list string) (values : list value) (idx : nat)
    (r : Row) : Row :=
  match cols with
  | [] => r
  | col :: cols' =>
      pair_columns cols' values (S idx)
                   (set r col (nth idx values VUndefined))
  end.

Definition parseInsert (sql : string) : outcome Query :=
  match re_match insertPattern sql with
  | None => Throw "Invalid INSERT syntax"
  | Some caps =>
      match capture caps 1, capture caps 2, capture caps 3 with
      | Some t, Some columnsStr, Some valuesStr =>
          let cols := map trim (split columnsStr ",") in
          let values := parseValues valuesStr in
          Ok (INSERT t (pair_columns cols values 0 []))
      | _, _, _ => Throw "Invalid INSERT syntax"
      end
  end.

(** [/SELECT\s+(.*?)\s+FROM/i], [/FROM\s+(\w+)(?:\s+(\w+))?/i],
    [/JOIN\s+(\w+)(?:\s+(\w+))?\s+ON\s+(.*?)(?:\s+WHERE|$)/i] and
    [/WHERE\s+(.+?)$/i] *)
Definition selectPattern : Re :=
  (re_lit "SELECT" ⋅ spaces1 ⋅ re_run is_dot false false (Some 1%nat)
   ⋅ spaces1 ⋅ re_lit "FROM")%re.

Definition fromPattern : Re :=
  (re_lit "FROM" ⋅ spaces1 ⋅ word 1 ⋅ re_opt (spaces1 ⋅ word 2))%re.

Definition joinPattern : Re :=
  (re_lit "JOIN" ⋅ spaces1 ⋅ word 1 ⋅ re_opt (spaces1 ⋅ word 2)
   ⋅ spaces1 ⋅ re_lit "ON" ⋅ spaces1 ⋅ re_run is_dot false false (Some 3%nat)
   ⋅ re_alt (spaces1 ⋅ re_lit "WHERE") re_end)%re.

Definition wherePattern : Re :=
  (re_lit "WHERE" ⋅ spaces1 ⋅ re_run is_dot true false (Some 1%nat) ⋅ re_end)%re.

(** [m[i] || null] *)
Definition or_null (s : option string) : option string :=
  match s with
  | Some x => if truthy_string x then Some x else None
  | None => None
  end.

Definition parseSelect (sql : string) : outcome Query :=
  match re_match selectPattern sql with
  | None => Throw "Invalid SELECT syntax"
  | Some selectMatch =>
      let columnsStr :=
        trim (match capture selectMatch 1 with
              | Some c => c | None => EmptyString end) in
      let cols :=
        if String.eqb columnsStr "*" then ["*"]
        else map trim (split columnsStr ",") in
      match re_match fromPattern sql with
      | None => Throw "Invalid FROM clause"
      | Some fromMatch =>
          let t := match capture fromMatch 1 with
                   | Some t => t | None => EmptyString end in
          let tableAlias := or_null (capture fromMatch 2) in
          let join :=
            match re_match joinPattern sql with
            | Some joinMatch =>
                Some {| join_tableName :=
                          match capture joinMatch 1 with
                          | Some j => j | None => EmptyString end;
                        join_tableAlias := or_null (capture joinMatch 2);
                        join_on :=
                          trim (match capture joinMatch 3 with
                                | Some o => o | None => EmptyString end) |}
            | None => None
            end in
          match re_match wherePattern sql with
          | Some whereMatch =>
              match parseWhereClause
                      (trim (match capture whereMatch 1 with
                             | Some w => w | None => EmptyString end)) with
              | Ok cond => Ok (SELECT cols t tableAlias join (Some cond))
              | Throw msg => Throw msg
              end
          | None => Ok (SELECT cols t tableAlias join None)
          end
      end
  end.

(** [/UPDATE\s+(\w+)\s+SET\s+(.*?)(?:\s+WHERE\s+(.+))?$/i] *)
Definition updatePattern : Re :=
  (re_lit "UPDATE" ⋅ spaces1 ⋅ word 1 ⋅ spaces1 ⋅ re_lit "SET" ⋅ spaces1
   ⋅ re_run is_dot false false (Some 2%nat)
   ⋅ re_opt (spaces1 ⋅ re_lit "WHERE" ⋅ spaces1
             ⋅ re_run is_dot true true (Some 3%nat))
   ⋅ re_end)%re.

(** The loop over the pairs of the SET clause. *)
Fixpoint parseSet (setPairs : list string) (updates : Row) : outcome Row :=
  match setPairs with
  | [] => Ok updates
  | setPair :: setPairs' =>
      let parts := map trim (split setPair "=") in
      match parseValue_at (nth_error parts 1) with
      | Ok v => parseSet setPairs' (set updates (nth 0 parts EmptyString) v)
      | Throw msg => Throw msg
      end
  end.

(** [clause ? parseWhereClause(clause) : null] *)
Definition parseOptionalWhere (clause : option string) : outcome (option Condition) :=
  match or_null clause with
  | Some whereClause =>
      match parseWhereClause whereClause with
      | Ok cond => Ok (Some cond)
      | Throw msg => Throw msg
      end
  | None => Ok None
  end.

Definition parseUpdate (sql : string) : outcome Query :=
  match re_match updatePattern sql with
  | None => Throw "Invalid UPDATE syntax"
  | Some caps =>
      match capture caps 1, capture caps 2 with
      | Some t, Some setClause =>
          match parseSet (split setClause ",") [] with
          | Throw msg => Throw msg
          | Ok updates =>
              match parseOptionalWhere (capture caps 3) with
              | Ok cond => Ok (UPDATE t updates cond)
              | Throw msg => Throw msg
              end
          end
      | _, _ => Throw "Invalid UPDATE syntax"
      end
  end.

(** [/DELETE FROM\s+(\w+)(?:\s+WHERE\s+(.+))?$/i] *)
Definition deletePattern : Re :=
  (re_lit "DELETE FROM" ⋅ spaces1 ⋅ word 1
   ⋅ re_opt (spaces1 ⋅ re_lit "WHERE" ⋅ spaces1
             ⋅ re_run is_dot true true (Some 2%nat))
   ⋅ re_end)%re.

Definition parseDelete (sql : string) : outcome Query :=
  match re_match deletePattern sql with
  | None => Throw "Invalid DELETE syntax"
  | Some caps =>
      match capture caps 1 with
      | Some t =>
          match parseOptionalWhere (capture caps 2) with
          | Ok cond => Ok (DELETE t cond)
          | Throw msg => Throw msg
          end
      | None => Throw "Invalid DELETE syntax"
      end
  end.

(** [/DROP TABLE\s+(\w+)/i] *)
Definition dropTablePattern : Re :=
  (re_lit "DROP TABLE" ⋅ spaces1 ⋅ word 1)%re.

Definition parseDropTable (sql : string) : outcome Query :=
  match re_match dropTablePattern sql with
  | Some caps =>
      match capture caps 1 with
      | Some t => Ok (DROP_TABLE t)
      | None => Throw "Invalid DROP TABLE syntax"
      end
  | None => Throw "Invalid DROP TABLE syntax"
  end.

Definition parse (sql : string) : outcome Query :=
  let sql := collapse_spaces (trim sql) in
  let upperSQL := toUpperCase sql in
  if startsWith upperSQL "CREATE TABLE" then parseCreateTable sql
  else if startsWith upperSQL "INSERT INTO" then parseInsert sql
  else if startsWith upperSQL "SELECT" then parseSelect sql
  else if startsWith upperSQL "UPDATE" then parseUpdate sql
  else if startsWith upperSQL "DELETE FROM" then parseDelete sql
  else if startsWith upperSQL "DROP TABLE" then parseDropTable sql
  else Throw ("Unsupported SQL command: " ++ String.substring 0 20 sql ++ "...").

(* ===================================================================== *)
(** ** src/Database.js: [query]                                          *)
(* ===================================================================== *)

Definition failure (msg : string) : Result :=
  {| success := false; message := None; rows := None; count := None;
     row := None; table := None; error := Some msg |}.

(** The body of the [try] block of [query]. *)
Definition parse_execute (sql : string) : M Result :=
  let* parsedQuery := lift (parse sql) in
  execute parsedQuery.

(** [try { ... } catch (error) { return { success: false, error: error.message } }] *)
Definition query (sql : string) (d : DB) : Result * DB :=
  match parse_execute sql d with
  | (Ok result, d') => (result, d')
  | (Throw msg, d') => (failure msg, d')
  end.

Definition emptyDB (c : Clock) : DB :=
  {| storage := ∅; indexFiles := ∅; indexes := ∅; tables := ∅; clock := c |}.

End Parser.

(* ===================================================================== *)
(** ** A runtime of decimal numbers                                      *)
(* ===================================================================== *)

(** [DFin m k] is the number m / 10^k, with [k = 0] or [m] not a multiple
    of ten.  The runtime computes without rounding; it agrees with the
    language on the decimal literals whose value a double holds exactly and
    prints in positional notation. *)
Inductive dec :=
| DNaN
| DInf (negative : bool)
| DFin (m : Z) (k : nat).

Fixpoint dec_norm (m : Z) (k : nat) : dec :=
  match k with
  | O => DFin m 0
  | S k' => if (m mod 10 =? 0) then dec_norm (m / 10) k' else DFin m k
  end.

Definition dec_eqb (a b : dec) : bool :=
  match a, b with
  | DInf x, DInf y => Bool.eqb x y
  | DFin m k, DFin m' k' => (m =? m') && (k =? k')%nat
  | _, _ => false
  end.

Definition dec_ltb (a b : dec) : bool :=
  match a, b with
  | DNaN, _ | _, DNaN => false
  | DInf true, DInf true => false
  | DInf true, _ => true
  | _, DInf true => false
  | DInf false, _ => false
  | _, DInf false => true
  | DFin m k, DFin m' k' => (m * 10 ^ Z.of_nat k' <? m' * 10 ^ Z.of_nat k)
  end.

Definition dec_isNaN (a : dec) : bool :=
  match a with DNaN => true | _ => false end.

Definition dec_isInteger (a : dec) : bool :=
  match a with DFin _ O => true | _ => false end.

Definition dec_json (a : dec) : option dec :=
  match a with DFin _ _ => Some a | _ => None end.

(** The digits at the head of a string: their value, their number and the
    rest of the string. *)
Fixpoint take_digits (s : string) (acc : Z) (n : nat) : Z * nat * string :=
  match s with
  | String c s' =>
      if is_digit c
      then take_digits s' (acc * 10 + Z.of_nat (nat_of_ascii c - 48)) (S n)
      else (acc, n, s)
  | EmptyString => (acc, n, EmptyString)
  end.

(** An exponent part [e[+-]digits] at the head of a string, when complete. *)
Definition take_exponent (s : string) : Z * string :=
  match s with
  | String c s' =>
      if (nat_of_ascii c =? 101)%nat || (nat_of_ascii c =? 69)%nat then
        let '(neg, s'') :=
          match s' with
          | String "-"%char r => (true, r)
          | String "+"%char r => (false, r)
          | _ => (false, s')
          end in
        let '(e, n, rest) := take_digits s'' 0 0 in
        if (n =? 0)%nat then (0, s) else (if neg then - e else e, rest)
      else (0, s)
  | EmptyString => (0, s)
  end.

Definition dec_scale (m : Z) (k : nat) (e : Z) : dec :=
  if (Z.of_nat k <=? e) then DFin (m * 10 ^ (e - Z.of_nat k)) 0
  else dec_norm m (Z.to_nat (Z.of_nat k - e)).

(** The longest unsigned decimal literal at the head of a string. *)
Definition take_unsigned (s : string) : option (dec * string) :=
  if String.prefix "Infinity" s then Some (DInf false, drop_string 8 s)
  else
    let '(i, ni, r1) := take_digits s 0 0 in
    let '(f, nf, r2) :=
      match r1 with
      | String "."%char r =>
          let '(f, nf, r') := take_digits r 0 0 in
          if (ni =? 0)%nat && (nf =? 0)%nat then (0, O, r1) else (f, nf, r')
      | _ => (0, O, r1)
      end in
    if (ni =? 0)%nat && (nf =? 0)%nat then None
    else
      let '(e, r3) := take_exponent r2 in
      Some (dec_scale (i * 10 ^ Z.of_nat nf + f) nf e, r3).

Definition dec_neg (a : dec) : dec :=
  match a with
  | DNaN => DNaN
  | DInf b => DInf (negb b)
  | DFin m k => DFin (- m) k
  end.

Definition take_signed (s : string) : option (dec * string) :=
  match s with
  | String "-"%char r =>
      match take_unsigned r with
      | Some (a, rest) => Some (dec_neg a, rest)
      | None => None
      end
  | String "+"%char r => take_unsigned r
  | _ => take_unsigned s
  end.

Definition dec_parseFloat (s : string) : dec :=
  match take_signed (trimStart s) with
  | Some (a, _) => a
  | None => DNaN
  end.

Definition dec_parseInt (s : string) : dec :=
  let t := trimStart s in
  let '(neg, r) :=
    match t with
    | String "-"%char r => (true, r)
    | String "+"%char r => (false, r)
    | _ => (false, t)
    end in
  let '(i, n, _) := take_digits r 0 0 in
  if (n =? 0)%nat then DNaN else DFin (if neg then - i else i) 0.

(** [Number(s)] for decimal literals (literals in another base are not
    read). *)
Definition dec_Number (s : string) : dec :=
  let t := trim s in
  if String.eqb t EmptyString then DFin 0 0
  else match take_signed t with
       | Some (a, EmptyString) => a
       | _ => DNaN
       end.

Fixpoint zeros (n : nat) : string :=
  match n with O => EmptyString | S n' => String "0"%char (zeros n') end.

Definition dec_String (a : dec) : string :=
  match a with
  | DNaN => "NaN"
  | DInf false => "Infinity"
  | DInf true => "-Infinity"
  | DFin m k =>
      let ds := NilEmpty.string_of_uint (N.to_uint (Z.abs_N m)) in
      let ds := if String.eqb ds EmptyString then "0" else ds in
      let sign := if (m <? 0) then "-" else EmptyString in
      match k with
      | O => sign ++ ds
      | S _ =>
          let padded := zeros (S k - String.length ds) ++ ds in
          let n := (String.length padded - k)%nat in
          sign ++ String.substring 0 n padded ++ "." ++ drop_string n padded
      end
  end.

Lemma dec_eqb_eq a b : dec_eqb a b = true -> a = b.
Proof.
  destruct a as [|x|m k], b as [|y|m' k']; simpl; try discriminate.
  - intros H. apply Bool.eqb_prop in H. now subst.
  - intros H. apply andb_prop in H as [H1 H2].
    apply Z.eqb_eq in H1. apply Nat.eqb_eq in H2. now subst.
Qed.

Lemma dec_eqb_diag a : dec_eqb a a = negb (dec_isNaN a).
Proof.
  destruct a as [|x|m k]; simpl; trivial.
  - apply Bool.eqb_reflx.
  - now rewrite Z.eqb_refl, Nat.eqb_refl.
Qed.

Lemma dec_eqb_sym a b : dec_eqb a b = dec_eqb b a.
Proof.
  destruct a as [|x|m k], b as [|y|m' k']; simpl; trivial.
  - now destruct x, y.
  - now rewrite Z.eqb_sym, (Nat.eqb_sym k).
Qed.

Lemma dec_eqb_trans a b c :
  dec_eqb a b = true -> dec_eqb b c = true -> dec_eqb a c = true.
Proof. intros H1 H2. apply dec_eqb_eq in H1. now subst. Qed.

Lemma dec_json_eqb n m : dec_json n = Some m -> dec_eqb m n = true.
Proof.
  destruct n; simpl; try discriminate.
  intros [= <-]. now rewrite dec_eqb_diag.
Qed.

Lemma dec_json_idem n m : dec_json n = Some m -> dec_json m = Some m.
Proof. destruct n; simpl; try discriminate. now intros [= <-]. Qed.

(** [path.join] part by part: an empty part and [.] are dropped, and [..]
    takes back the part before it, or stays when there is none. *)
Fixpoint normalize_parts (parts kept : list string) : list string :=
  match parts with
  | [] => rev kept
  | part :: parts' =>
      if String.eqb part "" || String.eqb part "." then
        normalize_parts parts' kept
      else if String.eqb part ".." then
        match kept with
        | [] => normalize_parts parts' [part]
        | before :: kept' =>
            if String.eqb before ".." then normalize_parts parts' (part :: kept)
            else normalize_parts parts' kept'
        end
      else normalize_parts parts' (part :: kept)
  end.

(** [path.join("./data", name)] *)
Definition data_path (name : string) : list string :=
  normalize_parts ("data" :: split name "/") [].

(** A data directory [./data] that holds no directory, with nothing
    outside it that can be opened: a name denotes a file when [path.join]
    leaves a single part of it under [data]. *)
Definition data_file_of (name : string) : option string :=
  match data_path name with
  | [dir; file] => if String.eqb dir "data" then Some file else None
  | _ => None
  end.

Definition data_open_error (name : string) : string :=
  "ENOENT: no such file or directory, open '" ++ join "/" (data_path name)
  ++ "'".

Definition DecRuntime : Runtime := {|
  number := dec;
  num_eqb := dec_eqb;
  num_ltb := dec_ltb;
  num_isNaN := dec_isNaN;
  num_NaN := DNaN;
  num_zero := DFin 0 0;
  num_one := DFin 1 0;
  num_isInteger := dec_isInteger;
  Number_of_string := dec_Number;
  String_of_number := dec_String;
  parseInt_string := dec_parseInt;
  parseFloat_string := dec_parseFloat;
  num_json := dec_json;
  file_of := data_file_of;
  open_error := data_open_error;
  num_eqb_diag := dec_eqb_diag;
  num_eqb_sym := dec_eqb_sym;
  num_eqb_trans := dec_eqb_trans;
  num_json_eqb := dec_json_eqb;
  num_json_idem := dec_json_idem;
|}.

(* ===================================================================== *)
(** * Properties                                                         *)
(* ===================================================================== *)

(** ** Running statements *)

Section Running.
Context `{RT : Runtime}.

Lemma bind_Ok_inv {A B} (m : M A) (k : A -> M B) d b d' :
  bind m k d = (Ok b, d') ->
  exists a d1, m d = (Ok a, d1) /\ k a d1 = (Ok b, d').
Proof.
  unfold bind. destruct (m d) as [[a|msg] d1]; intros H.
  - exists a, d1. split; [reflexivity | exact H].
  - discriminate H.
Qed.

Lemma bind_Ok {A B} (m : M A) (k : A -> M B) d a d1 :
  m d = (Ok a, d1) -> bind m k d = k a d1.
Proof. intros H. unfold bind. now rewrite H. Qed.

Lemma bind_Throw {A B} (m : M A) (k : A -> M B) d msg d1 :
  m d = (Throw msg, d1) -> bind m k d = (Throw msg, d1).
Proof. intros H. unfold bind. now rewrite H. Qed.

Lemma ret_inv {A} (a b : A) d d' : ret a d = (Ok b, d') -> a = b /\ d = d'.
Proof. unfold ret. intros [= -> ->]. now split. Qed.

End Running.

(** [monad_inv] splits the successful runs of sequences of statements
    among the hypotheses into the runs of their steps. *)
Ltac monad_inv_step :=
  match goal with
  | H : bind _ _ _ = (Ok _, _) |- _ =>
      apply bind_Ok_inv in H as (? & ? & ? & H)
  | H : ret _ _ = (Ok _, _) |- _ => apply ret_inv in H as [? ?]
  | H : throw _ _ = (Ok _, _) |- _ => discriminate H
  end.
Ltac monad_inv := repeat monad_inv_step.

(** ** The fields of a successful result (C5, C6) *)

Section Results.
Context `{RT : Runtime}.

(** Which of [rows], [count], [message], [row] and [table] a result holds. *)
Definition populated (r : Result) : bool * bool * bool * bool * bool :=
  (match rows r with Some _ => true | None => false end,
   match count r with Some _ => true | None => false end,
   match message r with Some _ => true | None => false end,
   match row r with Some _ => true | None => false end,
   match table r with Some _ => true | None => false end).

(** The fields each kind of statement fills. *)
Definition shape (q : Query) : bool * bool * bool * bool * bool :=
  match q with
  | SELECT _ _ _ _ _ => (true, true, false, false, false)
  | UPDATE _ _ _ | DELETE _ _ => (false, true, true, false, false)
  | INSERT _ _ => (false, false, true, true, false)
  | CREATE_TABLE _ _ => (false, false, true, false, true)
  | DROP_TABLE _ => (false, false, true, false, false)
  end.

Lemma executeJoin_result cols t a j d r d' :
  executeJoin cols t a j d = (Ok r, d') ->
  success r = true /\ error r = None /\
  populated r = (true, true, false, false, false).
Proof.
  unfold executeJoin. intros H. monad_inv.
  destruct (onMatch (join_on j)) as [[[[la lc] ra] rc]|]; monad_inv.
  subst r. now repeat split.
Qed.

Lemma execute_result q d r d' :
  execute q d = (Ok r, d') ->
  success r = true /\ error r = None /\ populated r = shape q.
Proof.
  destruct q as [t schema|t r0|cols t a j c|t u c|t c|t]; simpl; intros H.
  - unfold executeCreateTable in H. monad_inv. subst r. now repeat split.
  - unfold executeInsert in H. monad_inv. subst r. now repeat split.
  - unfold executeSelect in H. destruct j as [j|].
    + now apply executeJoin_result in H.
    + monad_inv. subst r. now repeat split.
  - unfold executeUpdate in H. monad_inv. subst r. now repeat split.
  - unfold executeDelete in H. monad_inv. subst r. now repeat split.
  - unfold executeDropTable in H. monad_inv. subst r. now repeat split.
Qed.

End Results.

Section QueryBoundary.
Context `{RT : Runtime}.

(** C5: [query] is a total function into result objects, so no exception
    passes its boundary.  When [parse] throws, or [execute] throws on the
    parsed statement, the result is [{ success: false, error: message }]
    with the message of the error; otherwise it is the result of
    [execute], whose [success] is [true]. *)
Theorem query_never_raises (sql : string) (d : DB) :
  match parse sql with
  | Throw msg =>
      query sql d =
      ({| success := false; message := None; rows := None; count := None;
          row := None; table := None; error := Some msg |}, d)
  | Ok parsedQuery =>
      match execute parsedQuery d with
      | (Throw msg, d') =>
          query sql d =
          ({| success := false; message := None; rows := None; count := None;
              row := None; table := None; error := Some msg |}, d')
      | (Ok result, d') =>
          query sql d = (result, d') /\ success result = true
          /\ error result = None
      end
  end.
Proof.
  unfold query, parse_execute, bind, lift.
  destruct (parse sql) as [q|msg]; [|reflexivity].
  destruct (execute q d) as [[r|msg] d'] eqn:E; [|reflexivity].
  apply execute_result in E as (Hs & He & _). now repeat split.
Qed.

(** C6, as the code has it: the fields of a successful result depend on
    the kind of the statement only.  A SELECT fills [rows] and [count]; an
    UPDATE or a DELETE fills [message] and [count]; an INSERT fills
    [message] and [row]; CREATE TABLE fills [message] and [table]; DROP
    TABLE fills [message] alone. *)
Theorem result_fields_by_kind (sql : string) (d d' : DB) (q : Query)
    (result : Result) :
  parse sql = Ok q ->
  execute q d = (Ok result, d') ->
  query sql d = (result, d') /\ success result = true /\
  populated result = shape q.
Proof.
  intros Hp He. unfold query, parse_execute, bind, lift. rewrite Hp, He.
  apply execute_result in He as (Hs & _ & Hf). now repeat split.
Qed.

End QueryBoundary.

(** ** Evaluation on the runtime of decimal numbers *)

Definition clock0 : Clock :=
  {| reading := fun _ => "2026-01-10T00:00:00.000Z"; tick := 0 |}.

(** The state after a sequence of statements. *)
Definition after {RT : Runtime} (sqls : list string) (d : DB) : DB :=
  fold_left (fun d sql => snd (query sql d)) sqls d.

Section Examples.
#[local] Existing Instance DecRuntime.

Definition db_t : DB :=
  after ["CREATE TABLE t (id INTEGER PRIMARY KEY, name TEXT)";
         "INSERT INTO t (id, name) VALUES (1, 'a')"] (emptyDB clock0).

(** C6, as stated, fails: the result of a SELECT holds both [rows] and
    [count], and the result of an UPDATE both [count] and [message]. *)
Lemma select_fills_rows_and_count :
  let r := fst (query "SELECT * FROM t" db_t) in
  let u := fst (query "UPDATE t SET name = 'b'" db_t) in
  success r = true
  /\ rows r = Some [Some [("id", VNum (DFin 1 0)); ("name", VStr "a")]]
  /\ count r = Some 1%nat
  /\ success u = true /\ count u = Some 1%nat
  /\ message u = Some "Updated 1 row(s)".
Proof. intros r u. repeat split; reflexivity. Qed.

Lemma result_fields_by_kind_witness :
  populated (fst (query "SELECT * FROM t" db_t))
  = (true, true, false, false, false).
Proof.
  pose (q := SELECT ["*"] "t" None None None).
  pose (res := {| success := true; message := None;
                  rows := Some [Some [("id", VNum (DFin 1 0));
                                      ("name", VStr "a")]];
                  count := Some 1%nat; row := None; table := None;
                  error := None |}).
  assert (Hp : parse "SELECT * FROM t" = Ok q) by reflexivity.
  assert (Hf : fst (execute q db_t) = Ok res) by reflexivity.
  assert (He : execute q db_t = (Ok res, snd (execute q db_t))).
  { rewrite <- Hf. apply surjective_pairing. }
  destruct (result_fields_by_kind (RT := DecRuntime) _ _ _ _ _ Hp He)
    as (Hq & _ & Hs).
  rewrite Hq. exact Hs.
Defined.

End Examples.

(** ** Strings: occurrences of a pattern *)

Lemma append_cons (a : ascii) (p r : string) :
  String a p ++ r = String a (p ++ r).
Proof. reflexivity. Qed.

Lemma append_nil (r : string) : EmptyString ++ r = r.
Proof. reflexivity. Qed.

Lemma prefix_drop (p s : string) :
  String.prefix p s = true -> s = p ++ drop_string (String.length p) s.
Proof.
  revert s. induction p as [|a p IH]; intros [|b s]; simpl; try discriminate;
    try reflexivity.
  destruct (ascii_dec a b) as [->|]; [|discriminate].
  intros H. rewrite append_cons. f_equal. now apply IH.
Qed.

Lemma prefix_nonempty (p s : string) :
  p <> EmptyString -> String.prefix p s = true ->
  (1 <= String.length s)%nat.
Proof.
  destruct p as [|a p]; [congruence|]. destruct s; simpl; [discriminate|lia].
Qed.

Lemma includes_eq (s p : string) :
  includes s p
  = String.prefix p s
    || match s with
       | EmptyString => false
       | String _ s' => includes s' p
       end.
Proof. now destruct s. Qed.

Lemma cut_eq (s p : string) :
  cut s p
  = if String.prefix p s
    then Some (EmptyString, drop_string (String.length p) s)
    else match s with
         | EmptyString => None
         | String c s' =>
             match cut s' p with
             | Some (b, a) => Some (String c b, a)
             | None => None
             end
         end.
Proof. now destruct s. Qed.

Lemma includes_cut (s p : string) :
  includes s p = true -> exists b a, cut s p = Some (b, a).
Proof.
  induction s as [|c s IH]; rewrite includes_eq, cut_eq;
    destruct (String.prefix p _); simpl; eauto; try discriminate.
  intros H. destruct (IH H) as (b & a & ->). eauto.
Qed.

Lemma cut_includes (s p b a : string) :
  cut s p = Some (b, a) -> includes s p = true.
Proof.
  revert b. induction s as [|c s IH]; intros b; rewrite includes_eq, cut_eq;
    destruct (String.prefix p _); simpl; trivial; try discriminate.
  destruct (cut s p) as [[b' a']|] eqn:E'; [|discriminate].
  intros [= <- <-]. eauto.
Qed.

(** [cut] splits at an occurrence of the pattern, *)
Lemma cut_app (s p b a : string) :
  cut s p = Some (b, a) -> s = b ++ p ++ a.
Proof.
  revert b. induction s as [|c s IH]; intros b; rewrite cut_eq;
    destruct (String.prefix p _) eqn:E; try discriminate.
  - intros [= <- <-]. now apply prefix_drop in E.
  - intros [= <- <-]. now apply prefix_drop in E.
  - destruct (cut s p) as [[b' a']|] eqn:E'; [|discriminate].
    intros [= <- <-]. rewrite append_cons. f_equal. now apply IH.
Qed.

Lemma prefix_app (p r : string) : String.prefix p (p ++ r) = true.
Proof.
  induction p as [|a p IH]; [now destruct r|].
  rewrite append_cons. simpl.
  destruct (ascii_dec a a); [exact IH|congruence].
Qed.

(** and at the leftmost one. *)
Lemma cut_leftmost (s p b a b' a' : string) :
  cut s p = Some (b, a) -> s = b' ++ p ++ a' ->
  (String.length b <= String.length b')%nat.
Proof.
  revert b b'. induction s as [|c s IH]; intros b b'; rewrite cut_eq;
    destruct (String.prefix p _) eqn:E; try discriminate.
  - intros [= <- <-] _. simpl. lia.
  - intros [= <- <-] _. simpl. lia.
  - destruct (cut s p) as [[b0 a0]|] eqn:E'; [|discriminate].
    intros [= <- <-] Hs. destruct b' as [|c' b'].
    + rewrite append_nil in Hs. rewrite Hs, prefix_app in E. discriminate.
    + rewrite append_cons in Hs. injection Hs as -> Hs. simpl.
      specialize (IH b0 b' eq_refl Hs). lia.
Qed.

(** The piece of [a] before the next occurrence of [p]. *)
Definition next_piece (a p : string) : string :=
  match cut a p with
  | Some (m, _) => m
  | None => a
  end.

Lemma split_fuel_head (fuel : nat) (a p : string) :
  (fuel = 0%nat -> a = EmptyString) -> p <> EmptyString ->
  exists rest, split_fuel fuel a p = next_piece a p :: rest.
Proof.
  intros Hf Hp. unfold next_piece. destruct fuel as [|fuel]; simpl.
  - rewrite (Hf eq_refl). simpl.
    destruct p as [|c p]; [congruence|]. simpl. eauto.
  - destruct (cut a p) as [[m r]|]; eauto.
Qed.

Lemma length_append (a b : string) :
  String.length (a ++ b) = (String.length a + String.length b)%nat.
Proof.
  induction a as [|c a IH]; [reflexivity|].
  rewrite append_cons. simpl. now rewrite IH.
Qed.

Lemma split_cut (s p b a : string) :
  p <> EmptyString -> cut s p = Some (b, a) ->
  exists rest, split s p = b :: next_piece a p :: rest.
Proof.
  intros Hp Hc. unfold split. pose proof (cut_app _ _ _ _ Hc) as Hs.
  assert (Hl : String.length s
               = (String.length b + String.length p + String.length a)%nat).
  { rewrite Hs at 1. rewrite !length_append. lia. }
  assert (Hlp : (1 <= String.length p)%nat).
  { destruct p; [congruence|simpl; lia]. }
  destruct (String.length s) as [|n] eqn:En; [lia|]. simpl. rewrite Hc.
  destruct (split_fuel_head n a p) as [rest ->]; [|exact Hp|eauto].
  intros ->. destruct a; [reflexivity|simpl in Hl; lia].
Qed.

(** ** The parser of simple conditions (C7) *)

Section Conditions.
Context `{RT : Runtime}.

Lemma parseSimpleCondition_loop_spec (ops : list string) (s : string) :
  (forall op, In op ops -> op <> EmptyString) ->
  match find (includes s) ops with
  | Some op =>
      exists before after,
        cut s op = Some (before, after) /\ s = before ++ op ++ after /\
        parseSimpleCondition_loop ops s
        = Ok (Simple (trim before) op (parseValue (trim (next_piece after op))))
  | None => parseSimpleCondition_loop ops s = Throw ("Invalid condition: " ++ s)
  end.
Proof.
  induction ops as [|op ops IH]; intros Hne; simpl; [reflexivity|].
  destruct (includes s op) eqn:E.
  - destruct (includes_cut _ _ E) as (b & a & Hc).
    exists b, a. split; [exact Hc|]. split; [now apply cut_app|].
    destruct (split_cut s op b a) as [rest ->]; [apply Hne; now left|exact Hc|].
    reflexivity.
  - apply IH. intros op' Hin. apply Hne. now right.
Qed.

Lemma operators_nonempty (op : string) : In op operators -> op <> EmptyString.
Proof.
  unfold operators. simpl. intros H.
  repeat (destruct H as [<-|H]; [discriminate|]). destruct H.
Qed.

Lemma parseWhereClause_simple (whereStr : string) :
  includes (toUpperCase whereStr) " AND " = false ->
  includes (toUpperCase whereStr) " OR " = false ->
  parseWhereClause whereStr = parseSimpleCondition whereStr.
Proof. intros H1 H2. unfold parseWhereClause. now rewrite H1, H2. Qed.

Lemma parse_error_nothing_executes (sql : string) (d : DB) (msg : string) :
  parse sql = Throw msg -> query sql d = (failure msg, d).
Proof. intros H. unfold query, parse_execute, bind, lift. now rewrite H. Qed.

(** The text of the WHERE clause of a SELECT, an UPDATE or a DELETE, as
    [parse] hands it to [parseWhereClause]: [None] for a statement of
    another kind or without WHERE clause, and for one that throws before
    its WHERE clause is parsed. *)
Definition whereClause_of (sql : string) : option string :=
  let sql := collapse_spaces (trim sql) in
  let upperSQL := toUpperCase sql in
  if startsWith upperSQL "CREATE TABLE" then None
  else if startsWith upperSQL "INSERT INTO" then None
  else if startsWith upperSQL "SELECT" then
    match re_match selectPattern sql, re_match fromPattern sql,
          re_match wherePattern sql with
    | Some _, Some _, Some whereMatch =>
        Some (trim (match capture whereMatch 1 with
                    | Some w => w | None => EmptyString end))
    | _, _, _ => None
    end
  else if startsWith upperSQL "UPDATE" then
    match re_match updatePattern sql with
    | Some caps =>
        match capture caps 1, capture caps 2 with
        | Some _, Some setClause =>
            match parseSet (split setClause ",") [] with
            | Ok _ => or_null (capture caps 3)
            | Throw _ => None
            end
        | _, _ => None
        end
    | None => None
    end
  else if startsWith upperSQL "DELETE FROM" then
    match re_match deletePattern sql with
    | Some caps =>
        match capture caps 1 with
        | Some _ => or_null (capture caps 2)
        | None => None
        end
    | None => None
    end
  else None.

(** The strings [parseWhereClause] hands to [parseSimpleCondition]: the
    trimmed pieces between the ANDs, or between the ORs, or the whole
    text. *)
Definition conditions_of (whereStr : string) : list string :=
  if includes (toUpperCase whereStr) " AND "
  then map trim (re_split andPattern whereStr)
  else if includes (toUpperCase whereStr) " OR "
  then map trim (re_split orPattern whereStr)
  else [whereStr].

(** A string that includes none of the six operators. *)
Definition lacks_operator (s : string) : bool :=
  negb (existsb (includes s) [">="; "<="; "!="; "="; ">"; "<"]).

Lemma lacks_operator_find (s : string) :
  lacks_operator s = true <-> find (includes s) operators = None.
Proof.
  unfold lacks_operator, operators. simpl.
  destruct (includes s ">="), (includes s "<="), (includes s "!="),
    (includes s "="), (includes s ">"), (includes s "<"); simpl;
    split; congruence.
Qed.

Lemma parseSimpleCondition_lacks (s : string) :
  if lacks_operator s
  then parseSimpleCondition s = Throw ("Invalid condition: " ++ s)
  else exists c, parseSimpleCondition s = Ok c.
Proof.
  pose proof (parseSimpleCondition_loop_spec operators s operators_nonempty)
    as H.
  fold (parseSimpleCondition s) in H.
  destruct (lacks_operator s) eqn:E.
  - apply lacks_operator_find in E. now rewrite E in H.
  - destruct (find (includes s) operators) as [op|] eqn:F.
    + destruct H as (b & a & _ & _ & ->). eauto.
    + apply lacks_operator_find in F. congruence.
Qed.

Lemma map_throw_map {A B C} (f : B -> outcome C) (g : A -> B) (l : list A) :
  map_throw (fun x => f (g x)) l = map_throw f (map g l).
Proof.
  induction l as [|x l IH]; simpl; [reflexivity|]. now rewrite IH.
Qed.

(** A [map] whose callback throws on the items marked [bad] and on no
    other throws the error of the first of them. *)
Lemma map_throw_find {A B} (f : A -> outcome B) (bad : A -> bool)
    (msg : A -> string) (l : list A) :
  (forall x, if bad x then f x = Throw (msg x) else exists y, f x = Ok y) ->
  match find bad l with
  | Some x => map_throw f l = Throw (msg x)
  | None => exists l', map_throw f l = Ok l'
  end.
Proof.
  intros Hf. induction l as [|x l IH]; simpl; [eauto|].
  pose proof (Hf x) as Hx. destruct (bad x).
  - now rewrite Hx.
  - destruct Hx as [y ->]. destruct (find bad l) as [z|].
    + now rewrite IH.
    + destruct IH as [l' ->]. eauto.
Qed.

(** [parseWhereClause] throws exactly when one of its conditions includes
    no operator, with the error of the first such condition. *)
Lemma parseWhereClause_lacks (whereStr : string) :
  match find lacks_operator (conditions_of whereStr) with
  | Some s => parseWhereClause whereStr = Throw ("Invalid condition: " ++ s)
  | None => exists c, parseWhereClause whereStr = Ok c
  end.
Proof.
  unfold conditions_of, parseWhereClause.
  destruct (includes (toUpperCase whereStr) " AND ");
    [|destruct (includes (toUpperCase whereStr) " OR ")].
  - rewrite (map_throw_map parseSimpleCondition trim).
    pose proof (map_throw_find parseSimpleCondition lacks_operator
                  (fun s => "Invalid condition: " ++ s)
                  (map trim (re_split andPattern whereStr))
                  parseSimpleCondition_lacks) as H.
    destruct (find lacks_operator _) as [s|].
    + now rewrite H.
    + destruct H as [l ->]. eauto.
  - rewrite (map_throw_map parseSimpleCondition trim).
    pose proof (map_throw_find parseSimpleCondition lacks_operator
                  (fun s => "Invalid condition: " ++ s)
                  (map trim (re_split orPattern whereStr))
                  parseSimpleCondition_lacks) as H.
    destruct (find lacks_operator _) as [s|].
    + now rewrite H.
    + destruct H as [l ->]. eauto.
  - simpl. pose proof (parseSimpleCondition_lacks whereStr) as H.
    destruct (lacks_operator whereStr); [exact H|].
    destruct H as [c ->]. eauto.
Qed.

(** An error of [parseWhereClause] on the WHERE clause of a statement is
    the error of [parse]: [parseSelect], [parseUpdate] and [parseDelete]
    let it pass. *)
Lemma parse_where_throws (sql w msg : string) :
  whereClause_of sql = Some w -> parseWhereClause w = Throw msg ->
  parse sql = Throw msg.
Proof.
  unfold whereClause_of, parse. cbv zeta.
  set (s := collapse_spaces (trim sql)).
  destruct (startsWith (toUpperCase s) "CREATE TABLE"); [discriminate|].
  destruct (startsWith (toUpperCase s) "INSERT INTO"); [discriminate|].
  destruct (startsWith (toUpperCase s) "SELECT").
  { unfold parseSelect.
    destruct (re_match selectPattern s); [|discriminate].
    destruct (re_match fromPattern s); [|discriminate].
    destruct (re_match wherePattern s); [|discriminate].
    intros [= <-] Hm. cbv zeta. now rewrite Hm. }
  destruct (startsWith (toUpperCase s) "UPDATE").
  { unfold parseUpdate.
    destruct (re_match updatePattern s) as [caps|]; [|discriminate].
    destruct (capture caps 1); [|discriminate].
    destruct (capture caps 2); [|discriminate].
    destruct (parseSet _ _); [|discriminate].
    intros Hw Hm. unfold parseOptionalWhere. now rewrite Hw, Hm. }
  destruct (startsWith (toUpperCase s) "DELETE FROM"); [|discriminate].
  unfold parseDelete.
  destruct (re_match deletePattern s) as [caps|]; [|discriminate].
  destruct (capture caps 1); [|discriminate].
  intros Hw Hm. unfold parseOptionalWhere. now rewrite Hw, Hm.
Qed.

(** C7: [parseSimpleCondition] takes the first operator of the list
    [>=, <=, !=, =, >, <] that the string includes and splits the string at
    the leftmost occurrence of that operator: the column is the trimmed
    text before it, the value the parsed text after it.  A string that
    includes [>=], [<=] or [!=] is never parsed with the operator [=].  A
    string that includes none of the six operators throws
    [Invalid condition]; when it is the first such condition of the WHERE
    clause of a SELECT, an UPDATE or a DELETE, [parse] throws that error
    and nothing executes: [query] returns the failure and leaves the
    state as it was. *)
Theorem parseSimpleCondition_priority (condStr : string) :
  match find (includes condStr) [">="; "<="; "!="; "="; ">"; "<"] with
  | Some op =>
      exists before after,
        cut condStr op = Some (before, after) /\
        condStr = before ++ op ++ after /\
        parseSimpleCondition condStr
        = Ok (Simple (trim before) op
                     (parseValue (trim (next_piece after op))))
  | None =>
      parseSimpleCondition condStr = Throw ("Invalid condition: " ++ condStr)
  end
  /\ (includes condStr ">=" || includes condStr "<=" || includes condStr "!="
      = true ->
      forall column v, parseSimpleCondition condStr <> Ok (Simple column "=" v))
  /\ (forall sql w d,
        whereClause_of sql = Some w ->
        find lacks_operator (conditions_of w) = Some condStr ->
        parse sql = Throw ("Invalid condition: " ++ condStr) /\
        query sql d
        = ({| success := false; message := None; rows := None; count := None;
              row := None; table := None;
              error := Some ("Invalid condition: " ++ condStr) |}, d)).
Proof.
  pose proof (parseSimpleCondition_loop_spec operators condStr
                operators_nonempty) as H.
  fold (parseSimpleCondition condStr) in H.
  split; [exact H|]. split.
  - intros Hinc column v Heq. revert H. rewrite Heq. unfold operators. simpl.
    destruct (includes condStr ">="); [intros (b & a & _ & _ & [=])|].
    destruct (includes condStr "<="); [intros (b & a & _ & _ & [=])|].
    destruct (includes condStr "!="); [intros (b & a & _ & _ & [=])|].
    discriminate Hinc.
  - intros sql w d Hw Hbad.
    pose proof (parseWhereClause_lacks w) as Hthrow. rewrite Hbad in Hthrow.
    pose proof (parse_where_throws sql w _ Hw Hthrow) as Hp.
    split; [exact Hp|]. now apply parse_error_nothing_executes.
Qed.

End Conditions.

Section ConditionExamples.
#[local] Existing Instance DecRuntime.

Lemma parseSimpleCondition_priority_witness :
  parseSimpleCondition "age >= 25" <> Ok (Simple "age" "=" (VNum (DFin 25 0)))
  /\ query "DELETE FROM users WHERE id" (emptyDB clock0)
     = (failure "Invalid condition: id", emptyDB clock0)
  /\ query "UPDATE users SET name = 'x' WHERE id" (emptyDB clock0)
     = (failure "Invalid condition: id", emptyDB clock0)
  /\ query "SELECT * FROM users WHERE id" (emptyDB clock0)
     = (failure "Invalid condition: id", emptyDB clock0)
  /\ query "SELECT * FROM users WHERE age > 1 AND id" (emptyDB clock0)
     = (failure "Invalid condition: id", emptyDB clock0).
Proof.
  destruct (parseSimpleCondition_priority (RT := DecRuntime) "age >= 25")
    as (_ & Hb & _).
  destruct (parseSimpleCondition_priority (RT := DecRuntime) "id")
    as (_ & _ & Hc).
  split; [apply Hb; reflexivity|].
  split; [exact (proj2 (Hc "DELETE FROM users WHERE id" "id"
                           (emptyDB clock0) eq_refl eq_refl))|].
  split; [exact (proj2 (Hc "UPDATE users SET name = 'x' WHERE id" "id"
                           (emptyDB clock0) eq_refl eq_refl))|].
  split; [exact (proj2 (Hc "SELECT * FROM users WHERE id" "id"
                           (emptyDB clock0) eq_refl eq_refl))|].
  exact (proj2 (Hc "SELECT * FROM users WHERE age > 1 AND id"
                  "age > 1 AND id" (emptyDB clock0) eq_refl eq_refl)).
Defined.

Example parseSimpleCondition_ge :
  parseSimpleCondition "age >= 25" = Ok (Simple "age" ">=" (VNum (DFin 25 0))).
Proof. reflexivity. Qed.

Example parseSimpleCondition_ne :
  parseSimpleCondition "name != 'x'" = Ok (Simple "name" "!=" (VStr "x")).
Proof. reflexivity. Qed.

Example parseSimpleCondition_none :
  parseSimpleCondition "id" = Throw "Invalid condition: id".
Proof. reflexivity. Qed.

End ConditionExamples.

(** ** Rebuilding an index (C8) *)

Section Rebuild.
Context `{RT : Runtime}.

(** What [rebuildIndex] returns and leaves behind when the index file can
    be opened: the index of the rows in the cache and in the index file,
    stamped with the reading of the clock, which has moved on. *)
Lemma rebuildIndex_run (t c : string) (rs : list Row) (d : DB) (p : string) :
  file_of (getIndexPath t c) = Some p ->
  exists d',
    rebuildIndex t c rs d = (Ok (hashIndex c rs), d') /\
    indexes d' = <[cacheKey t c := hashIndex c rs]> (indexes d) /\
    indexFiles d'
    = <[p :=
          {| idx_tableName := t; idx_columnName := c;
             idx_entries := json_entries (hashIndex c rs);
             idx_createdAt := reading (clock d) (tick (clock d)) |}]>
        (indexFiles d) /\
    storage d' = storage d /\ tables d' = tables d /\
    clock d' = {| reading := reading (clock d); tick := S (tick (clock d)) |}.
Proof.
  intros Hp.
  unfold rebuildIndex, dropIndex, buildIndex, removeIndexFile, writeIndexFile.
  rewrite Hp. unfold bind, modify, now, ret.
  eexists. split; [reflexivity|]. simpl.
  rewrite !insert_delete_eq. now repeat split.
Qed.

(** ... and when the index file cannot be opened: [fs.writeFileSync]
    throws after the index was dropped from the cache and before
    anything is cached or returned. *)
Lemma rebuildIndex_fails (t c : string) (rs : list Row) (d : DB) :
  file_of (getIndexPath t c) = None ->
  exists d',
    rebuildIndex t c rs d = (Throw (open_error (getIndexPath t c)), d') /\
    indexes d' = delete (cacheKey t c) (indexes d) /\
    indexFiles d' = indexFiles d /\
    storage d' = storage d /\ tables d' = tables d.
Proof.
  intros Hp.
  unfold rebuildIndex, dropIndex, buildIndex, removeIndexFile, writeIndexFile.
  rewrite Hp. unfold bind, modify, now, ret, throw.
  eexists. split; [reflexivity|]. now repeat split.
Qed.

(** C8, as the code has it.  When the index file of the column can be
    opened, rebuilding the index twice in succession over the same rows
    returns the same map both times, leaves the same map in the cache,
    and writes index files with the same table name, column name and
    entries; the files differ in [createdAt], which holds the reading of
    the clock at each call: the second file equals the first exactly when
    the clock reads the same at both calls.  When the index file cannot
    be opened, as for a column name with a path separator that leads into
    a directory that does not exist, both calls throw the error of
    [fs.writeFileSync], no index stays in the cache and no file is
    written. *)
Theorem rebuildIndex_idempotent (t c : string) (rs : list Row) (d : DB) :
  (forall p,
     file_of (getIndexPath t c) = Some p ->
     exists d1 d2 f1 f2,
       rebuildIndex t c rs d = (Ok (hashIndex c rs), d1) /\
       rebuildIndex t c rs d1 = (Ok (hashIndex c rs), d2) /\
       indexes d1 !! cacheKey t c = Some (hashIndex c rs) /\
       indexes d2 = indexes d1 /\
       indexFiles d1 !! p = Some f1 /\
       indexFiles d2 !! p = Some f2 /\
       idx_tableName f2 = idx_tableName f1 /\
       idx_columnName f2 = idx_columnName f1 /\
       idx_entries f2 = idx_entries f1 /\
       idx_createdAt f1 = reading (clock d) (tick (clock d)) /\
       idx_createdAt f2 = reading (clock d) (S (tick (clock d))) /\
       (f2 = f1 <->
        reading (clock d) (S (tick (clock d)))
        = reading (clock d) (tick (clock d))))
  /\ (file_of (getIndexPath t c) = None ->
      exists d1 d2,
        rebuildIndex t c rs d
        = (Throw (open_error (getIndexPath t c)), d1) /\
        rebuildIndex t c rs d1
        = (Throw (open_error (getIndexPath t c)), d2) /\
        indexes d1 !! cacheKey t c = None /\
        indexes d2 = indexes d1 /\
        indexFiles d1 = indexFiles d /\ indexFiles d2 = indexFiles d).
Proof.
  split.
  - intros p Hp.
    destruct (rebuildIndex_run t c rs d p Hp)
      as (d1 & H1 & Hi1 & Hf1 & _ & _ & Hc1).
    destruct (rebuildIndex_run t c rs d1 p Hp)
      as (d2 & H2 & Hi2 & Hf2 & _ & _ & _).
    exists d1, d2. eexists. eexists.
    split; [exact H1|]. split; [exact H2|].
    split; [rewrite Hi1; apply lookup_insert_eq|].
    split; [rewrite Hi2, Hi1; apply insert_insert_eq|].
    split; [rewrite Hf1; apply lookup_insert_eq|].
    split; [rewrite Hf2; apply lookup_insert_eq|].
    rewrite Hc1. simpl. repeat split; try reflexivity.
    + intros [= E]. exact E.
    + intros E. now rewrite E.
  - intros Hp.
    destruct (rebuildIndex_fails t c rs d Hp) as (d1 & H1 & Hi1 & Hf1 & _).
    destruct (rebuildIndex_fails t c rs d1 Hp) as (d2 & H2 & Hi2 & Hf2 & _).
    exists d1, d2. split; [exact H1|]. split; [exact H2|].
    split; [rewrite Hi1; apply lookup_delete_eq|].
    split; [rewrite Hi2, Hi1; apply delete_delete_eq|].
    split; [exact Hf1|]. now rewrite Hf2.
Qed.

End Rebuild.

Section RebuildExamples.
#[local] Existing Instance DecRuntime.

(** A clock that reads a different instant at every call. *)
Definition ticking : Clock :=
  {| reading := fun n => "2026-01-10T00:00:0" ++ string_of_nat n ++ ".000Z";
     tick := 0 |}.

(** C8, as stated, fails: the index file written by the second of two
    rebuilds over the same rows differs from the first in [createdAt]. *)
Definition one_row (c : string) : list Row := [[(c, VNum (DFin 1 0))]].

(** Both cases of C8 on the example file system: the index file of
    column [id] of table [t] is [t_id.idx.json]; that of a column [a/b]
    would lie in the directory [data/t_a], which does not exist. *)
Lemma rebuildIndex_idempotent_witness :
  (exists d1 d2,
     rebuildIndex "t" "id" (one_row "id") (emptyDB ticking)
     = (Ok [(VNum (DFin 1 0), [0%nat])], d1) /\
     rebuildIndex "t" "id" (one_row "id") d1
     = (Ok [(VNum (DFin 1 0), [0%nat])], d2) /\
     indexes d2 = indexes d1)
  /\ (exists d1,
        rebuildIndex "t" "a/b" (one_row "a/b") (emptyDB ticking)
        = (Throw "ENOENT: no such file or directory, open 'data/t_a/b.idx.json'",
           d1) /\
        indexes d1 !! cacheKey "t" "a/b" = None /\
        indexFiles d1 = indexFiles (emptyDB ticking)).
Proof.
  split.
  - destruct (proj1 (rebuildIndex_idempotent (RT := DecRuntime)
                       "t" "id" (one_row "id") (emptyDB ticking))
                "t_id.idx.json" eq_refl)
      as (d1 & d2 & f1 & f2 & H1 & H2 & _ & Hi & _).
    exists d1, d2. split; [exact H1|]. split; [exact H2|exact Hi].
  - destruct (proj2 (rebuildIndex_idempotent (RT := DecRuntime)
                       "t" "a/b" (one_row "a/b") (emptyDB ticking))
                eq_refl)
      as (d1 & d2 & H1 & _ & Hi & _ & Hf & _).
    exists d1. split; [exact H1|]. split; [exact Hi|exact Hf].
Defined.

Lemma rebuildIndex_files_differ :
  let rs := [[("id", VNum (DFin 1 0))]] in
  let d1 := snd (rebuildIndex "t" "id" rs (emptyDB ticking)) in
  let d2 := snd (rebuildIndex "t" "id" rs d1) in
  indexFiles d1 !! "t_id.idx.json"
  = Some {| idx_tableName := "t"; idx_columnName := "id";
            idx_entries := [(VNum (DFin 1 0), [0%nat])];
            idx_createdAt := "2026-01-10T00:00:00.000Z" |}
  /\ indexFiles d2 !! "t_id.idx.json"
     = Some {| idx_tableName := "t"; idx_columnName := "id";
               idx_entries := [(VNum (DFin 1 0), [0%nat])];
               idx_createdAt := "2026-01-10T00:00:01.000Z" |}
  /\ indexFiles d2 !! "t_id.idx.json" <> indexFiles d1 !! "t_id.idx.json".
Proof.
  intros rs d1 d2.
  assert (H1 : indexFiles d1 !! "t_id.idx.json"
               = Some {| idx_tableName := "t"; idx_columnName := "id";
                         idx_entries := [(VNum (DFin 1 0), [0%nat])];
                         idx_createdAt := "2026-01-10T00:00:00.000Z" |})
    by reflexivity.
  assert (H2 : indexFiles d2 !! "t_id.idx.json"
               = Some {| idx_tableName := "t"; idx_columnName := "id";
                         idx_entries := [(VNum (DFin 1 0), [0%nat])];
                         idx_createdAt := "2026-01-10T00:00:01.000Z" |})
    by reflexivity.
  split; [exact H1|]. split; [exact H2|].
  rewrite H1, H2. discriminate.
Qed.

End RebuildExamples.

(** ** The keys of a [Map] *)

Section MapKeys.
Context `{RT : Runtime}.

Lemma num_eqb_not_NaN (a b : number) :
  num_eqb a b = true -> num_isNaN a = false.
Proof.
  intros H. pose proof (num_eqb_trans a b a H) as Ht.
  rewrite (num_eqb_sym b a), H in Ht. specialize (Ht eq_refl).
  rewrite num_eqb_diag in Ht. now destruct (num_isNaN a).
Qed.

Lemma sameValueZero_refl (v : value) : sameValueZero v v = true.
Proof.
  destruct v as [| |b|n|s]; simpl; trivial.
  - now destruct b.
  - rewrite num_eqb_diag. now destruct (num_isNaN n).
  - apply String.eqb_refl.
Qed.

Lemma sameValueZero_sym (a b : value) : sameValueZero a b = sameValueZero b a.
Proof.
  destruct a as [| |x|x|x], b as [| |y|y|y]; simpl; trivial.
  - now destruct x, y.
  - rewrite (num_eqb_sym x y). f_equal. apply andb_comm.
  - apply String.eqb_sym.
Qed.

Lemma sameValueZero_trans (a b c : value) :
  sameValueZero a b = true -> sameValueZero b c = true ->
  sameValueZero a c = true.
Proof.
  destruct a as [| |x|x|x], b as [| |y|y|y], c as [| |z|z|z]; simpl;
    try discriminate; trivial.
  - destruct x, y, z; simpl; congruence.
  - intros H1 H2.
    apply orb_true_iff in H1 as [H1|H1]; apply orb_true_iff in H2 as [H2|H2].
    + now rewrite (num_eqb_trans x y z H1 H2).
    + apply andb_true_iff in H2 as [H2 _].
      rewrite num_eqb_sym in H1. apply num_eqb_not_NaN in H1. congruence.
    + apply andb_true_iff in H1 as [_ H1].
      apply num_eqb_not_NaN in H2. congruence.
    + apply andb_true_iff in H1 as [H1 _]. apply andb_true_iff in H2 as [_ H2].
      rewrite H1, H2. apply orb_true_r.
  - intros H1 H2. apply String.eqb_eq in H1, H2. subst. apply String.eqb_refl.
Qed.

(** Two keys that are the same select the same entries. *)
Lemma sameValueZero_same (k a b : value) :
  sameValueZero a b = true -> sameValueZero k a = sameValueZero k b.
Proof.
  intros H. destruct (sameValueZero k a) eqn:Ea.
  - symmetry. now apply (sameValueZero_trans k a b).
  - destruct (sameValueZero k b) eqn:Eb; [|reflexivity].
    rewrite sameValueZero_sym in H.
    now rewrite (sameValueZero_trans k b a Eb H) in Ea.
Qed.

Lemma map_get_same (index : Index) (a b : value) :
  sameValueZero a b = true -> map_get index a = map_get index b.
Proof.
  intros H. induction index as [|[k ps] index IH]; simpl; [reflexivity|].
  now rewrite (sameValueZero_same k a b H), IH.
Qed.

Lemma map_has_get (index : Index) (v : value) :
  map_has index v = match map_get index v with Some _ => true | None => false end.
Proof.
  induction index as [|[k ps] index IH]; simpl; [reflexivity|].
  now destruct (sameValueZero k v).
Qed.

Lemma map_get_push (index : Index) (k v : value) (i : nat) :
  map_get (map_push index k i) v
  = if sameValueZero k v
    then option_map (fun ps => (ps ++ [i])%list) (map_get index v)
    else map_get index v.
Proof.
  induction index as [|[k' ps] index IH]; simpl.
  - now destruct (sameValueZero k v).
  - destruct (sameValueZero k' k) eqn:Ek; simpl; [|rewrite IH];
      destruct (sameValueZero k' v) eqn:Ev';
      destruct (sameValueZero k v) eqn:Ev; simpl; trivial; exfalso.
    + rewrite sameValueZero_sym in Ek.
      pose proof (sameValueZero_trans k k' v Ek Ev'). congruence.
    + pose proof (sameValueZero_trans k' k v Ek Ev). congruence.
    + rewrite sameValueZero_sym in Ev.
      pose proof (sameValueZero_trans k' v k Ev' Ev). congruence.
Qed.

Lemma map_get_set_new (index : Index) (k v : value) (ps : list nat) :
  map_has index k = false ->
  map_get (map_set index k ps) v
  = if sameValueZero k v then Some ps else map_get index v.
Proof.
  induction index as [|[k' ps'] index IH]; simpl; [reflexivity|].
  intros H. apply orb_false_iff in H as [Hk Hh]. rewrite Hk. simpl.
  rewrite (IH Hh). destruct (sameValueZero k' v) eqn:Ev'; [|reflexivity].
  destruct (sameValueZero k v) eqn:Ev; [|reflexivity].
  rewrite sameValueZero_sym in Ev.
  now rewrite (sameValueZero_trans k' v k Ev' Ev) in Hk.
Qed.

End MapKeys.

(** ** What an index lookup returns *)

Section IndexLookup.
Context `{RT : Runtime}.

(** A row is found under the key [v] of the index of column [c] when its
    value of [c] is neither [null] nor [undefined] and is the same key. *)
Definition indexed (c : string) (v : value) (r : Row) : bool :=
  negb (is_nullish (get r c)) && sameValueZero (get r c) v.

(** The positions, counted from [i], of the rows found under [v]. *)
Fixpoint positions (c : string) (v : value) (rs : list Row) (i : nat) : list nat :=
  match rs with
  | [] => []
  | r :: rs' =>
      if indexed c v r then i :: positions c v rs' (S i)
      else positions c v rs' (S i)
  end.

Definition or_empty (ps : option (list nat)) : list nat :=
  match ps with Some ps => ps | None => [] end.

Lemma map_get_index_row (c : string) (index : Index) (r : Row) (i : nat)
    (v : value) :
  map_get (index_row c index r i) v
  = if indexed c v r then Some (or_empty (map_get index v) ++ [i])%list
    else map_get index v.
Proof.
  unfold index_row, indexed.
  destruct (is_nullish (get r c)); simpl; [reflexivity|].
  rewrite map_get_push.
  destruct (sameValueZero (get r c) v) eqn:Ev.
  - rewrite <- (map_get_same index _ _ Ev).
    destruct (map_has index (get r c)) eqn:Eh; simpl.
    + rewrite map_has_get in Eh.
      rewrite <- (map_get_same index _ _ Ev).
      now destruct (map_get index (get r c)).
    + rewrite (map_get_set_new _ _ _ _ Eh), Ev.
      rewrite map_has_get in Eh.
      now destruct (map_get index (get r c)).
  - destruct (map_has index (get r c)) eqn:Eh; simpl; [reflexivity|].
    now rewrite (map_get_set_new _ _ _ _ Eh), Ev.
Qed.

Lemma map_get_index_rows (c : string) (rs : list Row) (index : Index) (i : nat)
    (v : value) :
  map_get (index_rows c index rs i) v
  = match positions c v rs i with
    | [] => map_get index v
    | ps => Some (or_empty (map_get index v) ++ ps)%list
    end.
Proof.
  revert index i. induction rs as [|r rs IH]; intros index i; simpl;
    [reflexivity|].
  rewrite IH, map_get_index_row.
  destruct (indexed c v r); [|reflexivity]. simpl.
  destruct (positions c v rs (S i)); [reflexivity|].
  now rewrite <- app_assoc.
Qed.

(** The positions recorded under a key are those of the rows found under
    it, in ascending order. *)
Lemma map_get_hashIndex (c : string) (rs : list Row) (v : value) :
  or_empty (map_get (hashIndex c rs) v) = positions c v rs 0.
Proof.
  unfold hashIndex. rewrite map_get_index_rows. simpl.
  now destruct (positions c v rs 0).
Qed.

Lemma rowsAt_positions (c : string) (v : value) (pre rs : list Row) :
  rowsAt (pre ++ rs) (positions c v rs (length pre))
  = map Some (List.filter (indexed c v) rs).
Proof.
  revert pre. induction rs as [|r rs IH]; intros pre; simpl; [reflexivity|].
  specialize (IH (pre ++ [r])%list).
  rewrite <- app_assoc, length_app in IH. simpl in IH.
  rewrite Nat.add_1_r in IH.
  destruct (indexed c v r) eqn:E; [|exact IH].
  simpl. rewrite <- IH. f_equal.
  apply list_lookup_middle. reflexivity.
Qed.

(** The rows an index lookup selects are the rows found under the key, in
    the order of the table. *)
Lemma rowsAt_hashIndex (c : string) (v : value) (rs : list Row) :
  rowsAt rs (or_empty (map_get (hashIndex c rs) v))
  = map Some (List.filter (indexed c v) rs).
Proof. rewrite map_get_hashIndex. exact (rowsAt_positions c v [] rs). Qed.

End IndexLookup.

(** ** The index path and the scan of [filterRows] (C1) *)

Section IndexOrScan.
Context `{RT : Runtime}.

Lemma filter_throw_Ok {A} (f : A -> bool) (l : list A) :
  filter_throw (fun x => Ok (f x)) l = Ok (List.filter f l).
Proof.
  induction l as [|x l IH]; simpl; [reflexivity|]. rewrite IH.
  now destruct (f x).
Qed.

(** The scan of an equality keeps the rows whose value is loosely equal
    to the literal. *)
Lemma scanRows_equality (rs : list Row) (c : string) (v : value) :
  scanRows rs (Simple c "=" v)
  = Ok (map Some (List.filter (fun r => looseEq (get r c) v) rs)).
Proof.
  unfold scanRows. simpl. unfold compare. simpl.
  now rewrite (filter_throw_Ok (fun r => looseEq (get r c) v)).
Qed.

(** With the index of the column in the cache, [filterRows] returns the
    rows found under the literal as a key of the index. *)
Lemma filterRows_index (rs : list Row) (t c : string) (v : value) (d : DB) :
  truthy_string c = true ->
  indexes d !! cacheKey t c = Some (hashIndex c rs) ->
  filterRows rs (Simple c "=" v) t d
  = (Ok (map Some (List.filter (indexed c v) rs)), d).
Proof.
  intros Hc Hi. unfold filterRows. rewrite Hc. simpl.
  unfold lookup, loadIndex, bind, gets, ret. rewrite Hi.
  rewrite <- rowsAt_hashIndex. reflexivity.
Qed.

(** The two paths agree on a table whose rows are found under the key
    exactly when they are loosely equal to it. *)
Lemma filterRows_index_scan (rs : list Row) (t c : string) (v : value) (d : DB) :
  truthy_string c = true ->
  indexes d !! cacheKey t c = Some (hashIndex c rs) ->
  (forall r, In r rs -> indexed c v r = looseEq (get r c) v) ->
  filterRows rs (Simple c "=" v) t d = (scanRows rs (Simple c "=" v), d).
Proof.
  intros Hc Hi Hagree. rewrite (filterRows_index _ _ _ _ _ Hc Hi).
  rewrite scanRows_equality. do 3 f_equal.
  apply List.filter_ext_in. exact Hagree.
Qed.

End IndexOrScan.

Section IndexOrScanExamples.
#[local] Existing Instance DecRuntime.

Definition db_text_key : DB :=
  after ["CREATE TABLE t (id TEXT PRIMARY KEY)";
         "INSERT INTO t (id) VALUES (5)"] (emptyDB clock0).

(** C1 fails on the code: the table [t] holds the row [{ id: "5" }] under
    the indexed text column [id].  For [id = 5] the scan keeps the row
    (["5" == 5]), the index path looks the number [5] up among the keys of
    the [Map], finds nothing and returns no row; so does the SELECT. *)
Theorem index_path_misses_loose_match :
  let rs := [[("id", VStr "5")]] in
  let whereClause := Simple "id" "=" (VNum (DFin 5 0)) in
  snd <$> storage db_text_key !! "t" = Some rs
  /\ indexes db_text_key !! "t.id" = Some (hashIndex "id" rs)
  /\ parse "SELECT * FROM t WHERE id = 5"
     = Ok (SELECT ["*"] "t" (Some "WHERE") None (Some whereClause))
  /\ scanRows rs whereClause = Ok [Some [("id", VStr "5")]]
  /\ fst (filterRows rs whereClause "t" db_text_key) = Ok []
  /\ rows (fst (query "SELECT * FROM t WHERE id = 5" db_text_key)) = Some [].
Proof. intros rs whereClause. repeat split; reflexivity. Qed.

End IndexOrScanExamples.

(** ** SELECT with JOIN and WHERE (C2) *)

Section JoinWhere.
Context `{RT : Runtime}.

(** [executeSelect] hands a statement with a JOIN to [executeJoin], which
    never reads the condition. *)
Lemma executeSelect_join_ignores_where (cols : list string) (t : string)
    (tableAlias : option string) (j : Join) (cond : option Condition) :
  executeSelect cols t tableAlias (Some j) cond
  = executeJoin cols t tableAlias j.
Proof. reflexivity. Qed.

End JoinWhere.

Section JoinWhereExamples.
#[local] Existing Instance DecRuntime.

Definition db_orders : DB :=
  after ["CREATE TABLE users (id INTEGER PRIMARY KEY, name TEXT)";
         "CREATE TABLE orders (order_id INTEGER PRIMARY KEY, user_id INTEGER, amount FLOAT)";
         "INSERT INTO users (id, name) VALUES (1, 'Alice')";
         "INSERT INTO orders (order_id, user_id, amount) VALUES (101, 1, 25.0)";
         "INSERT INTO orders (order_id, user_id, amount) VALUES (102, 1, 75.5)"]
        (emptyDB clock0).

Definition merged_25 : Row :=
  [("users.id", VNum (DFin 1 0)); ("users.name", VStr "Alice");
   ("orders.order_id", VNum (DFin 101 0)); ("orders.user_id", VNum (DFin 1 0));
   ("orders.amount", VNum (DFin 25 0))].

Definition merged_75 : Row :=
  [("users.id", VNum (DFin 1 0)); ("users.name", VStr "Alice");
   ("orders.order_id", VNum (DFin 102 0)); ("orders.user_id", VNum (DFin 1 0));
   ("orders.amount", VNum (DFin 755 1))].

(** C2 fails on the code: the statement joins one user with two orders
    and asks for [orders.amount > 50]; the merged row of the order of
    amount 25 fails the condition and is returned all the same. *)
Theorem join_returns_rows_failing_where :
  let sql := "SELECT * FROM users u JOIN orders o ON u.id = o.user_id WHERE orders.amount > 50" in
  let whereClause := Simple "orders.amount" ">" (VNum (DFin 50 0)) in
  parse sql
  = Ok (SELECT ["*"] "users" (Some "u")
          (Some {| join_tableName := "orders"; join_tableAlias := Some "o";
                   join_on := "u.id = o.user_id" |})
          (Some whereClause))
  /\ fst (query sql db_orders)
     = {| success := true; message := None;
          rows := Some [Some merged_25; Some merged_75]; count := Some 2%nat;
          row := None; table := None; error := None |}
  /\ evaluateCondition merged_25 whereClause = Ok false
  /\ evaluateCondition merged_75 whereClause = Ok true.
Proof. intros sql whereClause. repeat split; reflexivity. Qed.

End JoinWhereExamples.

(** ** Running the storage engine and the index manager *)

Section RunningStorage.
Context `{RT : Runtime}.

Lemma loadTableData_run (t : string) (d : DB) (m : Metadata) (rs : list Row) :
  storage d !! t = Some (m, rs) -> loadTableData t d = (Ok rs, d).
Proof. intros H. unfold loadTableData, bind, gets, ret. now rewrite H. Qed.

Lemma getTableMetadata_run (t : string) (d : DB) (m : Metadata) (rs : list Row) :
  storage d !! t = Some (m, rs) -> getTableMetadata t d = (Ok m, d).
Proof. intros H. unfold getTableMetadata, bind, gets, ret. now rewrite H. Qed.

Lemma saveTableData_run (t : string) (d : DB) (m : Metadata)
    (rs rs' : list Row) :
  storage d !! t = Some (m, rs) ->
  saveTableData t rs' d
  = (Ok tt, with_storage (fun st => <[t := (m, map json_row rs')]> st) d).
Proof. intros H. unfold saveTableData, bind, gets, modify. now rewrite H. Qed.

Lemma insertRow_run (t : string) (d : DB) (m : Metadata) (rs : list Row)
    (r : Row) :
  storage d !! t = Some (m, rs) ->
  insertRow t r d
  = (Ok r, with_storage
             (fun st => <[t := (m, map json_row (rs ++ [r]))]> st) d).
Proof.
  intros H. unfold insertRow.
  rewrite (bind_Ok _ _ d rs d (loadTableData_run _ _ _ _ H)).
  erewrite bind_Ok; [|exact (saveTableData_run _ _ _ _ _ H)].
  reflexivity.
Qed.

(** The table object that [getTable] returns when the cache of table
    objects agrees with the tables stored. *)
Lemma getTable_run (t : string) (d : DB) (m : Metadata) (rs : list Row) :
  storage d !! t = Some (m, rs) ->
  (tables d !! t = None \/ tables d !! t = Some m) ->
  exists d',
    getTable t d = (Ok m, d') /\ storage d' = storage d /\
    indexes d' = indexes d /\ indexFiles d' = indexFiles d /\
    clock d' = clock d /\ tables d' = <[t := m]> (tables d).
Proof.
  intros Hs [Ht|Ht]; unfold getTable, bind, gets; rewrite Ht.
  - rewrite (getTableMetadata_run _ _ _ _ Hs). eexists.
    split; [reflexivity|]. now repeat split.
  - exists d. split; [reflexivity|]. repeat split; trivial.
    symmetry. now apply insert_id.
Qed.

Lemma append_inj_l (p a b : string) : p ++ a = p ++ b -> a = b.
Proof. induction p as [|c p IH]; simpl; [trivial|]. intros [= H]. auto. Qed.

Lemma cacheKey_inj (t c c' : string) : cacheKey t c = cacheKey t c' -> c = c'.
Proof.
  unfold cacheKey. intros H. apply append_inj_l in H.
  now apply (append_inj_l ".") in H.
Qed.

(** The columns that carry an index: the primary key and the unique
    keys. *)
Definition key_columns (m : Metadata) : list string :=
  (match primaryKey m with
   | Some pk => if truthy_string pk then [pk] else []
   | None => []
   end ++ uniqueKeys m)%list.

(** Whether the index file of a column can be opened, and whether those
    of all the key columns of a table can. *)
Definition openable (t c : string) : bool :=
  match file_of (getIndexPath t c) with Some _ => true | None => false end.

Definition indexable (t : string) (m : Metadata) : bool :=
  forallb (openable t) (key_columns m).

Lemma In_key_columns (m : Metadata) (c : string) :
  In c (key_columns m) <->
  (primaryKey m = Some c /\ truthy_string c = true) \/ In c (uniqueKeys m).
Proof.
  unfold key_columns. rewrite in_app_iff.
  destruct (primaryKey m) as [pk|]; [destruct (truthy_string pk) eqn:E|];
    simpl; split; intros [H|H]; auto.
  - destruct H as [<-|[]]. now left.
  - destruct H as [[= <-] _]. now left; left.
  - destruct H.
  - destruct H as [[= <-] H]. congruence.
  - destruct H.
  - destruct H as [[=] _].
Qed.

Lemma when_primaryKey_for_each (m : Metadata) (f : string -> M unit) (d : DB) :
  (when_primaryKey m f ;; for_each (uniqueKeys m) f) d
  = for_each (key_columns m) f d.
Proof.
  unfold when_primaryKey, key_columns.
  destruct (primaryKey m) as [pk|]; [destruct (truthy_string pk)|];
    reflexivity.
Qed.

Lemma when_primaryKey_for_each_then {A} (m : Metadata) (f : string -> M unit)
    (k : M A) (d : DB) :
  (when_primaryKey m f ;; for_each (uniqueKeys m) f ;; k) d
  = (for_each (key_columns m) f ;; k) d.
Proof.
  unfold when_primaryKey, key_columns.
  destruct (primaryKey m) as [pk|]; [destruct (truthy_string pk)|];
    try reflexivity.
  simpl. unfold bind. now destruct (f pk d) as [[[]|msg] d1].
Qed.

(** What building the index of one column does, for the two ways the
    code builds it ([buildIndex], [rebuildIndex]): with a file that can be
    opened the index of the rows is cached; otherwise the step throws.
    The tables are not touched. *)
Definition index_step (t : string) (rs : list Row) (f : string -> M unit)
  : Prop :=
  forall k d, exists o d1,
    f k d = (o, d1) /\ storage d1 = storage d /\ tables d1 = tables d /\
    ((o = Ok tt /\ openable t k = true /\
      indexes d1 = <[cacheKey t k := hashIndex k rs]> (indexes d))
     \/ (o = Throw (open_error (getIndexPath t k)) /\ openable t k = false)).

Lemma rebuildIndex_step (t : string) (rs : list Row) :
  index_step t rs (fun k => rebuildIndex t k rs ;; ret tt).
Proof.
  intros k d. unfold openable.
  destruct (file_of (getIndexPath t k)) as [p|] eqn:Hp.
  - destruct (rebuildIndex_run t k rs d p Hp) as (d1 & H1 & Hi1 & _ & Hs1 & Ht1 & _).
    exists (Ok tt), d1. rewrite (bind_Ok _ _ d _ d1 H1).
    split; [reflexivity|]. split; [exact Hs1|]. split; [exact Ht1|]. now left.
  - destruct (rebuildIndex_fails t k rs d Hp) as (d1 & H1 & _ & _ & Hs1 & Ht1).
    eexists. exists d1. rewrite (bind_Throw _ _ d _ d1 H1).
    split; [reflexivity|]. split; [exact Hs1|]. split; [exact Ht1|].
    right. split; reflexivity.
Qed.

(** The first column of a list whose index file cannot be opened. *)
Definition first_closed (t : string) (keys : list string) : option string :=
  find (fun c => negb (openable t c)) keys.

Lemma first_closed_None (t : string) (keys : list string) :
  first_closed t keys = None <-> forallb (openable t) keys = true.
Proof.
  unfold first_closed. induction keys as [|k keys IH]; simpl; [tauto|].
  destruct (openable t k); simpl; [exact IH|]. split; discriminate.
Qed.

(** A loop of such steps over a list of columns: it succeeds exactly when
    the index file of every column can be opened, and then leaves, for
    each of them and for every column whose index was up to date, the
    index of the rows in the cache; otherwise it throws the error of the
    first column whose index file cannot be opened. *)
Lemma for_each_index (t : string) (rs : list Row) (f : string -> M unit)
    (keys : list string) (d : DB) :
  index_step t rs f ->
  exists o d',
    for_each keys f d = (o, d') /\
    storage d' = storage d /\ tables d' = tables d /\
    (forallb (openable t) keys = true ->
     o = Ok tt /\
     forall c,
       indexes d !! cacheKey t c = Some (hashIndex c rs) \/ In c keys ->
       indexes d' !! cacheKey t c = Some (hashIndex c rs)) /\
    (o = Ok tt -> forallb (openable t) keys = true) /\
    (forall c, first_closed t keys = Some c ->
               o = Throw (open_error (getIndexPath t c))).
Proof.
  intros Hf. unfold first_closed.
  revert d. induction keys as [|k keys IH]; intros d; simpl.
  - exists (Ok tt), d. split; [reflexivity|]. split; [reflexivity|].
    split; [reflexivity|]. split; [|split; [reflexivity|discriminate]].
    intros _. split; [reflexivity|]. intros c [Hc|[]]. exact Hc.
  - destruct (Hf k d) as (o1 & d1 & H1 & Hs1 & Ht1 & [(-> & Hk & Hi1)|(-> & Hk)]).
    + destruct (IH d1) as (o & d' & H' & Hs' & Ht' & Hall & Hok & Hbad).
      exists o, d'. rewrite (bind_Ok _ _ d tt d1 H1).
      split; [exact H'|]. split; [congruence|]. split; [congruence|].
      rewrite Hk. simpl. split; [|split; [exact Hok|exact Hbad]].
      intros Hkeys. destruct (Hall Hkeys) as [-> Hi']. split; [reflexivity|].
      intros c Hc. apply Hi'. rewrite Hi1.
      destruct (String.eqb_spec k c) as [->|Hne].
      * left. apply lookup_insert_eq.
      * destruct Hc as [Hc|[Hc|Hc]]; [|congruence|now right].
        left. rewrite lookup_insert_ne; [exact Hc|].
        intros E. apply cacheKey_inj in E. congruence.
    + eexists. exists d1. rewrite (bind_Throw _ _ d _ d1 H1).
      split; [reflexivity|]. split; [exact Hs1|]. split; [exact Ht1|].
      rewrite Hk. simpl. split; [discriminate|]. split; [discriminate|].
      now intros c [= <-].
Qed.

(** [rebuildIndexes] on a stored table: it leaves the tables as they are;
    it succeeds exactly when the index files of the key columns can be
    opened, and then the cache holds the index of the rows for each of
    them. *)
Lemma rebuildIndexes_spec (t : string) (d : DB) (m : Metadata) (rs : list Row) :
  storage d !! t = Some (m, rs) ->
  exists o d',
    rebuildIndexes t d = (o, d') /\
    storage d' = storage d /\ tables d' = tables d /\
    (indexable t m = true ->
     o = Ok tt /\
     forall c, In c (key_columns m) ->
       indexes d' !! cacheKey t c = Some (hashIndex c rs)) /\
    (o = Ok tt -> indexable t m = true) /\
    (forall c, first_closed t (key_columns m) = Some c ->
               o = Throw (open_error (getIndexPath t c))).
Proof.
  intros Hs. unfold rebuildIndexes.
  rewrite (bind_Ok _ _ d m d (getTableMetadata_run _ _ _ _ Hs)).
  rewrite (bind_Ok _ _ d rs d (loadTableData_run _ _ _ _ Hs)).
  rewrite when_primaryKey_for_each.
  destruct (for_each_index t rs _ (key_columns m) d (rebuildIndex_step t rs))
    as (o & d' & H & Hs' & Ht' & Hall & Hok & Hbad).
  exists o, d'. split; [exact H|]. split; [exact Hs'|]. split; [exact Ht'|].
  split; [|split; [exact Hok|exact Hbad]].
  intros Hi. destruct (Hall Hi) as [-> Hc].
  split; [reflexivity|]. intros c Hin. apply Hc. now right.
Qed.

Lemma rebuildIndexes_run (t : string) (d : DB) (m : Metadata) (rs : list Row) :
  storage d !! t = Some (m, rs) ->
  indexable t m = true ->
  exists d',
    rebuildIndexes t d = (Ok tt, d') /\
    storage d' = storage d /\ tables d' = tables d /\
    forall pk, primaryKey m = Some pk -> truthy_string pk = true ->
               indexes d' !! cacheKey t pk = Some (hashIndex pk rs).
Proof.
  intros Hs Hi.
  destruct (rebuildIndexes_spec t d m rs Hs) as (o & d' & H & Hs' & Ht' & Hall & _ & _).
  destruct (Hall Hi) as [-> Hc].
  exists d'. split; [exact H|]. split; [exact Hs'|]. split; [exact Ht'|].
  intros pk Hpk Htr. apply Hc. apply In_key_columns. now left.
Qed.

(** A completed [rebuildIndexes] shows that the index files of the key
    columns can be opened. *)
Lemma rebuildIndexes_Ok (t : string) (d d' : DB) (m : Metadata) (rs : list Row) :
  storage d !! t = Some (m, rs) ->
  rebuildIndexes t d = (Ok tt, d') -> indexable t m = true.
Proof.
  intros Hs H.
  destruct (rebuildIndexes_spec t d m rs Hs) as (o & d1 & H1 & _ & _ & _ & Hok & _).
  rewrite H in H1. injection H1 as <- <-. now apply Hok.
Qed.

End RunningStorage.

(** ** Values and rows through JSON *)

Section Json.
Context `{RT : Runtime}.

(** The values the store keeps as they are: strings, booleans and finite
    numbers. *)
Definition persistent (v : value) : bool :=
  match v with
  | VUndefined | VNull => false
  | VNum n => match num_json n with Some _ => true | None => false end
  | VBool _ | VStr _ => true
  end.

Lemma json_value_idem (v : value) : json_value (json_value v) = json_value v.
Proof.
  destruct v as [| |b|n|s]; simpl; trivial.
  destruct (num_json n) as [m|] eqn:E; simpl; [|reflexivity].
  now rewrite (num_json_idem n m E).
Qed.

Lemma json_value_defined (v : value) : strictEq (json_value v) VUndefined = false.
Proof.
  destruct v as [| |b|n|s]; simpl; trivial. now destruct (num_json n).
Qed.

Lemma json_row_idem (r : Row) : json_row (json_row r) = json_row r.
Proof.
  unfold json_row. induction r as [|[k v] r IH]; simpl; [reflexivity|].
  destruct (strictEq v VUndefined) eqn:E; simpl; [exact IH|].
  rewrite json_value_defined. simpl. rewrite json_value_idem. f_equal.
  exact IH.
Qed.

(** A property that is defined is read from the stored row as its JSON
    value. *)
Lemma get_json_row (r : Row) (k : string) :
  strictEq (get r k) VUndefined = false ->
  get (json_row r) k = json_value (get r k).
Proof.
  unfold json_row. induction r as [|[k' v] r IH]; simpl; [discriminate|].
  destruct (String.eqb k' k) eqn:Ek.
  - intros Hv. rewrite Hv. simpl. now rewrite Ek.
  - intros Hv. destruct (strictEq v VUndefined); simpl; [now apply IH|].
    rewrite Ek. now apply IH.
Qed.

Lemma persistent_defined (v : value) :
  persistent v = true -> is_nullish v = false.
Proof. now destruct v. Qed.

Lemma nullish_defined (v : value) :
  is_nullish v = false -> strictEq v VUndefined = false.
Proof. now destruct v. Qed.

Lemma strictEq_sym (a b : value) : strictEq a b = strictEq b a.
Proof.
  destruct a as [| |x|x|x], b as [| |y|y|y]; simpl; trivial.
  - now destruct x, y.
  - apply num_eqb_sym.
  - apply String.eqb_sym.
Qed.

(** A value strictly equal to a persistent value is strictly equal to
    what the store keeps of it. *)
Lemma strictEq_json (v w : value) :
  persistent v = true -> strictEq w v = true ->
  strictEq (json_value v) w = true.
Proof.
  destruct v as [| |b|n|s]; simpl; try discriminate.
  - intros _ H. rewrite strictEq_sym in H. exact H.
  - destruct (num_json n) as [m|] eqn:E; [|discriminate]. intros _.
    destruct w as [| |y|y|y]; simpl; try discriminate. intros H.
    apply (num_eqb_trans m n y); [now apply num_json_eqb|].
    now rewrite num_eqb_sym.
  - intros _ H. rewrite strictEq_sym in H. exact H.
Qed.

Lemma persistent_sameValueZero (x v : value) :
  persistent v = true -> sameValueZero x v = strictEq x v.
Proof.
  destruct v as [| |b|n|s]; simpl; try discriminate;
    destruct x as [| |y|y|y]; simpl; trivial.
  destruct (num_json n) as [m|] eqn:E; [|discriminate]. intros _.
  apply num_json_eqb in E. rewrite num_eqb_sym in E.
  apply num_eqb_not_NaN in E. rewrite E, andb_false_r. apply orb_false_r.
Qed.

Lemma persistent_json_same (v : value) :
  persistent v = true ->
  is_nullish (json_value v) = false /\ sameValueZero (json_value v) v = true.
Proof.
  destruct v as [| |b|n|s]; simpl; try discriminate.
  - intros _. split; [reflexivity|]. now destruct b.
  - destruct (num_json n) as [m|] eqn:E; [|discriminate]. simpl.
    intros _. split; [reflexivity|]. now rewrite (num_json_eqb n m E).
  - intros _. split; [reflexivity|]. apply String.eqb_refl.
Qed.

Lemma map_fixed {A} (f : A -> A) (l : list A) (x : A) :
  map f l = l -> In x l -> f x = x.
Proof.
  induction l as [|y l IH]; simpl; [tauto|].
  intros [= Hy Hl] [<-|Hin]; auto.
Qed.

End Json.

(** ** Inserting rows *)

Section Inserting.
Context `{RT : Runtime}.

(** The steps of [insert] on a stored table: the checks run in the order
    [validateRow], [validatePrimaryKey], [validateUniqueKeys] on the
    prepared row and the rows loaded, and only when all three pass is the
    prepared row appended. *)
Lemma insert_run (md : Metadata) (t : string) (r : Row) (d : DB)
    (m : Metadata) (rs : list Row) :
  storage d !! t = Some (m, rs) ->
  insert md t r d
  = match validateRow md (prepareRow md r) with
    | Throw msg => (Throw msg, d)
    | Ok _ =>
        match validatePrimaryKey md (prepareRow md r) rs with
        | Throw msg => (Throw msg, d)
        | Ok _ =>
            match validateUniqueKeys md (prepareRow md r) rs with
            | Throw msg => (Throw msg, d)
            | Ok _ =>
                (Ok (prepareRow md r),
                 with_storage
                   (fun st =>
                      <[t := (m, map json_row (rs ++ [prepareRow md r]))]> st)
                   d)
            end
        end
    end.
Proof.
  intros Hs. unfold insert.
  rewrite (bind_Ok _ _ d rs d (loadTableData_run _ _ _ _ Hs)).
  unfold bind at 1. unfold lift at 1.
  destruct (validateRow md (prepareRow md r)); [|reflexivity].
  unfold bind at 1. unfold lift at 1.
  destruct (validatePrimaryKey md (prepareRow md r) rs); [|reflexivity].
  unfold bind at 1. unfold lift at 1.
  destruct (validateUniqueKeys md (prepareRow md r) rs); [|reflexivity].
  exact (insertRow_run _ _ _ _ _ Hs).
Qed.

Lemma find_equal_Some (c : string) (v : value) (rs : list Row) (r0 : Row) :
  In r0 rs -> strictEq (get r0 c) v = true ->
  exists r1, find_equal c v rs = Some r1.
Proof.
  intros Hin Heq. unfold find_equal.
  destruct (find (fun r => strictEq (get r c) v) rs) as [r1|] eqn:E; [eauto|].
  pose proof (List.find_none _ _ E r0 Hin) as H. simpl in H. congruence.
Qed.

Lemma find_equal_None (c : string) (v : value) (rs : list Row) (r0 : Row) :
  find_equal c v rs = None -> In r0 rs -> strictEq (get r0 c) v = false.
Proof. intros E Hin. exact (List.find_none _ _ E r0 Hin). Qed.

(** [validateRow] returns [true] or throws. *)
Lemma validateRow_true (md : Metadata) (p : Row) (b : bool) :
  validateRow md p = Ok b -> b = true.
Proof.
  unfold validateRow. destruct (0 <? _)%nat; [discriminate|]. now intros [= <-].
Qed.

(** The primary-key check on a row whose key value some stored row
    already holds. *)
Lemma validatePrimaryKey_duplicate (md : Metadata) (pk : string) (p : Row)
    (rs : list Row) (r0 : Row) :
  primaryKey md = Some pk -> truthy_string pk = true ->
  is_nullish (get p pk) = false ->
  In r0 rs -> strictEq (get r0 pk) (get p pk) = true ->
  validatePrimaryKey md p rs
  = Throw ("Duplicate primary key value: " ++ ToString (get p pk)).
Proof.
  intros Hpk Htr Hnn Hin Heq. unfold validatePrimaryKey.
  rewrite Hpk, Htr, Hnn. simpl.
  destruct (find_equal_Some pk (get p pk) rs r0 Hin Heq) as [r1 ->].
  reflexivity.
Qed.

(** The primary-key check passes exactly on a key value that is not null
    and that no stored row holds. *)
Lemma validatePrimaryKey_Ok (md : Metadata) (pk : string) (p : Row)
    (rs : list Row) (b : bool) :
  primaryKey md = Some pk -> truthy_string pk = true ->
  validatePrimaryKey md p rs = Ok b ->
  is_nullish (get p pk) = false /\
  forall r0, In r0 rs -> strictEq (get r0 pk) (get p pk) = false.
Proof.
  intros Hpk Htr. unfold validatePrimaryKey. rewrite Hpk, Htr. simpl.
  destruct (is_nullish (get p pk)); [discriminate|].
  destruct (find_equal pk (get p pk) rs) eqn:E; [discriminate|].
  intros _. split; [reflexivity|]. intros r0. now apply find_equal_None.
Qed.

(** What a successful [executeInsert] returns and leaves behind. *)
Lemma executeInsert_Ok (t : string) (r : Row) (d d1 : DB) (res : Result)
    (m : Metadata) (rs : list Row) :
  storage d !! t = Some (m, rs) ->
  (tables d !! t = None \/ tables d !! t = Some m) ->
  executeInsert t r d = (Ok res, d1) ->
  validateRow m (prepareRow m r) = Ok true /\
  (exists b, validatePrimaryKey m (prepareRow m r) rs = Ok b) /\
  (exists b, validateUniqueKeys m (prepareRow m r) rs = Ok b) /\
  res = {| success := true;
           message := Some ("Row inserted into '" ++ t ++ "'");
           rows := None; count := None; row := Some (prepareRow m r);
           table := None; error := None |} /\
  storage d1 = <[t := (m, map json_row (rs ++ [prepareRow m r]))]> (storage d) /\
  tables d1 !! t = Some m /\
  forall pk, primaryKey m = Some pk -> truthy_string pk = true ->
    indexes d1 !! cacheKey t pk
    = Some (hashIndex pk (map json_row (rs ++ [prepareRow m r]))).
Proof.
  intros Hs Ht H. unfold executeInsert in H.
  destruct (getTable_run t d m rs Hs Ht) as (d0 & Hg & Hs0 & _ & _ & _ & Ht0).
  rewrite (bind_Ok _ _ d m d0 Hg) in H.
  assert (Hs0' : storage d0 !! t = Some (m, rs)) by now rewrite Hs0.
  apply bind_Ok_inv in H as (p & d2 & Hi & H).
  rewrite (insert_run m t r d0 m rs Hs0') in Hi.
  destruct (validateRow m (prepareRow m r)) as [b1|] eqn:E1; [|discriminate].
  destruct (validatePrimaryKey m (prepareRow m r) rs) as [b2|] eqn:E2;
    [|discriminate].
  destruct (validateUniqueKeys m (prepareRow m r) rs) as [b3|] eqn:E3;
    [|discriminate].
  injection Hi as <- <-.
  set (rows1 := map json_row (rs ++ [prepareRow m r])) in *.
  set (d2 := with_storage _ d0) in H.
  assert (Hs2 : storage d2 !! t = Some (m, rows1))
    by (unfold d2; simpl; apply lookup_insert_eq).
  apply bind_Ok_inv in H as ([] & d3 & Hr & H).
  pose proof (rebuildIndexes_Ok t d2 d3 m rows1 Hs2 Hr) as Hx.
  destruct (rebuildIndexes_run t d2 m rows1 Hs2 Hx) as (d3' & Hr' & Hs3 & Ht3 & Hi3).
  rewrite Hr in Hr'. injection Hr' as <-.
  apply ret_inv in H as [<- <-].
  rewrite (validateRow_true _ _ _ E1). split; [reflexivity|].
  split; [eauto|]. split; [eauto|]. split; [reflexivity|].
  split; [rewrite Hs3; unfold d2; simpl; now rewrite Hs0|].
  split; [rewrite Ht3; unfold d2; simpl; rewrite Ht0; apply lookup_insert_eq|].
  exact Hi3.
Qed.

(** What a failed [executeInsert] leaves behind: the table object may have
    been cached, nothing else has changed. *)
Lemma executeInsert_Throw (t : string) (r : Row) (d : DB) (m : Metadata)
    (rs : list Row) (msg : string) :
  storage d !! t = Some (m, rs) ->
  (tables d !! t = None \/ tables d !! t = Some m) ->
  (validateRow m (prepareRow m r) = Throw msg
   \/ (exists b, validateRow m (prepareRow m r) = Ok b)
      /\ (validatePrimaryKey m (prepareRow m r) rs = Throw msg
          \/ (exists b, validatePrimaryKey m (prepareRow m r) rs = Ok b)
             /\ validateUniqueKeys m (prepareRow m r) rs = Throw msg)) ->
  exists d',
    executeInsert t r d = (Throw msg, d') /\
    storage d' = storage d /\ indexes d' = indexes d /\
    indexFiles d' = indexFiles d /\ clock d' = clock d /\
    tables d' = <[t := m]> (tables d) /\
    (tables d !! t = Some m -> d' = d).
Proof.
  intros Hs Ht Hv. unfold executeInsert.
  assert (Hd : tables d !! t = Some m ->
               getTable t d = (Ok m, d)).
  { intros Hc. unfold getTable, bind, gets. now rewrite Hc. }
  destruct (getTable_run t d m rs Hs Ht) as (d0 & Hg & Hs0 & Hi0 & Hf0 & Hc0 & Ht0).
  exists d0. rewrite (bind_Ok _ _ d m d0 Hg).
  assert (Hs0' : storage d0 !! t = Some (m, rs)) by now rewrite Hs0.
  split.
  - apply bind_Throw. rewrite (insert_run m t r d0 m rs Hs0').
    destruct Hv as [->|[[b ->] [->|[[b' ->] ->]]]]; reflexivity.
  - repeat split; trivial. intros Hc. rewrite (Hd Hc) in Hg. congruence.
Qed.

End Inserting.

Lemma filter_none {A} (f : A -> bool) (l : list A) :
  (forall x, In x l -> f x = false) -> List.filter f l = [].
Proof.
  induction l as [|x l IH]; simpl; [reflexivity|]. intros H.
  rewrite (H x (or_introl eq_refl)). apply IH. intros y Hy. apply H. now right.
Qed.

Section KeyUniqueness.
Context `{RT : Runtime}.

(** An insert whose prepared primary-key value is not null and is strictly
    equal to that of a stored row throws and writes nothing: the error
    of [validateRow] when the prepared row is invalid, the duplicate-key
    error otherwise. *)
Theorem duplicate_key_insert_rejected (t : string) (r : Row) (d : DB)
    (m : Metadata) (rs : list Row) (pk : string) (r0 : Row) :
  storage d !! t = Some (m, rs) ->
  (tables d !! t = None \/ tables d !! t = Some m) ->
  primaryKey m = Some pk -> truthy_string pk = true ->
  In r0 rs ->
  is_nullish (get (prepareRow m r) pk) = false ->
  strictEq (get r0 pk) (get (prepareRow m r) pk) = true ->
  exists msg d',
    execute (INSERT t r) d = (Throw msg, d') /\
    storage d' = storage d /\ indexes d' = indexes d /\
    indexFiles d' = indexFiles d /\
    (tables d !! t = Some m -> d' = d) /\
    (validateRow m (prepareRow m r) = Ok true ->
     msg = "Duplicate primary key value: "
           ++ ToString (get (prepareRow m r) pk)) /\
    (forall e, validateRow m (prepareRow m r) = Throw e -> msg = e).
Proof.
  intros Hs Ht Hpk Htr Hin Hnn Heq.
  pose proof (validatePrimaryKey_duplicate m pk _ rs r0 Hpk Htr Hnn Hin Heq)
    as Hdup.
  destruct (validateRow m (prepareRow m r)) as [b|e] eqn:Ev.
  - destruct (executeInsert_Throw t r d m rs _ Hs Ht
                (or_intror (conj (ex_intro _ b Ev) (or_introl Hdup))))
      as (d' & He & Hs' & Hi' & Hf' & _ & _ & Hd').
    eexists. exists d'. split; [exact He|]. repeat split; trivial.
    intros e [=].
  - destruct (executeInsert_Throw t r d m rs e Hs Ht (or_introl Ev))
      as (d' & He & Hs' & Hi' & Hf' & _ & _ & Hd').
    exists e, d'. split; [exact He|]. repeat split; trivial.
    + intros [=].
    + now intros e' [= <-].
Qed.

(** After a row was inserted whose prepared primary-key value [v] is a
    string, a boolean or a finite number, a second insert with a strictly
    equal prepared key value throws and leaves the whole state as it was. *)
Theorem second_insert_rejected (t : string) (r1 r2 : Row) (d d1 : DB)
    (res : Result) (m : Metadata) (rs : list Row) (pk : string) :
  storage d !! t = Some (m, rs) ->
  (tables d !! t = None \/ tables d !! t = Some m) ->
  primaryKey m = Some pk -> truthy_string pk = true ->
  execute (INSERT t r1) d = (Ok res, d1) ->
  persistent (get (prepareRow m r1) pk) = true ->
  strictEq (get (prepareRow m r2) pk) (get (prepareRow m r1) pk) = true ->
  exists msg,
    execute (INSERT t r2) d1 = (Throw msg, d1) /\
    (validateRow m (prepareRow m r2) = Ok true ->
     msg = "Duplicate primary key value: "
           ++ ToString (get (prepareRow m r2) pk)) /\
    (forall e, validateRow m (prepareRow m r2) = Throw e -> msg = e).
Proof.
  intros Hs Ht Hpk Htr H1 Hp Heq. simpl in H1.
  destruct (executeInsert_Ok t r1 d d1 res m rs Hs Ht H1)
    as (_ & _ & _ & _ & Hs1 & Ht1 & _).
  set (p1 := prepareRow m r1) in *. set (p2 := prepareRow m r2) in *.
  assert (Hst : storage d1 !! t = Some (m, map json_row (rs ++ [p1])))
    by (rewrite Hs1; apply lookup_insert_eq).
  assert (Hin : In (json_row p1) (map json_row (rs ++ [p1]))).
  { apply in_map, in_or_app. right. now left. }
  assert (Hnn2 : is_nullish (get p2 pk) = false).
  { destruct (get p2 pk), (get p1 pk); simpl in *; congruence. }
  assert (Hdup : strictEq (get (json_row p1) pk) (get p2 pk) = true).
  { rewrite get_json_row.
    - now apply strictEq_json.
    - apply nullish_defined. now apply persistent_defined. }
  pose proof (validatePrimaryKey_duplicate m pk p2 _ (json_row p1)
                Hpk Htr Hnn2 Hin Hdup) as Hthrow.
  destruct (validateRow m p2) as [b|e] eqn:Ev.
  - destruct (executeInsert_Throw t r2 d1 m _ _ Hst (or_intror Ht1)
                (or_intror (conj (ex_intro _ b Ev) (or_introl Hthrow))))
      as (d' & He & _ & _ & _ & _ & _ & Hd).
    rewrite (Hd Ht1) in He. eexists. split; [exact He|].
    split; [reflexivity|]. intros e [=].
  - destruct (executeInsert_Throw t r2 d1 m _ e Hst (or_intror Ht1)
                (or_introl Ev))
      as (d' & He & _ & _ & _ & _ & _ & Hd).
    rewrite (Hd Ht1) in He. exists e. split; [exact He|].
    split; [intros [=]|]. now intros e' [= <-].
Qed.

(** Round trip: after a row was inserted whose prepared primary-key value
    [v] is a string, a boolean or a finite number, [SELECT *] with the
    condition [pk = v] returns the stored row, and it alone. *)
Theorem insert_then_select_by_key (t : string) (r : Row) (d d1 : DB)
    (res : Result) (m : Metadata) (rs : list Row) (pk : string)
    (tableAlias : option string) :
  storage d !! t = Some (m, rs) ->
  map json_row rs = rs ->
  (tables d !! t = None \/ tables d !! t = Some m) ->
  primaryKey m = Some pk -> truthy_string pk = true ->
  execute (INSERT t r) d = (Ok res, d1) ->
  persistent (get (prepareRow m r) pk) = true ->
  row res = Some (prepareRow m r) /\
  storage d1 !! t = Some (m, (rs ++ [json_row (prepareRow m r)])%list) /\
  execute (SELECT ["*"] t tableAlias None
             (Some (Simple pk "=" (get (prepareRow m r) pk)))) d1
  = (Ok {| success := true; message := None;
           rows := Some [Some (json_row (prepareRow m r))];
           count := Some 1%nat; row := None; table := None; error := None |},
     d1).
Proof.
  intros Hs Hj Ht Hpk Htr H1 Hp. simpl in H1.
  destruct (executeInsert_Ok t r d d1 res m rs Hs Ht H1)
    as (_ & [b Hk] & _ & -> & Hs1 & Ht1 & Hi1).
  set (p := prepareRow m r) in *.
  destruct (validatePrimaryKey_Ok m pk p rs b Hpk Htr Hk) as [Hnn Hfresh].
  assert (Hrows : map json_row (rs ++ [p]) = (rs ++ [json_row p])%list)
    by (rewrite map_app, Hj; reflexivity).
  rewrite Hrows in Hs1. specialize (Hi1 pk Hpk Htr). rewrite Hrows in Hi1.
  assert (Hst : storage d1 !! t = Some (m, (rs ++ [json_row p])%list))
    by (rewrite Hs1; apply lookup_insert_eq).
  split; [reflexivity|]. split; [exact Hst|].
  simpl. unfold executeSelect.
  assert (Hg : getTable t d1 = (Ok m, d1))
    by (unfold getTable, bind, gets; now rewrite Ht1).
  rewrite (bind_Ok _ _ d1 m d1 Hg).
  unfold getAll. rewrite (bind_Ok _ _ d1 _ d1 (loadTableData_run _ _ _ _ Hst)).
  rewrite (bind_Ok _ _ d1 _ d1 (filterRows_index _ t pk (get p pk) d1 Htr Hi1)).
  assert (Hf : List.filter (indexed pk (get p pk)) (rs ++ [json_row p])
               = [json_row p]).
  { rewrite List.filter_app. simpl.
    destruct (persistent_json_same _ Hp) as [Hn Hsv].
    unfold indexed at 2.
    rewrite (get_json_row p pk (nullish_defined _ Hnn)), Hn, Hsv. simpl.
    rewrite (filter_none (indexed pk (get p pk)) rs); [reflexivity|].
    intros r0 Hin. unfold indexed.
    rewrite (persistent_sameValueZero _ _ Hp), (Hfresh r0 Hin).
    apply andb_false_r. }
  rewrite Hf. reflexivity.
Qed.

End KeyUniqueness.

Lemma run_pairing {RT : Runtime} {A} (m : M A) (d : DB) (a : A) :
  fst (m d) = Ok a -> m d = (Ok a, snd (m d)).
Proof. destruct (m d) as [o d']. simpl. now intros ->. Qed.

Section KeyUniquenessExamples.
#[local] Existing Instance DecRuntime.

Definition db_empty_t : DB :=
  after ["CREATE TABLE t (id INTEGER PRIMARY KEY, name TEXT)"] (emptyDB clock0).

Definition meta_t : Metadata :=
  {| tableName := "t";
     columns := [{| name := "id"; type := "INTEGER";
                    constraints := ["PRIMARY_KEY"; "NOT_NULL"] |};
                 {| name := "name"; type := "TEXT"; constraints := [] |}];
     primaryKey := Some "id";
     uniqueKeys := [];
     createdAt := "2026-01-10T00:00:00.000Z" |}.

Definition row_1a : Row := [("id", VNum (DFin 1 0)); ("name", VStr "a")].
Definition row_1b : Row := [("id", VNum (DFin 1 0)); ("name", VStr "b")].

Lemma db_t_storage : storage db_t !! "t" = Some (meta_t, [row_1a]).
Proof. reflexivity. Qed.

Lemma db_t_tables : tables db_t !! "t" = Some meta_t.
Proof. reflexivity. Qed.

Lemma duplicate_key_insert_rejected_witness :
  exists msg d',
    execute (INSERT "t" row_1b) db_t = (Throw msg, d') /\
    storage d' = storage db_t /\
    msg = "Duplicate primary key value: 1".
Proof.
  destruct (duplicate_key_insert_rejected (RT := DecRuntime)
              "t" row_1b db_t meta_t [row_1a] "id" row_1a
              db_t_storage (or_intror db_t_tables) eq_refl eq_refl
              (or_introl eq_refl) eq_refl eq_refl)
    as (msg & d' & He & Hs & _ & _ & _ & Hm & _).
  exists msg, d'. split; [exact He|]. split; [exact Hs|].
  exact (Hm eq_refl).
Defined.

Lemma db_empty_t_storage : storage db_empty_t !! "t" = Some (meta_t, []).
Proof. reflexivity. Qed.

Lemma db_empty_t_tables : tables db_empty_t !! "t" = Some meta_t.
Proof. reflexivity. Qed.

Definition inserted_1a : Result :=
  {| success := true; message := Some "Row inserted into 't'";
     rows := None; count := None; row := Some row_1a; table := None;
     error := None |}.

Lemma insert_1a_run :
  execute (INSERT "t" row_1a) db_empty_t
  = (Ok inserted_1a, snd (execute (INSERT "t" row_1a) db_empty_t)).
Proof. apply run_pairing. reflexivity. Qed.

Lemma second_insert_rejected_witness :
  let d1 := snd (execute (INSERT "t" row_1a) db_empty_t) in
  exists msg,
    execute (INSERT "t" row_1b) d1 = (Throw msg, d1) /\
    msg = "Duplicate primary key value: 1".
Proof.
  intros d1.
  destruct (second_insert_rejected (RT := DecRuntime)
              "t" row_1a row_1b db_empty_t d1 inserted_1a meta_t [] "id"
              db_empty_t_storage (or_intror db_empty_t_tables)
              eq_refl eq_refl insert_1a_run eq_refl eq_refl)
    as (msg & He & Hm & _).
  exists msg. split; [exact He|]. exact (Hm eq_refl).
Defined.

Lemma insert_then_select_by_key_witness :
  let d1 := snd (execute (INSERT "t" row_1a) db_empty_t) in
  execute (SELECT ["*"] "t" None None
             (Some (Simple "id" "=" (VNum (DFin 1 0))))) d1
  = (Ok {| success := true; message := None; rows := Some [Some row_1a];
           count := Some 1%nat; row := None; table := None; error := None |},
     d1).
Proof.
  intros d1.
  exact (proj2 (proj2
           (insert_then_select_by_key (RT := DecRuntime)
              "t" row_1a db_empty_t d1 inserted_1a meta_t [] "id" None
              db_empty_t_storage eq_refl (or_intror db_empty_t_tables)
              eq_refl eq_refl insert_1a_run eq_refl))).
Defined.

Definition db_float : DB :=
  after ["CREATE TABLE f (id FLOAT PRIMARY KEY)"] (emptyDB clock0).

Definition row_infinity : Row := [("id", VNum (DInf false))].
Definition row_null_id : Row := [("id", VNull)].

Definition inserted_infinity : Result :=
  {| success := true; message := Some "Row inserted into 'f'";
     rows := None; count := None; row := Some row_infinity; table := None;
     error := None |}.

(** C3 fails on the code: the prepared key value [Infinity] passes the
    checks of [insert] and is written to the data file as [null]; the
    second insert of the same value compares it with the stored [null],
    finds no duplicate and succeeds, and the table holds two rows under a
    primary key that is [null] in both. *)
Theorem infinite_key_inserted_twice :
  let sql := "INSERT INTO f (id) VALUES ('Infinity')" in
  let d1 := snd (query sql db_float) in
  let d2 := snd (query sql d1) in
  parse sql = Ok (INSERT "f" [("id", VStr "Infinity")])
  /\ fst (query sql db_float) = inserted_infinity
  /\ snd <$> storage d1 !! "f" = Some [row_null_id]
  /\ strictEq (get row_infinity "id") (get row_infinity "id") = true
  /\ fst (query sql d1) = inserted_infinity
  /\ snd <$> storage d2 !! "f" = Some [row_null_id; row_null_id].
Proof. intros sql d1 d2. repeat split; reflexivity. Qed.

(** C4 fails on the code: after the insert of a row whose prepared key
    value is [Infinity], SELECT * with the condition [id = Infinity]
    returns no row: the stored row holds [null] under the key, and the
    index of the key holds no entry for it. *)
Theorem infinite_key_not_selected :
  let sql := "INSERT INTO f (id) VALUES ('Infinity')" in
  let d1 := snd (query sql db_float) in
  let none := {| success := true; message := None; rows := Some [];
                 count := Some 0%nat; row := None; table := None;
                 error := None |} in
  fst (query sql db_float) = inserted_infinity
  /\ snd <$> storage d1 !! "f" = Some [row_null_id]
  /\ indexes d1 !! cacheKey "f" "id" = Some []
  /\ fst (execute (SELECT ["*"] "f" None None
                     (Some (Simple "id" "=" (get row_infinity "id")))) d1)
     = Ok none
  /\ fst (query "SELECT * FROM f WHERE id = 'Infinity'" d1) = none
  /\ fst (query "SELECT * FROM f" d1)
     = {| success := true; message := None; rows := Some [Some row_null_id];
          count := Some 1%nat; row := None; table := None; error := None |}.
Proof. intros sql d1 none. repeat split; reflexivity. Qed.

End KeyUniquenessExamples.

(** ** Conditions that evaluate *)

Section ValidConditions.
Context `{RT : Runtime}.

(** A condition whose comparisons all use one of the six operators. *)
Fixpoint valid (c : Condition) : bool :=
  match c with
  | Simple _ operator _ => one_of operator operators
  | And conditions => forallb valid conditions
  | Or conditions => forallb valid conditions
  end.

(** The outcome of a condition on a row, [false] when it throws. *)
Definition holds (c : Condition) (r : Row) : bool :=
  match evaluateCondition r c with
  | Ok b => b
  | Throw _ => false
  end.

Lemma compare_valid (operator : string) (v w : value) :
  one_of operator operators = true -> exists b, compare operator v w = Ok b.
Proof.
  unfold one_of, operators, compare. simpl.
  destruct (String.eqb operator "=") eqn:E1; [eauto|].
  destruct (String.eqb operator "!=") eqn:E2; [eauto|].
  destruct (String.eqb operator ">") eqn:E3; [eauto|].
  destruct (String.eqb operator "<") eqn:E4; [eauto|].
  destruct (String.eqb operator ">=") eqn:E5; [eauto|].
  destruct (String.eqb operator "<=") eqn:E6; [eauto|].
  discriminate.
Qed.

(** A valid condition evaluates to a boolean on every row: the error
    [Unknown operator] is never thrown. *)
Lemma evaluateCondition_valid (r : Row) :
  forall c, valid c = true -> exists b, evaluateCondition r c = Ok b.
Proof.
  fix IH 1. intros [column operator v|conditions|conditions].
  - intros H. apply compare_valid. exact H.
  - simpl. revert conditions. fix IHl 1. intros [|c l]; simpl; [eauto|].
    intros H. apply andb_prop in H as [Hc Hl].
    destruct (IH c Hc) as [[|] ->]; [|eauto]. exact (IHl l Hl).
  - simpl. revert conditions. fix IHl 1. intros [|c l]; simpl; [eauto|].
    intros H. apply andb_prop in H as [Hc Hl].
    destruct (IH c Hc) as [[|] ->]; [eauto|]. exact (IHl l Hl).
Qed.

Lemma evaluateCondition_holds (r : Row) (c : Condition) :
  valid c = true -> evaluateCondition r c = Ok (holds c r).
Proof.
  intros H. unfold holds. now destruct (evaluateCondition_valid r c H) as [b ->].
Qed.

Lemma parseSimpleCondition_loop_valid (ops : list string) (s : string)
    (c : Condition) :
  (forall op, In op ops -> In op operators) ->
  parseSimpleCondition_loop ops s = Ok c -> valid c = true.
Proof.
  induction ops as [|op ops IH]; cbn [parseSimpleCondition_loop];
    [discriminate|]. intros Hin.
  destruct (includes s op).
  - destruct (parseValue_at _); [|discriminate]. intros [= <-].
    unfold valid, one_of. apply existsb_exists. exists op.
    split; [apply Hin; now left|apply String.eqb_refl].
  - apply IH. intros op' H. apply Hin. now right.
Qed.

Lemma parseSimpleCondition_valid (s : string) (c : Condition) :
  parseSimpleCondition s = Ok c -> valid c = true.
Proof. apply parseSimpleCondition_loop_valid. auto. Qed.

Lemma map_throw_forallb {A B} (f : A -> outcome B) (P : B -> bool)
    (l : list A) (l' : list B) :
  (forall x y, f x = Ok y -> P y = true) ->
  map_throw f l = Ok l' -> forallb P l' = true.
Proof.
  intros Hf. revert l'. induction l as [|x l IH]; simpl; intros l'.
  - now intros [= <-].
  - destruct (f x) as [y|] eqn:E; [|discriminate].
    destruct (map_throw f l) as [r|]; [|discriminate].
    intros [= <-]. simpl. now rewrite (Hf x y E), (IH r).
Qed.

Lemma parseWhereClause_valid (whereStr : string) (c : Condition) :
  parseWhereClause whereStr = Ok c -> valid c = true.
Proof.
  intros H. unfold parseWhereClause in H.
  destruct (includes (toUpperCase whereStr) " AND ").
  - destruct (map_throw _ _) as [l|] eqn:E; [|discriminate].
    injection H as <-. simpl.
    apply (map_throw_forallb _ _ _ _ (fun x y => parseSimpleCondition_valid _ y) E).
  - destruct (includes (toUpperCase whereStr) " OR ").
    + destruct (map_throw _ _) as [l|] eqn:E; [|discriminate].
      injection H as <-. simpl.
      apply (map_throw_forallb _ _ _ _ (fun x y => parseSimpleCondition_valid _ y) E).
    + now apply parseSimpleCondition_valid in H.
Qed.

(** Every condition the parser returns is valid: no WHERE clause that
    parses can make the executor throw [Unknown operator]. *)
Theorem parseWhereClause_evaluates (whereStr : string) (c : Condition) :
  parseWhereClause whereStr = Ok c ->
  valid c = true /\ forall r, evaluateCondition r c = Ok (holds c r).
Proof.
  intros H. pose proof (parseWhereClause_valid whereStr c H) as Hv.
  split; [exact Hv|]. intros r. revert Hv. generalize c. clear.
  intros c Hv. unfold holds.
  destruct (evaluateCondition_valid r c Hv) as [b ->]. reflexivity.
Qed.

End ValidConditions.

Section ValidConditionExamples.
#[local] Existing Instance DecRuntime.

Lemma parseWhereClause_evaluates_witness :
  let c := And [Simple "age" ">=" (VNum (DFin 25 0));
                Simple "name" "!=" (VStr "x")] in
  evaluateCondition [("age", VNum (DFin 30 0)); ("name", VStr "y")] c
  = Ok true.
Proof.
  intros c.
  exact (proj2 (parseWhereClause_evaluates (RT := DecRuntime)
                  "age >= 25 AND name != 'x'" c eq_refl)
               [("age", VNum (DFin 30 0)); ("name", VStr "y")]).
Defined.

End ValidConditionExamples.

(** ** UPDATE and DELETE *)

Section Mutations.
Context `{RT : Runtime}.

(** [getTable] succeeds on every stored table, whatever the cache holds,
    and changes the cache of table objects at most. *)
Lemma getTable_stored (t : string) (d : DB) (m : Metadata) (rs : list Row) :
  storage d !! t = Some (m, rs) ->
  exists md d0,
    getTable t d = (Ok md, d0) /\ storage d0 = storage d /\
    indexes d0 = indexes d /\ indexFiles d0 = indexFiles d /\
    clock d0 = clock d.
Proof.
  intros Hs. unfold getTable, bind, gets.
  destruct (tables d !! t) as [md|].
  - exists md, d. now repeat split.
  - rewrite (getTableMetadata_run _ _ _ _ Hs). eexists. eexists.
    split; [reflexivity|]. now repeat split.
Qed.

(** Whether the WHERE clause of a statement selects a row; every row when
    there is no clause. *)
Definition selects (cond : option Condition) (r : Row) : bool :=
  match cond with
  | Some c => holds c r
  | None => true
  end.

Definition valid_where (cond : option Condition) : bool :=
  match cond with
  | Some c => valid c
  | None => true
  end.

(** The rows an UPDATE writes: the selected rows merged with the
    assignments, the others as they were. *)
Definition updatedRows (updates : Row) (cond : option Condition)
    (rs : list Row) : list Row :=
  map (fun r => if selects cond r then spread r updates else r) rs.

Lemma update_rows_valid (updates : Row) (cond : option Condition)
    (rs : list Row) (n : nat) :
  valid_where cond = true ->
  update_rows updates
    (match cond with
     | Some c => Some (fun r => evaluateCondition r c)
     | None => None
     end) rs n
  = Ok (updatedRows updates cond rs,
        (n + length (List.filter (selects cond) rs))%nat).
Proof.
  intros Hv. revert n. induction rs as [|r rs IH]; intros n; simpl.
  - now rewrite Nat.add_0_r.
  - destruct cond as [c|]; simpl in *.
    + rewrite (evaluateCondition_holds r c Hv).
      destruct (holds c r); rewrite IH; simpl; do 2 f_equal; lia.
    + rewrite IH. simpl. do 2 f_equal. lia.
Qed.

(** The WHERE clause of a statement. *)
Definition where_of (q : Query) : option Condition :=
  match q with
  | SELECT _ _ _ _ cond | UPDATE _ _ cond | DELETE _ cond => cond
  | CREATE_TABLE _ _ | INSERT _ _ | DROP_TABLE _ => None
  end.

(** The WHERE clause of every statement that parses compares with the
    six operators. *)
Lemma parse_valid_where (sql : string) (q : Query) :
  parse sql = Ok q -> valid_where (where_of q) = true.
Proof.
  unfold parse. cbv zeta. set (s := collapse_spaces (trim sql)).
  destruct (startsWith (toUpperCase s) "CREATE TABLE").
  { unfold parseCreateTable. destruct (re_match createTablePattern s) as [caps|];
      [|discriminate].
    destruct (capture caps 1); [|discriminate].
    destruct (capture caps 2); [|discriminate].
    destruct (fold_left _ _ _) as [[cols pk] uks]. now intros [= <-]. }
  destruct (startsWith (toUpperCase s) "INSERT INTO").
  { unfold parseInsert. destruct (re_match insertPattern s) as [caps|];
      [|discriminate].
    destruct (capture caps 1); [|discriminate].
    destruct (capture caps 2); [|discriminate].
    destruct (capture caps 3); [|discriminate]. now intros [= <-]. }
  destruct (startsWith (toUpperCase s) "SELECT").
  { unfold parseSelect.
    destruct (re_match selectPattern s); [|discriminate].
    destruct (re_match fromPattern s); [|discriminate]. cbv zeta.
    destruct (re_match wherePattern s); [|now intros [= <-]].
    destruct (parseWhereClause _) as [w|] eqn:E; [|discriminate].
    intros [= <-]. exact (parseWhereClause_valid _ _ E). }
  destruct (startsWith (toUpperCase s) "UPDATE").
  { unfold parseUpdate.
    destruct (re_match updatePattern s) as [caps|]; [|discriminate].
    destruct (capture caps 1); [|discriminate].
    destruct (capture caps 2); [|discriminate].
    destruct (parseSet _ _); [|discriminate].
    unfold parseOptionalWhere. destruct (or_null _); [|now intros [= <-]].
    destruct (parseWhereClause _) as [w|] eqn:E; [|discriminate].
    intros [= <-]. exact (parseWhereClause_valid _ _ E). }
  destruct (startsWith (toUpperCase s) "DELETE FROM").
  { unfold parseDelete.
    destruct (re_match deletePattern s) as [caps|]; [|discriminate].
    destruct (capture caps 1); [|discriminate].
    unfold parseOptionalWhere. destruct (or_null _); [|now intros [= <-]].
    destruct (parseWhereClause _) as [w|] eqn:E; [|discriminate].
    intros [= <-]. exact (parseWhereClause_valid _ _ E). }
  destruct (startsWith (toUpperCase s) "DROP TABLE"); [|discriminate].
  unfold parseDropTable. destruct (re_match dropTablePattern s) as [caps|];
    [|discriminate].
  destruct (capture caps 1); [|discriminate]. now intros [= <-].
Qed.

(** An UPDATE of a stored table with a valid WHERE clause, when the
    indexes can be written, succeeds whatever the assignments are: the
    merged rows are written and the indexes rebuilt over them. *)
Lemma executeUpdate_run (t : string) (updates : Row)
    (cond : option Condition) (d : DB) (m : Metadata) (rs : list Row) :
  storage d !! t = Some (m, rs) ->
  valid_where cond = true ->
  indexable t m = true ->
  let n := length (List.filter (selects cond) rs) in
  let written := map json_row (updatedRows updates cond rs) in
  exists d',
    execute (UPDATE t updates cond) d
    = (Ok {| success := true;
             message := Some ("Updated " ++ string_of_nat n ++ " row(s)");
             rows := None; count := Some n; row := None; table := None;
             error := None |}, d') /\
    storage d' = <[t := (m, written)]> (storage d) /\
    forall pk, primaryKey m = Some pk -> truthy_string pk = true ->
      indexes d' !! cacheKey t pk = Some (hashIndex pk written).
Proof.
  intros Hs Hv Hx n written. simpl. unfold executeUpdate.
  destruct (getTable_stored t d m rs Hs) as (md & d0 & Hg & Hs0 & _).
  rewrite (bind_Ok _ _ d md d0 Hg).
  assert (Hs0' : storage d0 !! t = Some (m, rs)) by now rewrite Hs0.
  assert (Hu : update t updates
                 (match cond with
                  | Some c => Some (fun r => evaluateCondition r c)
                  | None => None
                  end) d0
               = (Ok n, with_storage (fun st => <[t := (m, written)]> st) d0)).
  { unfold update.
    rewrite (bind_Ok _ _ d0 rs d0 (loadTableData_run _ _ _ _ Hs0')).
    unfold bind at 1. unfold lift at 1.
    rewrite (update_rows_valid updates cond rs 0 Hv). simpl.
    erewrite bind_Ok; [|exact (saveTableData_run _ _ _ _ _ Hs0')].
    reflexivity. }
  rewrite (bind_Ok _ _ d0 n _ Hu).
  set (d2 := with_storage _ d0).
  assert (Hs2 : storage d2 !! t = Some (m, written))
    by (unfold d2; simpl; apply lookup_insert_eq).
  destruct (rebuildIndexes_run t d2 m written Hs2 Hx) as (d3 & Hr & Hs3 & _ & Hi3).
  rewrite (bind_Ok _ _ d2 tt d3 Hr).
  exists d3. split; [reflexivity|]. split; [|exact Hi3].
  rewrite Hs3. unfold d2. simpl. now rewrite Hs0.
Qed.

(** C9, as the code has it: an UPDATE statement on a stored table, when
    the index files of the key columns of the table can be written,
    reports success with the number of rows its WHERE clause selects and
    writes, for each of them, the plain merge of the row with the
    assignments, whatever their values: nothing is coerced and neither
    NOT_NULL nor the primary key nor the unique keys are checked.  The
    other rows stay; the index of the primary key is rebuilt over the
    rows written. *)
Theorem update_writes_merged_rows (sql t : string) (updates : Row)
    (cond : option Condition) (d : DB) (m : Metadata) (rs : list Row) :
  parse sql = Ok (UPDATE t updates cond) ->
  storage d !! t = Some (m, rs) ->
  indexable t m = true ->
  let n := length (List.filter (selects cond) rs) in
  let written :=
    map json_row
        (map (fun r => if selects cond r then spread r updates else r) rs) in
  exists d',
    query sql d
    = ({| success := true;
          message := Some ("Updated " ++ string_of_nat n ++ " row(s)");
          rows := None; count := Some n; row := None; table := None;
          error := None |}, d') /\
    storage d' = <[t := (m, written)]> (storage d) /\
    forall pk, primaryKey m = Some pk -> truthy_string pk = true ->
      indexes d' !! cacheKey t pk = Some (hashIndex pk written).
Proof.
  intros Hp Hs Hx n written.
  pose proof (parse_valid_where sql _ Hp) as Hv. simpl in Hv.
  destruct (executeUpdate_run t updates cond d m rs Hs Hv Hx)
    as (d' & He & Hs' & Hi').
  exists d'. split; [|split; [exact Hs'|exact Hi']].
  unfold query, parse_execute, bind, lift. rewrite Hp.
  now rewrite He.
Qed.

Lemma delete_filter_valid (cond : option Condition) (rs : list Row) :
  valid_where cond = true ->
  delete_filter
    (match cond with
     | Some c => fun r => evaluateCondition r c
     | None => fun _ => Ok true
     end) rs
  = Ok (List.filter (fun r => negb (selects cond r)) rs).
Proof.
  intros Hv. induction rs as [|r rs IH]; simpl; [reflexivity|].
  destruct cond as [c|]; simpl in *.
  - rewrite (evaluateCondition_holds r c Hv), IH. now destruct (holds c r).
  - now rewrite IH.
Qed.

Lemma deleteRows_run (t : string) (cond : option Condition) (d : DB)
    (m : Metadata) (rs : list Row) :
  storage d !! t = Some (m, rs) ->
  valid_where cond = true ->
  let kept := List.filter (fun r => negb (selects cond r)) rs in
  deleteRows t
    (match cond with
     | Some c => fun r => evaluateCondition r c
     | None => fun _ => Ok true
     end) d
  = (Ok (length rs - length kept)%nat,
     with_storage (fun st => <[t := (m, map json_row kept)]> st) d).
Proof.
  intros Hs Hv kept. unfold deleteRows.
  rewrite (bind_Ok _ _ d rs d (loadTableData_run _ _ _ _ Hs)).
  unfold bind at 1. unfold lift at 1.
  rewrite (delete_filter_valid cond rs Hv).
  erewrite bind_Ok; [|exact (saveTableData_run _ _ _ _ _ Hs)].
  reflexivity.
Qed.

(** A DELETE of a stored table with a valid WHERE clause keeps the rows
    the clause does not select, reports how many it removed and rebuilds
    the indexes; the metadata of the table stays. *)
Theorem delete_keeps_unselected_rows (t : string) (cond : option Condition)
    (d : DB) (m : Metadata) (rs : list Row) :
  storage d !! t = Some (m, rs) ->
  valid_where cond = true ->
  indexable t m = true ->
  let kept := List.filter (fun r => negb (selects cond r)) rs in
  let n := (length rs - length kept)%nat in
  exists d',
    execute (DELETE t cond) d
    = (Ok {| success := true;
             message := Some ("Deleted " ++ string_of_nat n ++ " row(s)");
             rows := None; count := Some n; row := None; table := None;
             error := None |}, d') /\
    storage d' = <[t := (m, map json_row kept)]> (storage d) /\
    n = length (List.filter (selects cond) rs) /\
    forall pk, primaryKey m = Some pk -> truthy_string pk = true ->
      indexes d' !! cacheKey t pk = Some (hashIndex pk (map json_row kept)).
Proof.
  intros Hs Hv Hx kept n. simpl. unfold executeDelete.
  destruct (getTable_stored t d m rs Hs) as (md & d0 & Hg & Hs0 & _).
  rewrite (bind_Ok _ _ d md d0 Hg).
  assert (Hs0' : storage d0 !! t = Some (m, rs)) by now rewrite Hs0.
  pose proof (deleteRows_run t cond d0 m rs Hs0' Hv) as Hd.
  rewrite (bind_Ok _ _ d0 n _ Hd).
  set (d2 := with_storage _ d0).
  assert (Hs2 : storage d2 !! t = Some (m, map json_row kept))
    by (unfold d2; simpl; apply lookup_insert_eq).
  destruct (rebuildIndexes_run t d2 m _ Hs2 Hx) as (d3 & Hr & Hs3 & _ & Hi3).
  rewrite (bind_Ok _ _ d2 tt d3 Hr).
  exists d3. split; [reflexivity|].
  split; [rewrite Hs3; unfold d2; simpl; now rewrite Hs0|].
  split; [|exact Hi3].
  unfold n, kept. clear. induction rs as [|r rs IH]; simpl; [reflexivity|].
  pose proof (List.filter_length_le (fun r => negb (selects cond r)) rs).
  destruct (selects cond r); simpl; lia.
Qed.



End Mutations.

Section MutationExamples.
#[local] Existing Instance DecRuntime.

Definition db_two : DB :=
  after ["INSERT INTO t (id, name) VALUES (2, 'b')"] db_t.

Definition row_2b : Row := [("id", VNum (DFin 2 0)); ("name", VStr "b")].

Lemma db_two_storage : storage db_two !! "t" = Some (meta_t, [row_1a; row_2b]).
Proof. reflexivity. Qed.

(** An UPDATE may give two rows the same primary-key value. *)
Example update_shares_primary_key :
  let r := fst (query "UPDATE t SET id = 1" db_two) in
  let d' := snd (query "UPDATE t SET id = 1" db_two) in
  success r = true /\ count r = Some 2%nat /\
  snd <$> storage d' !! "t" = Some [row_1a; row_1b].
Proof. intros r d'. repeat split; reflexivity. Qed.

Definition where_id_1 : Condition := Simple "id" "=" (VNum (DFin 1 0)).
Definition where_id_ge_2 : Condition := Simple "id" ">=" (VNum (DFin 2 0)).
Definition row_1 : Row := [("id", VNum (DFin 1 0))].

Definition row_null_a : Row := [("id", VNull); ("name", VStr "a")].

(** An UPDATE stores [null] in the primary-key column, declared NOT_NULL,
    and another gives two rows the same primary-key value. *)
Lemma update_writes_merged_rows_witness :
  (exists d',
     query "UPDATE t SET id = null" db_t
     = ({| success := true; message := Some "Updated 1 row(s)";
           rows := None; count := Some 1%nat; row := None; table := None;
           error := None |}, d') /\
     storage d' !! "t" = Some (meta_t, [row_null_a]))
  /\ (exists d',
        query "UPDATE t SET id = 1 WHERE id >= 2" db_two
        = ({| success := true; message := Some "Updated 1 row(s)";
              rows := None; count := Some 1%nat; row := None; table := None;
              error := None |}, d') /\
        storage d' !! "t" = Some (meta_t, [row_1a; row_1b])).
Proof.
  split.
  - destruct (update_writes_merged_rows (RT := DecRuntime)
                "UPDATE t SET id = null" "t" [("id", VNull)] None
                db_t meta_t [row_1a] eq_refl db_t_storage eq_refl)
      as (d' & He & Hs & _).
    exists d'. split; [exact He|]. rewrite Hs. apply lookup_insert_eq.
  - destruct (update_writes_merged_rows (RT := DecRuntime)
                "UPDATE t SET id = 1 WHERE id >= 2" "t" row_1
                (Some where_id_ge_2) db_two meta_t [row_1a; row_2b]
                eq_refl db_two_storage eq_refl)
      as (d' & He & Hs & _).
    exists d'. split; [exact He|]. rewrite Hs. apply lookup_insert_eq.
Defined.

Lemma delete_keeps_unselected_rows_witness :
  exists d',
    execute (DELETE "t" (Some where_id_1)) db_two
    = (Ok {| success := true; message := Some "Deleted 1 row(s)";
             rows := None; count := Some 1%nat; row := None; table := None;
             error := None |}, d') /\
    storage d' !! "t" = Some (meta_t, [row_2b]).
Proof.
  destruct (delete_keeps_unselected_rows (RT := DecRuntime)
              "t" (Some where_id_1) db_two meta_t
              [row_1a; row_2b] db_two_storage eq_refl eq_refl)
    as (d' & He & Hs & _).
  exists d'. split; [exact He|]. rewrite Hs. apply lookup_insert_eq.
Defined.


End MutationExamples.

(** ** The checks of the unique keys and of a null primary key *)

Section NullKeys.
Context `{RT : Runtime}.

Lemma validateUniqueKeys_loop_Ok (keys : list string) (p : Row) (rs : list Row) :
  (forall k, In k keys -> is_nullish (get p k) = false ->
             forall r0, In r0 rs -> strictEq (get r0 k) (get p k) = false) ->
  validateUniqueKeys_loop keys p rs = Ok true.
Proof.
  induction keys as [|k keys IH]; simpl; [reflexivity|]. intros H.
  assert (IH' : validateUniqueKeys_loop keys p rs = Ok true).
  { apply IH. intros k' Hk. apply H. now right. }
  destruct (is_nullish (get p k)) eqn:En; simpl; [exact IH'|].
  destruct (find_equal k (get p k) rs) as [r1|] eqn:E; [|exact IH'].
  unfold find_equal in E. apply List.find_some in E as [Hin Heq].
  rewrite (H k (or_introl eq_refl) En r1 Hin) in Heq. discriminate.
Qed.

Lemma validateUniqueKeys_loop_Throw (keys : list string) (p : Row)
    (rs : list Row) (msg : string) :
  validateUniqueKeys_loop keys p rs = Throw msg ->
  exists k r0,
    In k keys /\ is_nullish (get p k) = false /\ In r0 rs /\
    strictEq (get r0 k) (get p k) = true /\
    msg = "Duplicate unique key value for '" ++ k ++ "': "
          ++ ToString (get p k).
Proof.
  induction keys as [|k keys IH]; simpl; [discriminate|].
  destruct (is_nullish (get p k)) eqn:En; simpl.
  - intros H. destruct (IH H) as (k' & r0 & Hk & Hrest).
    exists k', r0. split; [now right|exact Hrest].
  - destruct (find_equal k (get p k) rs) as [r1|] eqn:E.
    + intros [= <-]. unfold find_equal in E.
      apply List.find_some in E as [Hin Heq].
      exists k, r1. repeat split; trivial. now left.
    + intros H. destruct (IH H) as (k' & r0 & Hk & Hrest).
      exists k', r0. split; [now right|exact Hrest].
Qed.

(** The check of the unique keys skips [null]: it throws only for a
    unique column whose prepared value is not null and is strictly equal
    to the value of a stored row, and it passes in every other case, in
    particular on a row that is null in every unique column. *)
Theorem validateUniqueKeys_skips_null (md : Metadata) (p : Row) (rs : list Row) :
  (forall msg,
     validateUniqueKeys md p rs = Throw msg ->
     exists k r0,
       In k (uniqueKeys md) /\ is_nullish (get p k) = false /\ In r0 rs /\
       strictEq (get r0 k) (get p k) = true /\
       msg = "Duplicate unique key value for '" ++ k ++ "': "
             ++ ToString (get p k))
  /\ ((forall k, In k (uniqueKeys md) -> is_nullish (get p k) = false ->
                 forall r0, In r0 rs -> strictEq (get r0 k) (get p k) = false) ->
      validateUniqueKeys md p rs = Ok true)
  /\ ((forall k, In k (uniqueKeys md) -> is_nullish (get p k) = true) ->
      validateUniqueKeys md p rs = Ok true).
Proof.
  unfold validateUniqueKeys. split; [|split].
  - intros msg. apply validateUniqueKeys_loop_Throw.
  - apply validateUniqueKeys_loop_Ok.
  - intros H. apply validateUniqueKeys_loop_Ok. intros k Hk Hn.
    rewrite (H k Hk) in Hn. discriminate.
Qed.

(** A row that [validateRow] and the primary-key check accept and that is
    null in every unique column is inserted, however many stored rows
    are null in those columns. *)
Lemma insert_null_unique_run (t : string) (r : Row) (d : DB)
    (m : Metadata) (rs : list Row) :
  storage d !! t = Some (m, rs) ->
  (tables d !! t = None \/ tables d !! t = Some m) ->
  validateRow m (prepareRow m r) = Ok true ->
  validatePrimaryKey m (prepareRow m r) rs = Ok true ->
  (forall k, In k (uniqueKeys m) -> is_nullish (get (prepareRow m r) k) = true) ->
  indexable t m = true ->
  exists d1,
    execute (INSERT t r) d
    = (Ok {| success := true;
             message := Some ("Row inserted into '" ++ t ++ "'");
             rows := None; count := None; row := Some (prepareRow m r);
             table := None; error := None |}, d1) /\
    storage d1 = <[t := (m, map json_row (rs ++ [prepareRow m r]))]> (storage d).
Proof.
  intros Hs Ht Hv Hk Hu Hx. simpl. unfold executeInsert.
  destruct (getTable_run t d m rs Hs Ht) as (d0 & Hg & Hs0 & _).
  rewrite (bind_Ok _ _ d m d0 Hg).
  assert (Hs0' : storage d0 !! t = Some (m, rs)) by now rewrite Hs0.
  assert (Hn : validateUniqueKeys m (prepareRow m r) rs = Ok true).
  { apply validateUniqueKeys_loop_Ok. intros k Hin Hnn.
    rewrite (Hu k Hin) in Hnn. discriminate. }
  assert (Hi : insert m t r d0
               = (Ok (prepareRow m r),
                  with_storage
                    (fun st =>
                       <[t := (m, map json_row (rs ++ [prepareRow m r]))]> st)
                    d0)).
  { rewrite (insert_run m t r d0 m rs Hs0'), Hv, Hk, Hn. reflexivity. }
  rewrite (bind_Ok _ _ d0 _ _ Hi).
  set (d2 := with_storage _ d0).
  assert (Hs2 : storage d2 !! t
                = Some (m, map json_row (rs ++ [prepareRow m r])))
    by (unfold d2; simpl; apply lookup_insert_eq).
  destruct (rebuildIndexes_run t d2 m _ Hs2 Hx) as (d3 & Hr & Hs3 & _ & _).
  rewrite (bind_Ok _ _ d2 tt d3 Hr).
  exists d3. split; [reflexivity|]. rewrite Hs3. unfold d2. simpl.
  now rewrite Hs0.
Qed.

Lemma one_of_In (s : string) (l : list string) : In s l -> one_of s l = true.
Proof.
  intros H. unfold one_of. apply existsb_exists. exists s.
  split; [exact H|apply String.eqb_refl].
Qed.

(** [validateRow] throws on a row that is null in a NOT_NULL column, and
    its message lists that column. *)
Lemma validateRow_not_null (md : Metadata) (p : Row) (col : Column) :
  In col (columns md) -> In "NOT_NULL" (constraints col) ->
  is_nullish (get p (name col)) = true ->
  exists errors,
    validateRow md p = Throw ("Validation failed: " ++ join ", " errors) /\
    In ("Column '" ++ name col ++ "' cannot be null") errors.
Proof.
  intros Hc Hn Hv. unfold validateRow.
  set (errors := flat_map (column_errors p) (columns md)).
  assert (Hin : In ("Column '" ++ name col ++ "' cannot be null") errors).
  { apply in_flat_map. exists col. split; [exact Hc|].
    unfold column_errors. rewrite (one_of_In _ _ Hn), Hv. simpl. now left. }
  exists errors. split; [|exact Hin].
  destruct errors as [|e errors]; [destruct Hin|]. reflexivity.
Qed.

(** An insert whose prepared primary-key value is null or absent throws
    before anything is written: [validateRow] reports the column when it
    is declared NOT_NULL, as the parser declares every primary key;
    otherwise, on a row that is valid, the primary-key check throws. *)
Lemma insert_null_key_run (t : string) (r : Row) (d : DB)
    (m : Metadata) (rs : list Row) (pk : string) :
  storage d !! t = Some (m, rs) ->
  (tables d !! t = None \/ tables d !! t = Some m) ->
  primaryKey m = Some pk -> truthy_string pk = true ->
  is_nullish (get (prepareRow m r) pk) = true ->
  exists msg d',
    execute (INSERT t r) d = (Throw msg, d') /\
    storage d' = storage d /\ indexes d' = indexes d /\
    indexFiles d' = indexFiles d /\
    ((exists col, In col (columns m) /\ name col = pk /\
                  In "NOT_NULL" (constraints col)) ->
     exists errors,
       msg = "Validation failed: " ++ join ", " errors /\
       In ("Column '" ++ pk ++ "' cannot be null") errors) /\
    (validateRow m (prepareRow m r) = Ok true ->
     msg = "Primary key '" ++ pk ++ "' cannot be null").
Proof.
  intros Hs Ht Hpk Htr Hn.
  assert (Hk : validatePrimaryKey m (prepareRow m r) rs
               = Throw ("Primary key '" ++ pk ++ "' cannot be null")).
  { unfold validatePrimaryKey. now rewrite Hpk, Htr, Hn. }
  destruct (validateRow m (prepareRow m r)) as [b|e] eqn:Ev.
  - destruct (executeInsert_Throw t r d m rs _ Hs Ht
                (or_intror (conj (ex_intro _ b Ev) (or_introl Hk))))
      as (d' & He & Hs' & Hi' & Hf' & _).
    eexists. exists d'. split; [exact He|]. repeat split; trivial.
    intros (col & Hc & Hname & Hnn). subst pk.
    destruct (validateRow_not_null m _ col Hc Hnn Hn) as (errors & Hthrow & _).
    congruence.
  - destruct (executeInsert_Throw t r d m rs e Hs Ht (or_introl Ev))
      as (d' & He & Hs' & Hi' & Hf' & _).
    exists e, d'. split; [exact He|]. repeat split; trivial.
    + intros (col & Hc & Hname & Hnn). subst pk.
      destruct (validateRow_not_null m _ col Hc Hnn Hn) as (errors & Hthrow & Hin).
      exists errors. split; [congruence|exact Hin].
    + intros [=].
Qed.

(** C10, as the code has it.  The check of the unique keys passes on a
    prepared row that is null in every unique column, whatever the stored
    rows hold; such a row, when [validateRow] and the primary-key check
    accept it and the index files of the key columns can be written, is
    inserted.  A row whose prepared primary-key value is null or absent
    is rejected before anything is written: by [validateRow], whose
    message lists [Column '<key>' cannot be null], when the key column is
    declared NOT_NULL, as the parser declares every primary key;
    otherwise, on a row that is valid, by the primary-key check with
    [Primary key '<key>' cannot be null]. *)
Theorem insert_null_keys (t : string) (r : Row) (d : DB) (m : Metadata)
    (rs : list Row) :
  storage d !! t = Some (m, rs) ->
  (tables d !! t = None \/ tables d !! t = Some m) ->
  let p := prepareRow m r in
  ((forall k, In k (uniqueKeys m) -> is_nullish (get p k) = true) ->
   validateUniqueKeys m p rs = Ok true /\
   (validateRow m p = Ok true -> validatePrimaryKey m p rs = Ok true ->
    indexable t m = true ->
    exists d1,
      execute (INSERT t r) d
      = (Ok {| success := true;
               message := Some ("Row inserted into '" ++ t ++ "'");
               rows := None; count := None; row := Some p;
               table := None; error := None |}, d1) /\
      storage d1 = <[t := (m, map json_row (rs ++ [p]))]> (storage d)))
  /\ (forall pk,
        primaryKey m = Some pk -> truthy_string pk = true ->
        is_nullish (get p pk) = true ->
        exists msg d',
          execute (INSERT t r) d = (Throw msg, d') /\
          storage d' = storage d /\ indexes d' = indexes d /\
          indexFiles d' = indexFiles d /\
          ((exists col, In col (columns m) /\ name col = pk /\
                        In "NOT_NULL" (constraints col)) ->
           exists errors,
             msg = "Validation failed: " ++ join ", " errors /\
             In ("Column '" ++ pk ++ "' cannot be null") errors) /\
          (validateRow m p = Ok true ->
           msg = "Primary key '" ++ pk ++ "' cannot be null")).
Proof.
  intros Hs Ht p. split.
  - intros Hu. split.
    + apply validateUniqueKeys_loop_Ok. intros k Hin Hnn.
      rewrite (Hu k Hin) in Hnn. discriminate.
    + intros Hv Hk Hx. now apply insert_null_unique_run.
  - intros pk Hpk Htr Hn. now apply (insert_null_key_run t r d m rs pk).
Qed.

End NullKeys.

Section NullKeyExamples.
#[local] Existing Instance DecRuntime.

Definition db_u : DB :=
  after ["CREATE TABLE u (id INTEGER PRIMARY KEY, email TEXT UNIQUE)";
         "INSERT INTO u (id, email) VALUES (1, null)"] (emptyDB clock0).

Definition meta_u : Metadata :=
  {| tableName := "u";
     columns := [{| name := "id"; type := "INTEGER";
                    constraints := ["PRIMARY_KEY"; "NOT_NULL"] |};
                 {| name := "email"; type := "TEXT";
                    constraints := ["UNIQUE"] |}];
     primaryKey := Some "id";
     uniqueKeys := ["email"];
     createdAt := "2026-01-10T00:00:00.000Z" |}.

Definition row_1null : Row := [("id", VNum (DFin 1 0)); ("email", VNull)].
Definition row_2null : Row := [("id", VNum (DFin 2 0)); ("email", VNull)].

Lemma db_u_storage : storage db_u !! "u" = Some (meta_u, [row_1null]).
Proof. reflexivity. Qed.

Lemma db_u_tables : tables db_u !! "u" = Some meta_u.
Proof. reflexivity. Qed.

Lemma row_2null_unique_null (k : string) :
  In k (uniqueKeys meta_u) -> is_nullish (get (prepareRow meta_u row_2null) k) = true.
Proof. intros [<-|[]]. reflexivity. Qed.

Lemma validateUniqueKeys_skips_null_witness :
  validateUniqueKeys meta_u (prepareRow meta_u row_2null) [row_1null] = Ok true.
Proof.
  exact (proj2 (proj2 (validateUniqueKeys_skips_null (RT := DecRuntime)
                         meta_u (prepareRow meta_u row_2null) [row_1null]))
               row_2null_unique_null).
Defined.

Definition row_no_key : Row := [("name", VStr "x")].

Lemma meta_t_key_not_null :
  exists col, In col (columns meta_t) /\ name col = "id" /\
              In "NOT_NULL" (constraints col).
Proof.
  eexists. split; [left; reflexivity|]. split; [reflexivity|].
  right. left. reflexivity.
Qed.

(** A second row without email is inserted into [u]; a row without id is
    not inserted into [t]. *)
Lemma insert_null_keys_witness :
  (exists d1,
     execute (INSERT "u" row_2null) db_u
     = (Ok {| success := true; message := Some "Row inserted into 'u'";
              rows := None; count := None; row := Some row_2null;
              table := None; error := None |}, d1) /\
     storage d1 !! "u" = Some (meta_u, [row_1null; row_2null]))
  /\ (exists msg d',
        execute (INSERT "t" row_no_key) db_t = (Throw msg, d') /\
        storage d' = storage db_t /\
        exists errors,
          msg = "Validation failed: " ++ join ", " errors /\
          In "Column 'id' cannot be null" errors).
Proof.
  split.
  - destruct (proj1 (insert_null_keys (RT := DecRuntime)
                       "u" row_2null db_u meta_u [row_1null]
                       db_u_storage (or_intror db_u_tables))
                row_2null_unique_null)
      as (_ & Hins).
    destruct (Hins eq_refl eq_refl eq_refl) as (d1 & He & Hs).
    exists d1. split; [exact He|]. rewrite Hs. apply lookup_insert_eq.
  - destruct (proj2 (insert_null_keys (RT := DecRuntime)
                       "t" row_no_key db_t meta_t [row_1a]
                       db_t_storage (or_intror db_t_tables))
                "id" eq_refl eq_refl eq_refl)
      as (msg & d' & He & Hs & _ & _ & Hm & _).
    exists msg, d'. split; [exact He|]. split; [exact Hs|].
    exact (Hm meta_t_key_not_null).
Defined.

Example insert_null_key_message :
  error (fst (query "INSERT INTO t (name) VALUES ('x')" db_t))
  = Some "Validation failed: Column 'id' cannot be null".
Proof. reflexivity. Qed.

(** A table with a unique column [a/b]: its index file would lie in the
    directory [data/t_a], which does not exist.  CREATE TABLE writes the
    files of the table and the index of the primary key, fails on the
    index of [a/b], and leaves the table behind. *)
Definition db_slash : DB :=
  after ["CREATE TABLE t (id INTEGER PRIMARY KEY, a/b TEXT UNIQUE)"]
        (emptyDB clock0).

Definition enoent_t_a_b : string :=
  "ENOENT: no such file or directory, open 'data/t_a/b.idx.json'".

Definition row_1_slash : Row := [("id", VNum (DFin 1 0)); ("a/b", VNull)].
Definition row_7_slash : Row := [("id", VNum (DFin 7 0)); ("a/b", VNull)].

(** C10, as stated, fails: the insert of a row that is null in the unique
    column [a/b] stores the row and reports a failure, because the index
    of the column cannot be written. *)
Lemma insert_null_unique_reports_failure :
  let create := "CREATE TABLE t (id INTEGER PRIMARY KEY, a/b TEXT UNIQUE)" in
  let sql := "INSERT INTO t (id) VALUES (1)" in
  fst (query create (emptyDB clock0)) = failure enoent_t_a_b
  /\ fst <$> storage db_slash !! "t"
     = Some {| tableName := "t";
               columns := [{| name := "id"; type := "INTEGER";
                              constraints := ["PRIMARY_KEY"; "NOT_NULL"] |};
                           {| name := "a/b"; type := "TEXT";
                              constraints := ["UNIQUE"] |}];
               primaryKey := Some "id"; uniqueKeys := ["a/b"];
               createdAt := "2026-01-10T00:00:00.000Z" |}
  /\ fst (query sql db_slash) = failure enoent_t_a_b
  /\ snd <$> storage (snd (query sql db_slash)) !! "t" = Some [row_1_slash].
Proof. intros create sql. repeat split; reflexivity. Qed.

(** C9, as stated, fails: on the same table an UPDATE stores the merged
    rows and reports a failure. *)
Lemma update_reports_failure :
  let d := after ["INSERT INTO t (id) VALUES (1)"] db_slash in
  let sql := "UPDATE t SET id = 7" in
  snd <$> storage d !! "t" = Some [row_1_slash]
  /\ fst (query sql d) = failure enoent_t_a_b
  /\ snd <$> storage (snd (query sql d)) !! "t" = Some [row_7_slash].
Proof. intros d sql. repeat split; reflexivity. Qed.

End NullKeyExamples.

(** ** When [filterRows] scans *)

Section ScanFallback.
Context `{RT : Runtime}.

(** Whether a WHERE clause is a comparison by [=] on a named column, the
    only shape for which [filterRows] consults an index. *)
Definition index_candidate (whereClause : Condition) : option string :=
  match whereClause with
  | Simple column operator _ =>
      if truthy_string column && String.eqb operator "=" then Some column
      else None
  | _ => None
  end.

(** [filterRows] is the full scan for every clause that is not an
    equality on a column (AND, OR and the other operators), and for an
    equality on a column that has no index, neither cached nor on disk;
    the state is not changed. *)
Lemma filterRows_scans (rs : list Row) (whereClause : Condition)
    (t : string) (d : DB) :
  match index_candidate whereClause with
  | None => True
  | Some column =>
      indexes d !! cacheKey t column = None /\
      indexFile t column d = None
  end ->
  filterRows rs whereClause t d = (scanRows rs whereClause, d).
Proof.
  destruct whereClause as [column operator v|cs|cs]; simpl; trivial.
  destruct (truthy_string column && String.eqb operator "="); [|reflexivity].
  intros [Hc Hf]. unfold lookup, loadIndex, bind, gets, ret, lift.
  now rewrite Hc, Hf.
Qed.

End ScanFallback.

Section ScanFallbackExamples.
#[local] Existing Instance DecRuntime.

Example filterRows_scans_example :
  filterRows [row_1a] (Simple "name" "=" (VStr "a")) "t" db_t
  = (Ok [Some row_1a], db_t).
Proof.
  exact (filterRows_scans (RT := DecRuntime)
           [row_1a] (Simple "name" "=" (VStr "a")) "t" db_t
           (conj eq_refl eq_refl)).
Defined.

End ScanFallbackExamples.

(** ** Objects: reading a property after writing one *)

Section Objects.
Context `{RT : Runtime}.

Lemma get_replace_same (r : Row) (k : string) (v : value) :
  has r k = true -> get (replace r k v) k = v.
Proof.
  induction r as [|[k' v'] r IH]; simpl; [discriminate|].
  destruct (String.eqb k' k) eqn:E; simpl.
  - now rewrite String.eqb_refl.
  - rewrite E. exact IH.
Qed.

Lemma get_replace_other (r : Row) (k k' : string) (v : value) :
  k <> k' -> get (replace r k v) k' = get r k'.
Proof.
  intros Hne. induction r as [|[k0 v0] r IH]; simpl; [reflexivity|].
  destruct (String.eqb k0 k) eqn:E; simpl.
  - apply String.eqb_eq in E. subst k0.
    destruct (String.eqb_spec k k'); [contradiction|reflexivity].
  - now rewrite IH.
Qed.

Lemma get_insertIndex_same (i : N) (r : Row) (k : string) (v : value) :
  has r k = false -> get (insertIndex i k v r) k = v.
Proof.
  induction r as [|[k' v'] r IH]; simpl.
  - now rewrite String.eqb_refl.
  - intros H. apply orb_false_iff in H as [Hk Hr].
    destruct (arrayIndex k') as [j|]; [destruct (j <? i)%N|]; simpl;
      rewrite ?String.eqb_refl; trivial.
    rewrite Hk. now apply IH.
Qed.

Lemma get_insertIndex_other (i : N) (r : Row) (k k' : string) (v : value) :
  k <> k' -> get (insertIndex i k v r) k' = get r k'.
Proof.
  intros Hne. induction r as [|[k0 v0] r IH]; simpl.
  - destruct (String.eqb_spec k k'); [contradiction|reflexivity].
  - destruct (arrayIndex k0) as [j|]; [destruct (j <? i)%N|]; simpl.
    + now rewrite IH.
    + destruct (String.eqb_spec k k'); [contradiction|reflexivity].
    + destruct (String.eqb_spec k k'); [contradiction|reflexivity].
Qed.

Lemma get_app_new (r : Row) (k k' : string) (v : value) :
  get (r ++ [(k, v)])%list k'
  = if has r k' then get r k' else if String.eqb k k' then v else VUndefined.
Proof.
  induction r as [|[k0 v0] r IH]; simpl; [reflexivity|].
  destruct (String.eqb k0 k'); simpl; [reflexivity|exact IH].
Qed.

Lemma has_get_undefined (r : Row) (k : string) :
  has r k = false -> get r k = VUndefined.
Proof.
  induction r as [|[k0 v0] r IH]; simpl; [reflexivity|].
  destruct (String.eqb k0 k); simpl; [discriminate|exact IH].
Qed.

(** [row[k] = v; row[k]] is [v] ... *)
Lemma get_set_same (r : Row) (k : string) (v : value) :
  get (set r k v) k = v.
Proof.
  unfold set. destruct (has r k) eqn:E.
  - now apply get_replace_same.
  - destruct (arrayIndex k) as [i|].
    + now apply get_insertIndex_same.
    + now rewrite get_app_new, E, String.eqb_refl.
Qed.

(** ... and the other properties keep their values. *)
Lemma get_set_other (r : Row) (k k' : string) (v : value) :
  k <> k' -> get (set r k v) k' = get r k'.
Proof.
  intros Hne. unfold set. destruct (has r k) eqn:E.
  - now apply get_replace_other.
  - destruct (arrayIndex k) as [i|].
    + now apply get_insertIndex_other.
    + rewrite get_app_new. destruct (has r k') eqn:E'; [reflexivity|].
      destruct (String.eqb_spec k k'); [contradiction|].
      symmetry. now apply has_get_undefined.
Qed.

End Objects.

(** ** Prepared and projected rows *)

Section Preparing.
Context `{RT : Runtime}.

Lemma find_app_last {A} (f : A -> bool) (l : list A) (x : A) :
  find f (l ++ [x])
  = match find f l with
    | Some y => Some y
    | None => if f x then Some x else None
    end.
Proof.
  induction l as [|y l IH]; simpl; [reflexivity|].
  destruct (f y); [reflexivity|exact IH].
Qed.

(** A loop of assignments [acc[key(x)] = val(x)]: a property holds the
    value of the last assignment to it, or what it held before. *)
Lemma get_fold_set {A} (key : A -> string) (val : A -> value) (l : list A)
    (acc : Row) (k : string) :
  get (fold_left (fun a x => set a (key x) (val x)) l acc) k
  = match find (fun x => String.eqb (key x) k) (rev l) with
    | Some x => val x
    | None => get acc k
    end.
Proof.
  revert acc. induction l as [|x l IH]; intros acc; simpl; [reflexivity|].
  rewrite IH, find_app_last.
  destruct (find _ (rev l)); [reflexivity|].
  destruct (String.eqb_spec (key x) k) as [<-|Hne].
  - apply get_set_same.
  - now apply get_set_other.
Qed.











End Preparing.

Section PreparingExamples.
#[local] Existing Instance DecRuntime.






End PreparingExamples.

(** ** Creating and dropping tables; tables that do not exist *)

Section Tables.
Context `{RT : Runtime}.

Lemma buildIndex_step (t : string) (rs : list Row) :
  index_step t rs (fun k => buildIndex t k rs ;; ret tt).
Proof.
  intros k d. unfold openable, buildIndex, writeIndexFile.
  destruct (file_of (getIndexPath t k)) as [p|];
    unfold bind, modify, now, ret, throw; simpl.
  - eexists. eexists. split; [reflexivity|]. split; [reflexivity|].
    split; [reflexivity|]. now left.
  - eexists. eexists. split; [reflexivity|]. split; [reflexivity|].
    split; [reflexivity|]. right. split; reflexivity.
Qed.

(** The metadata [createTable] writes for a schema. *)
Definition metadata_of (t : string) (schema : Schema) (date : string) : Metadata :=
  {| tableName := t;
     columns := schema_columns schema;
     primaryKey := match schema_primaryKey schema with
                   | Some k => if truthy_string k then Some k else None
                   | None => None
                   end;
     uniqueKeys := schema_uniqueKeys schema;
     createdAt := date |}.

(** [createDefaultIndexes] leaves the tables as they are; it succeeds
    exactly when the index files of the key columns can be opened, and
    then the cache holds the index of the rows for each of them. *)
Lemma createDefaultIndexes_spec (t : string) (md : Metadata) (rs : list Row)
    (d : DB) :
  exists o d',
    createDefaultIndexes t md rs d = (o, d') /\
    storage d' = storage d /\ tables d' = tables d /\
    (indexable t md = true ->
     o = Ok tt /\
     forall c, In c (key_columns md) ->
       indexes d' !! cacheKey t c = Some (hashIndex c rs)) /\
    (o = Ok tt -> indexable t md = true) /\
    (forall c, first_closed t (key_columns md) = Some c ->
               o = Throw (open_error (getIndexPath t c))).
Proof.
  unfold createDefaultIndexes. rewrite when_primaryKey_for_each.
  destruct (for_each_index t rs _ (key_columns md) d (buildIndex_step t rs))
    as (o & d' & H & Hs' & Ht' & Hall & Hok & Hbad).
  exists o, d'. split; [exact H|]. split; [exact Hs'|]. split; [exact Ht'|].
  split; [|split; [exact Hok|exact Hbad]].
  intros Hi. destruct (Hall Hi) as [-> Hc].
  split; [reflexivity|]. intros c Hin. apply Hc. now right.
Qed.

Lemma metadata_of_key_truthy (t : string) (schema : Schema) (date pk : string) :
  primaryKey (metadata_of t schema date) = Some pk -> truthy_string pk = true.
Proof.
  unfold metadata_of. simpl.
  destruct (schema_primaryKey schema) as [k|]; [|discriminate].
  destruct (truthy_string k) eqn:E; [|discriminate]. now intros [= <-].
Qed.

(** Whether the two files of a table can be created. *)
Definition creatable (t : string) : bool :=
  match file_of (t ++ ".meta.json"), file_of (t ++ ".json") with
  | Some _, Some _ => true
  | _, _ => false
  end.

Lemma storage_createTable_run (t : string) (schema : Schema) (d : DB) :
  storage d !! t = None -> creatable t = true ->
  let md := metadata_of t schema (reading (clock d) (tick (clock d))) in
  storage_createTable t schema d
  = (Ok md,
     with_storage (fun st => <[t := (md, [])]> st)
       (with_clock {| reading := reading (clock d);
                      tick := S (tick (clock d)) |} d)).
Proof.
  intros Hs Hc md. unfold creatable in Hc.
  unfold storage_createTable, tableExists, createFile, bind, gets, now,
    modify, ret.
  rewrite Hs. simpl.
  destruct (file_of (t ++ ".meta.json")); [|discriminate].
  destruct (file_of (t ++ ".json")); [|discriminate]. reflexivity.
Qed.

(** CREATE TABLE of a table that does not exist, whose files and index
    files can be created, stores the metadata of the schema with no rows,
    caches the table object and builds the empty index of the primary key
    and of every unique key. *)
Theorem createTable_new (t : string) (schema : Schema) (d : DB) :
  storage d !! t = None ->
  creatable t = true ->
  let md := metadata_of t schema (reading (clock d) (tick (clock d))) in
  indexable t md = true ->
  exists d',
    execute (CREATE_TABLE t schema) d
    = (Ok {| success := true;
             message := Some ("Table '" ++ t ++ "' created successfully");
             rows := None; count := None; row := None; table := Some md;
             error := None |}, d') /\
    storage d' = <[t := (md, [])]> (storage d) /\
    tables d' = <[t := md]> (tables d) /\
    (forall pk, primaryKey md = Some pk ->
                indexes d' !! cacheKey t pk = Some []) /\
    (forall k, In k (uniqueKeys md) -> indexes d' !! cacheKey t k = Some []).
Proof.
  intros Hs Hc md Hx.
  set (d0 := with_storage (fun st => <[t := (md, [])]> st)
               (with_clock {| reading := reading (clock d);
                              tick := S (tick (clock d)) |} d)).
  set (d1 := with_tables (fun ts => <[t := md]> ts) d0).
  pose proof (storage_createTable_run t schema d Hs Hc) as Hrun.
  fold md in Hrun. cbv zeta in Hrun. fold d0 in Hrun.
  destruct (createDefaultIndexes_spec t md [] d1)
    as (o & d3 & H3 & Hs3 & Ht3 & Hall & _ & _).
  destruct (Hall Hx) as [-> Hk3].
  assert (Hk : createTable t schema d = (Ok md, d3)).
  { unfold createTable. rewrite (bind_Ok _ _ d md d0 Hrun).
    rewrite (bind_Ok _ _ d0 tt d1 eq_refl).
    now rewrite (bind_Ok _ _ d1 tt d3 H3). }
  exists d3. split; [|split; [|split; [|split]]].
  - change (execute (CREATE_TABLE t schema) d)
      with (executeCreateTable t schema d).
    unfold executeCreateTable. now rewrite (bind_Ok _ _ d md d3 Hk).
  - now rewrite Hs3.
  - now rewrite Ht3.
  - intros pk Hpk. apply (Hk3 pk). apply In_key_columns. left.
    split; [exact Hpk|]. exact (metadata_of_key_truthy _ _ _ _ Hpk).
  - intros k Hin. apply (Hk3 k). apply In_key_columns. now right.
Qed.

(** CREATE TABLE of a table that exists throws and changes nothing. *)
Theorem createTable_exists (t : string) (schema : Schema) (d : DB)
    (m : Metadata) (rs : list Row) :
  storage d !! t = Some (m, rs) ->
  execute (CREATE_TABLE t schema) d
  = (Throw ("Table '" ++ t ++ "' already exists"), d).
Proof.
  intros Hs. simpl.
  unfold executeCreateTable, createTable, storage_createTable, tableExists,
    bind, gets, throw.
  now rewrite Hs.
Qed.

(** Whether a statement works on the existing table [t]; the left table
    of a JOIN. *)
Definition works_on (q : Query) (t : string) : Prop :=
  match q with
  | INSERT t' _ | UPDATE t' _ _ | DELETE t' _ | DROP_TABLE t'
  | SELECT _ t' _ _ _ => t' = t
  | CREATE_TABLE _ _ => False
  end.

Lemma execute_missing_table (t : string) (d : DB) (q : Query) :
  storage d !! t = None -> tables d !! t = None ->
  works_on q t ->
  execute q d = (Throw ("Table '" ++ t ++ "' does not exist"), d).
Proof.
  intros Hs Ht Hq.
  assert (Hg : getTable t d = (Throw ("Table '" ++ t ++ "' does not exist"), d)).
  { unfold getTable, getTableMetadata, bind, gets, throw. now rewrite Ht, Hs. }
  destruct q as [t' schema|t' r|cols t' a j w|t' u w|t' w|t']; simpl;
    try destruct Hq.
  - unfold executeInsert. now apply bind_Throw.
  - unfold executeSelect. destruct j as [j|].
    + unfold executeJoin. now apply bind_Throw.
    + now apply bind_Throw.
  - unfold executeUpdate. now apply bind_Throw.
  - unfold executeDelete. now apply bind_Throw.
  - unfold executeDropTable, dropTable, getTableMetadata, bind, gets, throw.
    now rewrite Hs.
Qed.

(** Every statement that parses and works on a table that is neither
    stored nor cached returns the failure [does not exist] from [query]
    and changes nothing: no statement but CREATE TABLE brings a table into
    being. *)
Theorem missing_table_throws (sql : string) (q : Query) (t : string) (d : DB) :
  parse sql = Ok q -> works_on q t ->
  storage d !! t = None -> tables d !! t = None ->
  query sql d = (failure ("Table '" ++ t ++ "' does not exist"), d).
Proof.
  intros Hp Hq Hs Ht. unfold query, parse_execute, bind, lift. rewrite Hp.
  now rewrite (execute_missing_table t d q Hs Ht Hq).
Qed.

Lemma dropIndex_run (t k : string) (d : DB) :
  exists d1,
    dropIndex t k d = (Ok tt, d1) /\
    storage d1 = storage d /\ tables d1 = tables d /\
    indexes d1 = delete (cacheKey t k) (indexes d) /\
    (forall p, indexFiles d !! p = None -> indexFiles d1 !! p = None) /\
    indexFile t k d1 = None.
Proof.
  unfold dropIndex, removeIndexFile, indexFile.
  destruct (file_of (getIndexPath t k)) as [p|];
    unfold bind, modify, ret; simpl.
  - eexists. split; [reflexivity|]. simpl. repeat split; trivial.
    + intros q Hq. destruct (decide (p = q)) as [<-|Hne];
        [apply lookup_delete_eq|now rewrite lookup_delete_ne].
    + apply lookup_delete_eq.
  - eexists. split; [reflexivity|]. simpl. now repeat split.
Qed.

Lemma indexFile_None (t c : string) (d d' : DB) :
  (forall p, indexFiles d !! p = None -> indexFiles d' !! p = None) ->
  indexFile t c d = None -> indexFile t c d' = None.
Proof.
  unfold indexFile. intros H. destruct (file_of (getIndexPath t c)); auto.
Qed.

Lemma for_each_dropIndex (t : string) (keys : list string) (d : DB) :
  exists d',
    for_each keys (fun k => dropIndex t k) d = (Ok tt, d') /\
    storage d' = storage d /\ tables d' = tables d /\
    (forall key, indexes d !! key = None -> indexes d' !! key = None) /\
    (forall p, indexFiles d !! p = None -> indexFiles d' !! p = None) /\
    forall c, In c keys ->
      indexes d' !! cacheKey t c = None /\ indexFile t c d' = None.
Proof.
  revert d. induction keys as [|k keys IH]; intros d; simpl.
  - exists d. split; [reflexivity|]. split; [reflexivity|].
    split; [reflexivity|]. split; [trivial|]. split; [trivial|]. intros c [].
  - destruct (dropIndex_run t k d) as (d1 & H1 & Hs1 & Ht1 & Hi1 & Hf1 & Hk1).
    destruct (IH d1) as (d' & H' & Hs' & Ht' & Hi' & Hf' & Hk').
    exists d'. split; [now rewrite (bind_Ok _ _ d tt d1 H1)|].
    split; [congruence|]. split; [congruence|].
    split; [|split].
    + intros key Hn. apply Hi'. rewrite Hi1.
      destruct (decide (cacheKey t k = key)) as [<-|Hne];
        [apply lookup_delete_eq|now rewrite lookup_delete_ne].
    + intros p Hn. apply Hf'. now apply Hf1.
    + intros c [<-|Hc]; [|now apply Hk'].
      split; [apply Hi'; rewrite Hi1; apply lookup_delete_eq|].
      exact (indexFile_None t k d1 d' Hf' Hk1).
Qed.

Lemma dropTable_run (t : string) (d : DB) (m : Metadata) (rs : list Row) :
  storage d !! t = Some (m, rs) ->
  exists d',
    dropTable t d = (Ok tt, d') /\
    storage d' = delete t (storage d) /\
    tables d' = delete t (tables d) /\
    forall c, In c (key_columns m) ->
      indexes d' !! cacheKey t c = None /\ indexFile t c d' = None.
Proof.
  intros Hs. unfold dropTable.
  rewrite (bind_Ok _ _ d m d (getTableMetadata_run _ _ _ _ Hs)).
  rewrite when_primaryKey_for_each_then.
  destruct (for_each_dropIndex t (key_columns m) d)
    as (d2 & H2 & Hs2 & Ht2 & _ & _ & Hk2).
  rewrite (bind_Ok _ _ d tt d2 H2).
  assert (Hs2' : storage d2 !! t = Some (m, rs)) by now rewrite Hs2.
  assert (H3 : storage_dropTable t d2
               = (Ok tt, with_storage (fun st => delete t st) d2)).
  { unfold storage_dropTable, tableExists, bind, gets, modify.
    now rewrite Hs2'. }
  rewrite (bind_Ok _ _ d2 tt _ H3).
  eexists. split; [reflexivity|]. simpl.
  split; [now rewrite Hs2|]. split; [now rewrite Ht2|].
  intros c Hc. destruct (Hk2 c Hc) as [Hi Hf]. split; [exact Hi|exact Hf].
Qed.

(** DROP TABLE of a stored table removes the table, its cached table
    object and the indexes of its primary key and unique keys, from the
    cache and from the disk; every later statement on the table throws
    [does not exist]. *)
Theorem dropTable_removes (t : string) (d : DB) (m : Metadata) (rs : list Row) :
  storage d !! t = Some (m, rs) ->
  exists d',
    execute (DROP_TABLE t) d
    = (Ok {| success := true;
             message := Some ("Table '" ++ t ++ "' dropped successfully");
             rows := None; count := None; row := None; table := None;
             error := None |}, d') /\
    storage d' = delete t (storage d) /\
    tables d' = delete t (tables d) /\
    (forall c, In c (key_columns m) ->
       indexes d' !! cacheKey t c = None /\ indexFile t c d' = None) /\
    forall q, works_on q t ->
      execute q d' = (Throw ("Table '" ++ t ++ "' does not exist"), d').
Proof.
  intros Hs.
  destruct (dropTable_run t d m rs Hs) as (d' & Hd & Hs' & Ht' & Hi').
  exists d'. split; [|split; [|split; [|split]]]; trivial.
  - change (execute (DROP_TABLE t) d) with (executeDropTable t d).
    unfold executeDropTable. now rewrite (bind_Ok _ _ d tt d' Hd).
  - intros q Hq. apply execute_missing_table; trivial.
    + rewrite Hs'. apply lookup_delete_eq.
    + rewrite Ht'. apply lookup_delete_eq.
Qed.

End Tables.

Section TableExamples.
#[local] Existing Instance DecRuntime.

Definition schema_u : Schema :=
  {| schema_columns := columns meta_u;
     schema_primaryKey := Some "id";
     schema_uniqueKeys := ["email"] |}.

Lemma createTable_new_witness :
  exists d',
    execute (CREATE_TABLE "u" schema_u) (emptyDB clock0)
    = (Ok {| success := true;
             message := Some "Table 'u' created successfully";
             rows := None; count := None; row := None; table := Some meta_u;
             error := None |}, d') /\
    storage d' !! "u" = Some (meta_u, []) /\
    indexes d' !! cacheKey "u" "id" = Some [] /\
    indexes d' !! cacheKey "u" "email" = Some [].
Proof.
  destruct (createTable_new (RT := DecRuntime) "u" schema_u (emptyDB clock0)
              eq_refl eq_refl eq_refl)
    as (d' & He & Hs & _ & Hp & Hu).
  exists d'. split; [exact He|]. split; [|split].
  - rewrite Hs. apply lookup_insert_eq.
  - exact (Hp "id" eq_refl).
  - exact (Hu "email" (or_introl eq_refl)).
Defined.

Lemma createTable_exists_witness :
  execute (CREATE_TABLE "t" schema_u) db_t
  = (Throw "Table 't' already exists", db_t).
Proof.
  exact (createTable_exists (RT := DecRuntime) "t" schema_u db_t meta_t
           [row_1a] db_t_storage).
Defined.

Lemma missing_table_throws_witness :
  query "DELETE FROM orders WHERE id = 1" db_t
  = (failure "Table 'orders' does not exist", db_t).
Proof.
  exact (missing_table_throws (RT := DecRuntime)
           "DELETE FROM orders WHERE id = 1"
           (DELETE "orders" (Some where_id_1)) "orders" db_t
           eq_refl eq_refl eq_refl eq_refl).
Defined.

Lemma dropTable_removes_witness :
  exists d',
    execute (DROP_TABLE "t") db_t
    = (Ok {| success := true; message := Some "Table 't' dropped successfully";
             rows := None; count := None; row := None; table := None;
             error := None |}, d') /\
    storage d' !! "t" = None /\
    indexes d' !! cacheKey "t" "id" = None /\
    execute (SELECT ["*"] "t" None None None) d'
    = (Throw "Table 't' does not exist", d').
Proof.
  destruct (dropTable_removes (RT := DecRuntime) "t" db_t meta_t [row_1a]
              db_t_storage)
    as (d' & He & Hs & _ & Hi & Hq).
  exists d'. split; [exact He|]. split; [|split].
  - rewrite Hs. apply lookup_delete_eq.
  - exact (proj1 (Hi "id" (or_introl eq_refl))).
  - exact (Hq (SELECT ["*"] "t" None None None) eq_refl).
Defined.

End TableExamples.

(** ** Statements that fail after they have written *)

Section IndexFailures.
Context `{RT : Runtime}.

(** CREATE TABLE of a table that does not exist and whose files can be
    created, but with a key column whose index file cannot be opened,
    throws the error of that write after the table was stored and
    cached: the statement fails and the table exists, with no rows. *)
Theorem createTable_index_failure (t : string) (schema : Schema) (d : DB)
    (c : string) :
  storage d !! t = None ->
  creatable t = true ->
  let md := metadata_of t schema (reading (clock d) (tick (clock d))) in
  first_closed t (key_columns md) = Some c ->
  exists d',
    execute (CREATE_TABLE t schema) d
    = (Throw (open_error (getIndexPath t c)), d') /\
    storage d' = <[t := (md, [])]> (storage d) /\
    tables d' = <[t := md]> (tables d) /\
    execute (CREATE_TABLE t schema) d'
    = (Throw ("Table '" ++ t ++ "' already exists"), d').
Proof.
  intros Hs Hc md Hbad.
  set (d0 := with_storage (fun st => <[t := (md, [])]> st)
               (with_clock {| reading := reading (clock d);
                              tick := S (tick (clock d)) |} d)).
  set (d1 := with_tables (fun ts => <[t := md]> ts) d0).
  pose proof (storage_createTable_run t schema d Hs Hc) as Hrun.
  fold md in Hrun. cbv zeta in Hrun. fold d0 in Hrun.
  destruct (createDefaultIndexes_spec t md [] d1)
    as (o & d3 & H3 & Hs3 & Ht3 & _ & _ & Hthrow).
  rewrite (Hthrow c Hbad) in H3.
  assert (Hst : storage d3 = <[t := (md, [])]> (storage d)) by now rewrite Hs3.
  exists d3. split; [|split; [exact Hst|split; [now rewrite Ht3|]]].
  - change (execute (CREATE_TABLE t schema) d)
      with (executeCreateTable t schema d).
    unfold executeCreateTable. apply bind_Throw.
    unfold createTable. rewrite (bind_Ok _ _ d md d0 Hrun).
    rewrite (bind_Ok _ _ d0 tt d1 eq_refl). now apply bind_Throw.
  - apply (createTable_exists t schema d3 md []).
    rewrite Hst. apply lookup_insert_eq.
Qed.

(** An INSERT that passes the three checks, on a table with a key column
    whose index file cannot be opened, throws the error of that write
    after the row was appended: the statement fails and the row is
    stored. *)
Theorem insert_index_failure (t : string) (r : Row) (d : DB) (m : Metadata)
    (rs : list Row) (c : string) :
  storage d !! t = Some (m, rs) ->
  (tables d !! t = None \/ tables d !! t = Some m) ->
  validateRow m (prepareRow m r) = Ok true ->
  validatePrimaryKey m (prepareRow m r) rs = Ok true ->
  validateUniqueKeys m (prepareRow m r) rs = Ok true ->
  first_closed t (key_columns m) = Some c ->
  exists d',
    execute (INSERT t r) d = (Throw (open_error (getIndexPath t c)), d') /\
    storage d' = <[t := (m, map json_row (rs ++ [prepareRow m r]))]> (storage d).
Proof.
  intros Hs Ht Hv Hk Hu Hbad.
  destruct (getTable_run t d m rs Hs Ht) as (d0 & Hg & Hs0 & _).
  assert (Hs0' : storage d0 !! t = Some (m, rs)) by now rewrite Hs0.
  assert (Hi : insert m t r d0
               = (Ok (prepareRow m r),
                  with_storage
                    (fun st =>
                       <[t := (m, map json_row (rs ++ [prepareRow m r]))]> st)
                    d0)).
  { rewrite (insert_run m t r d0 m rs Hs0'), Hv, Hk, Hu. reflexivity. }
  set (d2 := with_storage _ d0) in Hi.
  assert (Hs2 : storage d2 !! t
                = Some (m, map json_row (rs ++ [prepareRow m r])))
    by (unfold d2; simpl; apply lookup_insert_eq).
  destruct (rebuildIndexes_spec t d2 m _ Hs2)
    as (o & d3 & Hr & Hs3 & _ & _ & _ & Hthrow).
  rewrite (Hthrow c Hbad) in Hr.
  exists d3. split.
  - change (execute (INSERT t r) d) with (executeInsert t r d).
    unfold executeInsert. rewrite (bind_Ok _ _ d m d0 Hg).
    rewrite (bind_Ok _ _ d0 _ d2 Hi). now apply bind_Throw.
  - rewrite Hs3. unfold d2. simpl. now rewrite Hs0.
Qed.

End IndexFailures.

Section IndexFailureExamples.
#[local] Existing Instance DecRuntime.

Definition schema_slash : Schema :=
  {| schema_columns := [{| name := "id"; type := "INTEGER";
                           constraints := ["PRIMARY_KEY"; "NOT_NULL"] |};
                        {| name := "a/b"; type := "TEXT";
                           constraints := ["UNIQUE"] |}];
     schema_primaryKey := Some "id";
     schema_uniqueKeys := ["a/b"] |}.

Definition meta_slash : Metadata :=
  {| tableName := "t"; columns := schema_columns schema_slash;
     primaryKey := Some "id"; uniqueKeys := ["a/b"];
     createdAt := "2026-01-10T00:00:00.000Z" |}.

Lemma createTable_index_failure_witness :
  exists d',
    execute (CREATE_TABLE "t" schema_slash) (emptyDB clock0)
    = (Throw enoent_t_a_b, d') /\
    storage d' !! "t" = Some (meta_slash, []).
Proof.
  destruct (createTable_index_failure (RT := DecRuntime)
              "t" schema_slash (emptyDB clock0) "a/b" eq_refl eq_refl eq_refl)
    as (d' & He & Hs & _).
  exists d'. split; [exact He|]. rewrite Hs. apply lookup_insert_eq.
Defined.

Lemma db_slash_storage : storage db_slash !! "t" = Some (meta_slash, []).
Proof. reflexivity. Qed.

Lemma db_slash_tables : tables db_slash !! "t" = Some meta_slash.
Proof. reflexivity. Qed.

Lemma insert_index_failure_witness :
  exists d',
    execute (INSERT "t" row_1) db_slash = (Throw enoent_t_a_b, d') /\
    storage d' !! "t" = Some (meta_slash, [row_1_slash]).
Proof.
  destruct (insert_index_failure (RT := DecRuntime)
              "t" row_1 db_slash meta_slash [] "a/b"
              db_slash_storage (or_intror db_slash_tables)
              eq_refl eq_refl eq_refl eq_refl)
    as (d' & He & Hs).
  exists d'. split; [exact He|]. rewrite Hs. apply lookup_insert_eq.
Defined.

End IndexFailureExamples.

(** ** SELECT with a WHERE clause that is scanned *)

Section Selecting.
Context `{RT : Runtime}.

Lemma filter_throw_holds (c : Condition) (rs : list Row) :
  valid c = true ->
  filter_throw (fun row => evaluateCondition row c) rs
  = Ok (List.filter (holds c) rs).
Proof.
  intros Hv. induction rs as [|r rs IH]; simpl; [reflexivity|].
  rewrite (evaluateCondition_holds r c Hv), IH. now destruct (holds c r).
Qed.

(** The object the callback of [rows.map] in [executeSelect] builds for a
    row. *)
Definition projection (cols : list string) (r : Row) : Row :=
  fold_left (fun projected col => set projected col (get r col)) cols [].

Lemma map_throw_project (cols : list string) (l : list Row) :
  map_throw (project_row cols) (map Some l)
  = Ok (map (fun r => Some (projection cols r)) l).
Proof.
  induction l as [|r l IH]; [reflexivity|].
  cbn [map map_throw]. rewrite IH. reflexivity.
Qed.

(** A SELECT whose WHERE clause is valid and is not answered from an
    index (any AND, OR or comparison other than [=], and an equality on a
    column without index) returns the stored rows on which the clause
    holds, in the order of the table, projected on the columns asked for;
    [count] is their number; the tables and the indexes stay as they
    were. *)
Theorem select_where_scan (cols : list string) (t : string)
    (tableAlias : option string) (c : Condition) (d : DB) (m : Metadata)
    (rs : list Row) :
  storage d !! t = Some (m, rs) ->
  valid c = true ->
  match index_candidate c with
  | None => True
  | Some column =>
      indexes d !! cacheKey t column = None /\
      indexFile t column d = None
  end ->
  let matching := List.filter (holds c) rs in
  let shown :=
    if projects cols then map (projection cols) matching else matching in
  exists d',
    execute (SELECT cols t tableAlias None (Some c)) d
    = (Ok {| success := true; message := None;
             rows := Some (map Some shown); count := Some (length matching);
             row := None; table := None; error := None |}, d') /\
    storage d' = storage d /\ indexes d' = indexes d /\
    indexFiles d' = indexFiles d.
Proof.
  intros Hs Hv Hi matching shown.
  destruct (getTable_stored t d m rs Hs) as (md & d0 & Hg & Hs0 & Hi0 & Hf0 & _).
  assert (Hs0' : storage d0 !! t = Some (m, rs)) by now rewrite Hs0.
  assert (Hf : filterRows rs c t d0 = (Ok (map Some matching), d0)).
  { rewrite filterRows_scans.
    - unfold scanRows. now rewrite (filter_throw_holds c rs Hv).
    - destruct (index_candidate c); [|trivial]. unfold indexFile.
      now rewrite Hi0, Hf0. }
  exists d0. split; [|now repeat split].
  change (execute (SELECT cols t tableAlias None (Some c)) d)
    with (executeSelect cols t tableAlias None (Some c) d).
  unfold executeSelect. rewrite (bind_Ok _ _ d md d0 Hg).
  unfold getAll. rewrite (bind_Ok _ _ d0 rs d0 (loadTableData_run _ _ _ _ Hs0')).
  rewrite (bind_Ok _ _ d0 _ d0 Hf).
  unfold shown. destruct (projects cols).
  - unfold bind, lift. rewrite map_throw_project. unfold ret.
    now rewrite !length_map, map_map.
  - unfold bind, ret. now rewrite length_map.
Qed.

End Selecting.

Section SelectingExamples.
#[local] Existing Instance DecRuntime.

Lemma select_where_scan_witness :
  exists d',
    execute (SELECT ["name"] "t" None None (Some where_id_ge_2)) db_two
    = (Ok {| success := true; message := None;
             rows := Some [Some [("name", VStr "b")]]; count := Some 1%nat;
             row := None; table := None; error := None |}, d').
Proof.
  destruct (select_where_scan (RT := DecRuntime)
              ["name"] "t" None where_id_ge_2 db_two meta_t [row_1a; row_2b]
              db_two_storage eq_refl I)
    as (d' & He & _).
  exists d'. exact He.
Defined.

End SelectingExamples.

(** ** JOIN *)

Section Joining.
Context `{RT : Runtime}.

(** The nested loop keeps, in the order of the left table and within it
    of the right table, the pairs of rows whose join columns are strictly
    equal. *)
Lemma nestedLoop_product (ln rn lc rc : string) (L R : list Row) :
  nestedLoop ln rn lc rc L R
  = map (fun p => joinRow ln rn (fst p) (snd p))
        (List.filter (fun p => strictEq (get (fst p) lc) (get (snd p) rc))
                     (list_prod L R)).
Proof.
  unfold nestedLoop. induction L as [|l L IH]; simpl; [reflexivity|].
  rewrite List.filter_app, map_app, IH. f_equal. clear IH.
  induction R as [|r R IHR]; simpl; [reflexivity|].
  destruct (strictEq (get l lc) (get r rc)); simpl; now rewrite IHR.
Qed.

(** [SELECT *] with a JOIN on two stored tables returns one merged row
    for every pair of a left and a right row whose join columns are
    strictly equal, left rows first; of the two columns of the ON clause
    the left table takes the first when the alias before it is the alias
    of the left table (or, without alias, the first letter of its name),
    and the second otherwise, and likewise the right table.  No value is
    converted: [1] and ['1'] do not join. *)
Theorem join_selects_equal_pairs (t : string) (tableAlias : option string)
    (j : Join) (cond : option Condition) (d : DB) (m m' : Metadata)
    (L R : list Row) (leftAlias leftCol rightAlias rightCol : string) :
  storage d !! t = Some (m, L) ->
  storage d !! join_tableName j = Some (m', R) ->
  onMatch (join_on j) = Some (leftAlias, leftCol, rightAlias, rightCol) ->
  let lc := if String.eqb leftAlias (alias_or_initial tableAlias t)
            then leftCol else rightCol in
  let rc := if String.eqb rightAlias
                 (alias_or_initial (join_tableAlias j) (join_tableName j))
            then rightCol else leftCol in
  let pairs :=
    List.filter (fun p => strictEq (get (fst p) lc) (get (snd p) rc))
                (list_prod L R) in
  exists d',
    execute (SELECT ["*"] t tableAlias (Some j) cond) d
    = (Ok {| success := true; message := None;
             rows := Some (map (fun p => Some (joinRow t (join_tableName j)
                                                 (fst p) (snd p))) pairs);
             count := Some (length pairs);
             row := None; table := None; error := None |}, d') /\
    storage d' = storage d /\ indexes d' = indexes d /\
    indexFiles d' = indexFiles d.
Proof.
  intros Hl Hr Hon lc rc pairs.
  destruct (getTable_stored t d m L Hl) as (md & d0 & Hg & Hs0 & Hi0 & Hf0 & _).
  assert (Hr0 : storage d0 !! join_tableName j = Some (m', R)) by now rewrite Hs0.
  destruct (getTable_stored _ d0 m' R Hr0)
    as (md' & d1 & Hg' & Hs1 & Hi1 & Hf1 & _).
  assert (Hl1 : storage d1 !! t = Some (m, L)) by now rewrite Hs1, Hs0.
  assert (Hr1 : storage d1 !! join_tableName j = Some (m', R)) by now rewrite Hs1.
  exists d1. split; [|repeat split; congruence].
  change (execute (SELECT ["*"] t tableAlias (Some j) cond) d)
    with (executeJoin ["*"] t tableAlias j d).
  unfold executeJoin. rewrite (bind_Ok _ _ d md d0 Hg).
  rewrite (bind_Ok _ _ d0 md' d1 Hg'). unfold getAll.
  rewrite (bind_Ok _ _ d1 L d1 (loadTableData_run _ _ _ _ Hl1)).
  rewrite (bind_Ok _ _ d1 R d1 (loadTableData_run _ _ _ _ Hr1)).
  rewrite Hon. cbn [projects String.eqb Ascii.eqb Bool.eqb negb].
  fold lc rc. rewrite nestedLoop_product. fold pairs. unfold ret.
  now rewrite !length_map, map_map.
Qed.

Lemma eqb_append_l (p a b : string) :
  String.eqb (p ++ a) (p ++ b) = String.eqb a b.
Proof.
  induction p as [|c p IH]; [reflexivity|].
  rewrite !append_cons. cbn [String.eqb]. now rewrite Ascii.eqb_refl.
Qed.

Lemma In_has (r : Row) (x : string * value) : In x r -> has r (fst x) = true.
Proof.
  induction r as [|[k v] r IH]; simpl; [tauto|].
  intros [<-|Hin]; simpl; [now rewrite String.eqb_refl|].
  rewrite (IH Hin). apply orb_true_r.
Qed.

Lemma find_key_None (r : Row) (k : string) :
  find (fun x => String.eqb (fst x) k) r = None -> has r k = false.
Proof.
  induction r as [|[k' v] r IH]; simpl; [reflexivity|].
  destruct (String.eqb k' k); [discriminate|]. exact IH.
Qed.

Lemma find_key_rev_None (r : Row) (k : string) :
  find (fun x => String.eqb (fst x) k) (rev r) = None -> has r k = false.
Proof.
  intros H. destruct (has r k) eqn:E; [|reflexivity].
  destruct (find (fun x => String.eqb (fst x) k) r) as [x|] eqn:F.
  - apply List.find_some in F as [Hin Hk].
    apply in_rev in Hin. pose proof (List.find_none _ _ H x Hin) as Hn.
    simpl in Hn. congruence.
  - apply find_key_None in F. congruence.
Qed.

(** In an object the last assignment to a property is the only one. *)
Lemma get_find_rev (r : Row) (k : string) :
  List.NoDup (map fst r) ->
  match find (fun x => String.eqb (fst x) k) (rev r) with
  | Some x => snd x
  | None => VUndefined
  end = get r k.
Proof.
  induction r as [|[k0 v0] r IH]; [reflexivity|].
  intros Hnd. inversion Hnd as [|? ? Hk0 Hr]; subst.
  cbn [rev get]. rewrite find_app_last. cbn [fst snd].
  destruct (String.eqb_spec k0 k) as [->|Hne].
  - destruct (find _ (rev r)) as [y|] eqn:F; [|reflexivity].
    apply List.find_some in F as [Hin Hy]. apply in_rev in Hin.
    apply String.eqb_eq in Hy. destruct Hk0. rewrite <- Hy.
    now apply in_map.
  - specialize (IH Hr). now destruct (find _ (rev r)).
Qed.

Lemma find_ext {A} (f g : A -> bool) (l : list A) :
  (forall x, f x = g x) -> find f l = find g l.
Proof.
  intros H. induction l as [|x l IH]; simpl; [reflexivity|].
  now rewrite H, IH.
Qed.

Lemma get_prefix_entries (t : string) (r acc : Row) (k : string) :
  List.NoDup (map fst r) -> has r k = true ->
  get (prefix_entries t r acc) (t ++ "." ++ k) = get r k.
Proof.
  intros Hnd Hk. unfold prefix_entries.
  rewrite (get_fold_set (fun kv => t ++ "." ++ fst kv) snd).
  rewrite (find_ext _ (fun x => String.eqb (fst x) k)).
  - pose proof (get_find_rev r k Hnd) as H.
    destruct (find _ (rev r)) as [x|] eqn:F; [exact H|].
    apply find_key_rev_None in F. congruence.
  - intros x. now rewrite !eqb_append_l.
Qed.

(** A merged row holds every column of the right row under
    [right.column], and every column of the left row under [left.column]
    unless that name is also the name of a right column, as it is for
    every column when a table is joined with itself: the merged row then
    shows the values of the right row alone. *)
Theorem joinRow_values (ln rn : string) (l r : Row) (k : string) :
  List.NoDup (map fst l) -> List.NoDup (map fst r) ->
  (has r k = true -> get (joinRow ln rn l r) (rn ++ "." ++ k) = get r k)
  /\ (has l k = true ->
      (forall k', has r k' = true -> rn ++ "." ++ k' <> ln ++ "." ++ k) ->
      get (joinRow ln rn l r) (ln ++ "." ++ k) = get l k)
  /\ (ln = rn -> has l k = true -> has r k = true ->
      get (joinRow ln rn l r) (ln ++ "." ++ k) = get r k).
Proof.
  intros Hl Hr. unfold joinRow. split; [|split].
  - intros Hk. now apply get_prefix_entries.
  - intros Hk Hfree. unfold prefix_entries at 1.
    rewrite (get_fold_set (fun kv => rn ++ "." ++ fst kv) snd).
    destruct (find _ (rev r)) as [x|] eqn:F.
    + apply List.find_some in F as [Hin Hx]. apply in_rev in Hin.
      apply String.eqb_eq in Hx. destruct (Hfree (fst x) (In_has r x Hin) Hx).
    + now apply get_prefix_entries.
  - intros -> _ Hk. now apply get_prefix_entries.
Qed.

End Joining.

Section JoiningExamples.
#[local] Existing Instance DecRuntime.

Definition meta_users : Metadata :=
  {| tableName := "users";
     columns := [{| name := "id"; type := "INTEGER";
                    constraints := ["PRIMARY_KEY"; "NOT_NULL"] |};
                 {| name := "name"; type := "TEXT"; constraints := [] |}];
     primaryKey := Some "id";
     uniqueKeys := [];
     createdAt := "2026-01-10T00:00:00.000Z" |}.

Definition meta_orders : Metadata :=
  {| tableName := "orders";
     columns := [{| name := "order_id"; type := "INTEGER";
                    constraints := ["PRIMARY_KEY"; "NOT_NULL"] |};
                 {| name := "user_id"; type := "INTEGER"; constraints := [] |};
                 {| name := "amount"; type := "FLOAT"; constraints := [] |}];
     primaryKey := Some "order_id";
     uniqueKeys := [];
     createdAt := "2026-01-10T00:00:00.000Z" |}.

Definition user_alice : Row := [("id", VNum (DFin 1 0)); ("name", VStr "Alice")].
Definition user_bob : Row := [("id", VNum (DFin 1 0)); ("name", VStr "Bob")].

Definition order_101 : Row :=
  [("order_id", VNum (DFin 101 0)); ("user_id", VNum (DFin 1 0));
   ("amount", VNum (DFin 25 0))].
Definition order_102 : Row :=
  [("order_id", VNum (DFin 102 0)); ("user_id", VNum (DFin 1 0));
   ("amount", VNum (DFin 755 1))].

Lemma db_orders_users :
  storage db_orders !! "users" = Some (meta_users, [user_alice]).
Proof. reflexivity. Qed.

Lemma db_orders_orders :
  storage db_orders !! "orders" = Some (meta_orders, [order_101; order_102]).
Proof. reflexivity. Qed.

(** The ON clause names the right table first. *)
Definition join_orders : Join :=
  {| join_tableName := "orders"; join_tableAlias := Some "o";
     join_on := "o.user_id = u.id" |}.

Lemma join_selects_equal_pairs_witness :
  exists d',
    execute (SELECT ["*"] "users" (Some "u") (Some join_orders) None) db_orders
    = (Ok {| success := true; message := None;
             rows := Some [Some merged_25; Some merged_75];
             count := Some 2%nat; row := None; table := None;
             error := None |}, d').
Proof.
  destruct (join_selects_equal_pairs (RT := DecRuntime)
              "users" (Some "u") join_orders None db_orders
              meta_users meta_orders [user_alice] [order_101; order_102]
              "o" "user_id" "u" "id"
              db_orders_users db_orders_orders eq_refl)
    as (d' & He & _).
  exists d'. exact He.
Defined.

Lemma user_keys_NoDup (r : Row) :
  map fst r = ["id"; "name"] -> List.NoDup (map fst r).
Proof.
  intros ->. constructor; [|constructor; [|constructor]]; simpl;
    intuition discriminate.
Qed.

(** Joined with itself, [users] shows the name of the right row under
    [users.name]. *)
Lemma joinRow_values_witness :
  get (joinRow "users" "users" user_alice user_bob) "users.name" = VStr "Bob".
Proof.
  exact (proj2 (proj2 (joinRow_values (RT := DecRuntime)
                         "users" "users" user_alice user_bob "name"
                         (user_keys_NoDup user_alice eq_refl)
                         (user_keys_NoDup user_bob eq_refl)))
               eq_refl eq_refl eq_refl).
Defined.

End JoiningExamples.

(** ** When the index path and the scan agree *)

Section IndexAgrees.
Context `{RT : Runtime}.

(** Two values of the same type among strings, booleans and numbers. *)
Definition same_type (v w : value) : bool :=
  match v, w with
  | VStr _, VStr _ | VBool _, VBool _ | VNum _, VNum _ => true
  | _, _ => false
  end.

(** The positive side of the index optimisation: with the index of the
    column in the cache, an equality with a literal that is a string, a
    boolean or a finite number, on a column whose values are [null] or of
    the type of the literal, is answered from the index with the rows the
    full scan returns, in the same order. *)
Theorem filterRows_index_same_type (rs : list Row) (t c : string) (v : value)
    (d : DB) :
  truthy_string c = true ->
  indexes d !! cacheKey t c = Some (hashIndex c rs) ->
  persistent v = true ->
  (forall r, In r rs ->
     is_nullish (get r c) = true \/ same_type (get r c) v = true) ->
  filterRows rs (Simple c "=" v) t d = (scanRows rs (Simple c "=" v), d)
  /\ scanRows rs (Simple c "=" v)
     = Ok (map Some (List.filter (fun r => strictEq (get r c) v) rs)).
Proof.
  intros Hc Hi Hp Hty.
  assert (Hloose : forall r, In r rs ->
            looseEq (get r c) v = strictEq (get r c) v).
  { intros r Hin. destruct (Hty r Hin) as [Hn|Hs].
    - destruct (get r c), v; simpl in *; congruence.
    - destruct (get r c), v; simpl in *; congruence. }
  split.
  - apply filterRows_index_scan; trivial. intros r Hin.
    rewrite (Hloose r Hin). unfold indexed.
    rewrite (persistent_sameValueZero _ _ Hp).
    destruct (Hty r Hin) as [Hn|Hs].
    + rewrite Hn. destruct (get r c), v; simpl in *; congruence.
    + destruct (get r c), v; simpl in *; congruence.
  - rewrite scanRows_equality. do 2 f_equal.
    apply List.filter_ext_in. exact Hloose.
Qed.

End IndexAgrees.

Section IndexAgreesExamples.
#[local] Existing Instance DecRuntime.

Lemma db_two_index :
  indexes db_two !! cacheKey "t" "id" = Some (hashIndex "id" [row_1a; row_2b]).
Proof. reflexivity. Qed.

Definition two : value := VNum (DFin 2 0).

Lemma db_two_ids (r : Row) :
  In r [row_1a; row_2b] ->
  is_nullish (get r "id") = true \/ same_type (get r "id") two = true.
Proof. intros [<-|[<-|[]]]; right; reflexivity. Qed.

Lemma filterRows_index_same_type_witness :
  filterRows [row_1a; row_2b] (Simple "id" "=" two) "t" db_two
  = (Ok [Some row_2b], db_two).
Proof.
  destruct (filterRows_index_same_type (RT := DecRuntime)
              [row_1a; row_2b] "t" "id" two db_two
              eq_refl db_two_index eq_refl db_two_ids)
    as [Hf Hs].
  rewrite Hf, Hs. reflexivity.
Defined.

End IndexAgreesExamples.

(** ** The schema that CREATE TABLE declares *)

Section Schemas.
Context `{RT : Runtime}.

(** What [parseCreateTable] keeps true of the columns, the primary key
    and the unique keys while it reads the column definitions. *)
Definition declared (acc : list Column * option string * list string) : Prop :=
  let '(cols, pk, uks) := acc in
  (forall k, pk = Some k ->
     exists col, In col cols /\ name col = k /\
                 In "PRIMARY_KEY" (constraints col) /\
                 In "NOT_NULL" (constraints col))
  /\ (forall k, In k uks ->
        exists col, In col cols /\ name col = k /\
                    In "UNIQUE" (constraints col))
  /\ (forall col, In col cols -> In "PRIMARY_KEY" (constraints col) ->
        pk <> None)
  /\ (forall col, In col cols -> In "UNIQUE" (constraints col) ->
        In (name col) uks)
  /\ (forall col, In col cols -> truthy_string (type col) = true).

Lemma parseColumn_declared (acc : list Column * option string * list string)
    (colDef : string) :
  declared acc -> declared (parseColumn acc colDef).
Proof.
  destruct acc as [[cols pk] uks]. unfold declared, parseColumn.
  set (parts := re_split spaces1 (trim colDef)).
  set (columnName := nth 0 parts EmptyString).
  set (ty := match nth_error parts 1 with
             | Some ty => if truthy_string ty then ty else "TEXT"
             | None => "TEXT"
             end).
  set (upperDef := toUpperCase colDef).
  assert (Hty : truthy_string ty = true).
  { unfold ty. destruct (nth_error parts 1) as [x|]; [|reflexivity].
    now destruct (truthy_string x) eqn:E. }
  intros (Hpk & Huk & Hcp & Hcu & Hct).
  destruct (includes upperDef "PRIMARY KEY") eqn:Ep;
    destruct (includes upperDef "UNIQUE") eqn:Eu;
    destruct (includes upperDef "NOT NULL") eqn:En; cbn [app];
    (split; [|split; [|split; [|split]]]);
    try (intros k Hk; first
           [ injection Hk as <-; eexists; split;
             [apply in_or_app; right; left; reflexivity|];
             cbn; intuition
           | destruct (Hpk k Hk) as (col & Hin & Hrest); exists col;
             split; [apply in_or_app; now left|exact Hrest] ]);
    try (intros k Hk; first
           [ apply in_app_or in Hk as [Hk|[<-|[]]];
             [ destruct (Huk k Hk) as (col & Hin & Hrest); exists col;
               split; [apply in_or_app; now left|exact Hrest]
             | eexists; split; [apply in_or_app; right; left; reflexivity|];
               cbn; intuition ]
           | destruct (Huk k Hk) as (col & Hin & Hrest); exists col;
             split; [apply in_or_app; now left|exact Hrest] ]);
    try (intros col Hin Hc; apply in_app_or in Hin as [Hin|[<-|[]]];
         first [ discriminate
               | now apply (Hcp col)
               | cbn in Hc; intuition discriminate ]);
    try (intros col Hin Hc; apply in_app_or in Hin as [Hin|[<-|[]]];
         first [ apply in_or_app; left; now apply Hcu
               | apply in_or_app; right; now left
               | now apply Hcu
               | cbn in Hc; intuition discriminate ]);
    try (intros col Hin; apply in_app_or in Hin as [Hin|[<-|[]]];
         [now apply Hct|exact Hty]).
Qed.

Lemma fold_parseColumn_declared (defs : list string)
    (acc : list Column * option string * list string) :
  declared acc -> declared (fold_left parseColumn defs acc).
Proof.
  revert acc. induction defs as [|colDef defs IH]; intros acc H; simpl;
    [exact H|].
  apply IH. now apply parseColumn_declared.
Qed.

Lemma parse_CREATE_TABLE (sql t : string) (schema : Schema) :
  parse sql = Ok (CREATE_TABLE t schema) ->
  parseCreateTable (collapse_spaces (trim sql)) = Ok (CREATE_TABLE t schema).
Proof.
  unfold parse. cbv zeta. set (s := collapse_spaces (trim sql)).
  destruct (startsWith (toUpperCase s) "CREATE TABLE"); [trivial|].
  destruct (startsWith (toUpperCase s) "INSERT INTO").
  { unfold parseInsert. destruct (re_match insertPattern s) as [caps|];
      [|discriminate].
    destruct (capture caps 1); [|discriminate].
    destruct (capture caps 2); [|discriminate].
    destruct (capture caps 3); discriminate. }
  destruct (startsWith (toUpperCase s) "SELECT").
  { unfold parseSelect.
    destruct (re_match selectPattern s); [|discriminate].
    destruct (re_match fromPattern s); [|discriminate]. cbv zeta.
    destruct (re_match wherePattern s); [|discriminate].
    destruct (parseWhereClause _); discriminate. }
  destruct (startsWith (toUpperCase s) "UPDATE").
  { unfold parseUpdate.
    destruct (re_match updatePattern s) as [caps|]; [|discriminate].
    destruct (capture caps 1); [|discriminate].
    destruct (capture caps 2); [|discriminate].
    destruct (parseSet _ _); [|discriminate].
    destruct (parseOptionalWhere _); discriminate. }
  destruct (startsWith (toUpperCase s) "DELETE FROM").
  { unfold parseDelete.
    destruct (re_match deletePattern s) as [caps|]; [|discriminate].
    destruct (capture caps 1); [|discriminate].
    destruct (parseOptionalWhere _); discriminate. }
  destruct (startsWith (toUpperCase s) "DROP TABLE"); [|discriminate].
  unfold parseDropTable. destruct (re_match dropTablePattern s) as [caps|];
    [|discriminate].
  destruct (capture caps 1); discriminate.
Qed.

(** The schema of every CREATE TABLE statement that parses: the primary
    key, when there is one, names a column declared PRIMARY_KEY and
    NOT_NULL, and there is one as soon as a column is declared
    PRIMARY_KEY; the unique keys are the names of the columns declared
    UNIQUE; no column has an empty type. *)
Theorem parseCreateTable_schema (sql t : string) (schema : Schema) :
  parse sql = Ok (CREATE_TABLE t schema) ->
  (forall k, schema_primaryKey schema = Some k ->
     exists col, In col (schema_columns schema) /\ name col = k /\
                 In "PRIMARY_KEY" (constraints col) /\
                 In "NOT_NULL" (constraints col))
  /\ (forall k, In k (schema_uniqueKeys schema) ->
        exists col, In col (schema_columns schema) /\ name col = k /\
                    In "UNIQUE" (constraints col))
  /\ (forall col, In col (schema_columns schema) ->
        In "PRIMARY_KEY" (constraints col) ->
        schema_primaryKey schema <> None)
  /\ (forall col, In col (schema_columns schema) ->
        In "UNIQUE" (constraints col) ->
        In (name col) (schema_uniqueKeys schema))
  /\ (forall col, In col (schema_columns schema) ->
        truthy_string (type col) = true).
Proof.
  intros H. apply parse_CREATE_TABLE in H. unfold parseCreateTable in H.
  destruct (re_match createTablePattern _) as [caps|]; [|discriminate].
  destruct (capture caps 1); [|discriminate].
  destruct (capture caps 2) as [columnsStr|]; [|discriminate].
  assert (Hd : declared (fold_left parseColumn (splitByComma columnsStr)
                                   ([], None, []))).
  { apply fold_parseColumn_declared. simpl.
    repeat split; try discriminate; intros ? []. }
  destruct (fold_left parseColumn _ _) as [[cols pk] uks].
  injection H as _ <-. exact Hd.
Qed.

End Schemas.

Section SchemaExamples.
#[local] Existing Instance DecRuntime.

Lemma parseCreateTable_schema_witness :
  exists col,
    In col (columns meta_u) /\ name col = "id" /\
    In "PRIMARY_KEY" (constraints col) /\ In "NOT_NULL" (constraints col).
Proof.
  exact (proj1 (parseCreateTable_schema (RT := DecRuntime)
                  "CREATE TABLE u (id INTEGER PRIMARY KEY, email TEXT UNIQUE)"
                  "u" schema_u eq_refl)
               "id" eq_refl).
Defined.

End SchemaExamples.

(** ** An index read back from its file *)

Section IndexFiles.
Context `{RT : Runtime}.

(** [new Database(dataDir)] on the data directory of a state: the files
    stay, the caches of table objects and of indexes start empty. *)
Definition reopen (d : DB) : DB :=
  {| storage := storage d; indexFiles := indexFiles d; indexes := ∅;
     tables := ∅; clock := clock d |}.

Definition key_in (ks : list value) (v : value) : bool :=
  existsb (fun k => sameValueZero k v) ks.

(** Keys that are pairwise different as keys of a [Map]. *)
Fixpoint distinct_keys (ks : list value) : Prop :=
  match ks with
  | [] => True
  | k :: ks' => key_in ks' k = false /\ distinct_keys ks'
  end.

(** Keys that JSON writes and reads back as they are. *)
Definition fixed_keys (ks : list value) : Prop :=
  forall k, In k ks -> json_value k = k.

Lemma map_has_keys (ix : Index) (v : value) :
  map_has ix v = key_in (map fst ix) v.
Proof.
  induction ix as [|[k ps] ix IH]; simpl; [reflexivity|]. now rewrite IH.
Qed.

Lemma map_push_keys (ix : Index) (v : value) (i : nat) :
  map fst (map_push ix v i) = map fst ix.
Proof.
  induction ix as [|[k ps] ix IH]; simpl; [reflexivity|].
  destruct (sameValueZero k v); simpl; [reflexivity|]. now rewrite IH.
Qed.

Lemma map_set_new (ix : Index) (v : value) (ps : list nat) :
  map_has ix v = false -> map_set ix v ps = (ix ++ [(v, ps)])%list.
Proof.
  induction ix as [|[k ps'] ix IH]; simpl; [reflexivity|].
  intros H. apply orb_false_iff in H as [Hk Hh]. rewrite Hk.
  now rewrite (IH Hh).
Qed.

Lemma key_in_app (ks ks' : list value) (v : value) :
  key_in (ks ++ ks') v = key_in ks v || key_in ks' v.
Proof. apply existsb_app. Qed.

Lemma distinct_keys_snoc (ks : list value) (v : value) :
  distinct_keys ks -> key_in ks v = false -> distinct_keys (ks ++ [v]).
Proof.
  induction ks as [|k ks IH]; simpl; [now split|].
  intros [Hk Hd] Hv. apply orb_false_iff in Hv as [Hkv Hv]. split.
  - rewrite key_in_app, Hk. simpl.
    now rewrite sameValueZero_sym, Hkv.
  - now apply IH.
Qed.

Lemma index_row_keys (c : string) (ix : Index) (r : Row) (i : nat) :
  distinct_keys (map fst ix) -> fixed_keys (map fst ix) ->
  (is_nullish (get r c) = false -> json_value (get r c) = get r c) ->
  distinct_keys (map fst (index_row c ix r i))
  /\ fixed_keys (map fst (index_row c ix r i)).
Proof.
  intros Hd Hf Hv. unfold index_row.
  destruct (is_nullish (get r c)); simpl; [now split|].
  specialize (Hv eq_refl).
  rewrite map_push_keys. destruct (map_has ix (get r c)) eqn:E; simpl;
    [now split|].
  rewrite (map_set_new _ _ _ E), map_app. simpl. split.
  - apply distinct_keys_snoc; [exact Hd|]. now rewrite <- map_has_keys.
  - intros k Hin. apply in_app_or in Hin as [Hin|[<-|[]]]; auto.
Qed.

Lemma index_rows_keys (c : string) (rs : list Row) (ix : Index) (i : nat) :
  distinct_keys (map fst ix) -> fixed_keys (map fst ix) ->
  (forall r, In r rs ->
     is_nullish (get r c) = false -> json_value (get r c) = get r c) ->
  distinct_keys (map fst (index_rows c ix rs i))
  /\ fixed_keys (map fst (index_rows c ix rs i)).
Proof.
  revert ix i. induction rs as [|r rs IH]; intros ix i Hd Hf Hv; simpl;
    [now split|].
  destruct (index_row_keys c ix r i Hd Hf (Hv r (or_introl eq_refl)))
    as [Hd' Hf'].
  apply IH; trivial. intros r' Hin. apply Hv. now right.
Qed.

Lemma length_json_row (r : Row) : (length (json_row r) <= length r)%nat.
Proof.
  unfold json_row. rewrite length_map. apply List.filter_length_le.
Qed.

(** A row that JSON keeps as it is holds values that JSON keeps. *)
Lemma json_row_fixed (r : Row) (k : string) :
  json_row r = r -> json_value (get r k) = get r k \/ get r k = VUndefined.
Proof.
  induction r as [|[k' v] r IH]; simpl; [now right|].
  intros H. unfold json_row in H. simpl in H.
  destruct (strictEq v VUndefined) eqn:E; simpl in H.
  - pose proof (length_json_row r) as Hl. unfold json_row in Hl.
    rewrite H in Hl. simpl in Hl. lia.
  - injection H as Hv Hr. destruct (String.eqb k' k); [now left|].
    now apply IH.
Qed.

Lemma json_entries_fixed (ix : Index) :
  fixed_keys (map fst ix) -> json_entries ix = ix.
Proof.
  unfold json_entries. induction ix as [|[k ps] ix IH]; simpl;
    [reflexivity|].
  intros H. rewrite (H k (or_introl eq_refl)), IH; [reflexivity|].
  intros k' Hin. apply H. now right.
Qed.

Lemma fold_map_set_distinct (l acc : Index) :
  distinct_keys (map fst (acc ++ l)) ->
  fold_left (fun m e => map_set m (fst e) (snd e)) l acc = (acc ++ l)%list.
Proof.
  revert acc. induction l as [|[k ps] l IH]; intros acc Hd; simpl.
  - now rewrite app_nil_r.
  - assert (Hk : map_has acc k = false).
    { rewrite map_has_keys. clear IH. induction acc as [|[a qs] acc IHa];
        simpl in *; [reflexivity|].
      destruct Hd as [Ha Hd]. rewrite map_app, key_in_app in Ha. simpl in Ha.
      apply orb_false_iff in Ha as [_ Ha].
      apply orb_false_iff in Ha as [Ha _].
      rewrite sameValueZero_sym, Ha. simpl. now apply IHa. }
    rewrite (map_set_new _ _ _ Hk), IH; rewrite <- app_assoc; [reflexivity|].
    exact Hd.
Qed.

Lemma hashIndex_round_trip (c : string) (rs : list Row) :
  map json_row rs = rs ->
  map_of_entries (json_entries (hashIndex c rs)) = hashIndex c rs.
Proof.
  intros Hj.
  destruct (index_rows_keys c rs [] 0 I (fun k H => match H with end))
    as [Hd Hf].
  { intros r Hin Hn. pose proof (map_fixed json_row rs r Hj Hin) as Hr.
    destruct (json_row_fixed r c Hr) as [H|H]; [exact H|].
    rewrite H in Hn. discriminate. }
  fold (hashIndex c rs) in Hd, Hf.
  rewrite (json_entries_fixed _ Hf). unfold map_of_entries.
  now rewrite (fold_map_set_distinct _ [] Hd).
Qed.

(** Round trip through the index file: when the cache holds no index of
    the column and the index file holds the entries [buildIndex] wrote
    for the stored rows, as after the database was opened anew, an
    equality on the column is answered from the file with the rows found
    under the key, as it is from the cache, and the index read is
    cached. *)
Theorem lookup_from_index_file (rs : list Row) (t c : string) (v : value)
    (d : DB) :
  truthy_string c = true ->
  map json_row rs = rs ->
  indexes d !! cacheKey t c = None ->
  option_map idx_entries (indexFile t c d)
  = Some (json_entries (hashIndex c rs)) ->
  filterRows rs (Simple c "=" v) t d
  = (Ok (map Some (List.filter (indexed c v) rs)),
     with_indexes (fun ix => <[cacheKey t c := hashIndex c rs]> ix) d).
Proof.
  intros Hc Hj Hi Hf. unfold filterRows. rewrite Hc. simpl.
  unfold lookup, loadIndex, bind, gets, modify, ret. rewrite Hi.
  destruct (indexFile t c d) as [f|]; [|discriminate].
  injection Hf as Hf. rewrite Hf, (hashIndex_round_trip c rs Hj).
  now rewrite <- rowsAt_hashIndex.
Qed.

End IndexFiles.

Section IndexFileExamples.
#[local] Existing Instance DecRuntime.

Lemma rows_two_json : map json_row [row_1a; row_2b] = [row_1a; row_2b].
Proof. reflexivity. Qed.

Lemma reopened_index_file :
  option_map idx_entries (indexFile "t" "id" (reopen db_two))
  = Some (json_entries (hashIndex "id" [row_1a; row_2b])).
Proof. reflexivity. Qed.

Lemma lookup_from_index_file_witness :
  fst (filterRows [row_1a; row_2b] (Simple "id" "=" two) "t" (reopen db_two))
  = Ok [Some row_2b].
Proof.
  rewrite (lookup_from_index_file (RT := DecRuntime)
             [row_1a; row_2b] "t" "id" two (reopen db_two)
             eq_refl rows_two_json eq_refl reopened_index_file).
  reflexivity.
Defined.

End IndexFileExamples.
